(** * Consensus: the multi-model debate orchestrator of [consensus/main.py]

    A shallow embedding of the debate core (provider adapters, router,
    round orchestrator, consensus analyzer, event stream) and the
    properties its specification states about it.

    Conventions of the embedding.
    - A Python [str] is a [string] whose characters are the code points
      0..255, one [ascii] per code point, so that [len], [lower] and
      [split] are the interpreter's on that alphabet.
    - A Python [int] is a [Z].
    - A [dict] is an association list in insertion order with unique keys.
    - A value that crosses the adapters' boundary is a parsed JSON value
      ([json]): what [response.json()] hands back is not typed by the
      program, and the adapters return the span they find there as it is.
    - An exception is a value of [exn]; a computation that may raise
      returns a [result].  Only subclasses of [Exception] are modelled
      (no cancellation, no interpreter exit).
    - What the interpreter fixes and the program does not (the wording of
      [str(e)], the [str()] of a number, list or dict, the iteration
      order of a [set]) is a parameter of the development. *)

From Stdlib Require Import ZArith Ascii String List Lia Permutation.
From stdpp Require Import base tactics option list strings pretty sorting.

Set Warnings "-register-all".

Local Open Scope Z_scope.

(** ** Python strings *)

(** [str.isspace] on one code point, as [str.split()] uses it. *)
Definition isspace (c : ascii) : bool :=
  let n := N_of_ascii c in
  ((9 <=? n) && (n <=? 13) || (28 <=? n) && (n <=? 32)
   || (n =? 133) || (n =? 160))%N.

(** [str.lower] on one code point: A-Z and the Latin-1 capitals
    (U+00C0..U+00DE without the multiplication sign U+00D7). *)
Definition lower_char (c : ascii) : ascii :=
  let n := N_of_ascii c in
  if ((65 <=? n) && (n <=? 90)
      || (192 <=? n) && (n <=? 222) && negb (n =? 215))%N
  then ascii_of_N (n + 32) else c.

(** [s.lower()] *)
Fixpoint lower (s : string) : string :=
  match s with
  | EmptyString => EmptyString
  | String c s' => String (lower_char c) (lower s')
  end.

Definition cons_token (w : string) (ws : list string) : list string :=
  match w with EmptyString => ws | _ => w :: ws end.

(** The token that starts at the head of [s] (empty when [s] starts with
    white space) and the tokens after it. *)
Fixpoint split_go (s : string) : string * list string :=
  match s with
  | EmptyString => (EmptyString, [])
  | String c s' =>
      let '(w, ws) := split_go s' in
      if isspace c then (EmptyString, cons_token w ws) else (String c w, ws)
  end.

(** [s.split()]: the maximal runs of non-space characters, in order. *)
Definition split (s : string) : list string :=
  let '(w, ws) := split_go s in cons_token w ws.

(** [len(s)] *)
Definition len (s : string) : Z := Z.of_nat (String.length s).

(** [chr(10).join(l)] *)
Fixpoint join_lines (l : list string) : string :=
  match l with
  | [] => ""
  | [x] => x
  | x :: l' => x +:+ String "010" (join_lines l')
  end.

Definition nl : string := String "010" "".

(** ** Values and exceptions *)

Inductive json :=
  | JNull
  | JBool (b : bool)
  | JNum (literal : string)
  | JStr (s : string)
  | JArr (items : list json)
  | JObj (members : list (string * json)).

Inductive exn :=
  | TimeoutException                 (* httpx.TimeoutException *)
  | TransportError (detail : string) (* any other exception of client.post *)
  | JSONDecodeError                  (* response.json() on a body that is not JSON *)
  | KeyError (key : json)
  | IndexError
  | TypeError
  | AttributeError.

Inductive result (A : Type) :=
  | Ok (a : A)
  | Raise (e : exn).
Arguments Ok {A} a.
Arguments Raise {A} e.

Definition rbind {A B} (r : result A) (k : A -> result B) : result B :=
  match r with
  | Ok a => k a
  | Raise e => Raise e
  end.

Declare Scope result_scope.
Delimit Scope result_scope with result.
Notation "x <- r ;; k" := (rbind r (fun x => k))
  (at level 100, r at next level, right associativity) : result_scope.

(** [d[k]] on an association list *)
Fixpoint assoc {V} (k : string) (d : list (string * V)) : option V :=
  match d with
  | [] => None
  | (k', v) :: d' => if String.eqb k k' then Some v else assoc k d'
  end.

(** [x[key]] for a [str] key *)
Definition getitem_key (x : json) (key : string) : result json :=
  match x with
  | JObj members =>
      match assoc key members with
      | Some v => Ok v
      | None => Raise (KeyError (JStr key))
      end
  | _ => Raise TypeError
  end.

(** [x[0]] *)
Definition getitem_0 (x : json) : result json :=
  match x with
  | JArr (v :: _) => Ok v
  | JArr [] => Raise IndexError
  | JStr (String c _) => Ok (JStr (String c ""))
  | JStr EmptyString => Raise IndexError
  | JObj _ => Raise (KeyError (JNum "0"))
  | _ => Raise TypeError
  end.

(** [x.get(key, default)] *)
Definition get_default (x : json) (key : string) (default : json) : result json :=
  match x with
  | JObj members =>
      match assoc key members with
      | Some v => Ok v
      | None => Ok default
      end
  | _ => Raise AttributeError
  end.

(** [if v:] for an optional string *)
Definition truthy (system : option string) : bool :=
  match system with
  | Some (String _ _) => true
  | _ => false
  end.

(** ** The static catalog [MODELS] *)

Record model_config := {
  name : string;
  color : string;
  api_url : string;
  model : string
}.

Definition claude_config : model_config := {|
  name := "Claude";
  color := "#D97706";
  api_url := "https://api.anthropic.com/v1/messages";
  model := "claude-sonnet-4-20250514" |}.

Definition gpt_config : model_config := {|
  name := "GPT-4o";
  color := "#10B981";
  api_url := "https://api.openai.com/v1/chat/completions";
  model := "gpt-4o" |}.

Definition gemini_config : model_config := {|
  name := "Gemini";
  color := "#3B82F6";
  api_url := "https://generativelanguage.googleapis.com/v1beta/models/gemini-1.5-flash:generateContent";
  model := "gemini-1.5-flash" |}.

Definition MODELS : list (string * model_config) :=
  [("claude", claude_config); ("gpt", gpt_config); ("gemini", gemini_config)].

(** [MODELS[model_id]] *)
Definition MODELS_getitem (model_id : string) : result model_config :=
  match assoc model_id MODELS with
  | Some c => Ok c
  | None => Raise (KeyError (JStr model_id))
  end.

(** ** The HTTP boundary *)

(** A turn of the conversation, [{"role": ..., "content": ...}]: every
    call site builds it with both keys ([call_gemini_turns] below is
    [call_gemini] on turns of any shape). *)
Record message := { role : string; content : string }.

Record http_request := {
  url : string;
  headers : list (string * string);
  payload : json;
  timeout : Z                        (* seconds *)
}.

(** What [await client.post(...)] comes to: it raises, or it hands back a
    response with its status code, its body text and, when the body is
    JSON, the value [response.json()] parses it to. *)
Inductive http_outcome :=
  | Raises (e : exn)
  | Responds (status_code : Z) (text : string) (parsed : option json).

(** [response.json()] *)
Definition response_json (parsed : option json) : result json :=
  match parsed with
  | Some v => Ok v
  | None => Raise JSONDecodeError
  end.

Definition message_json (m : message) : json :=
  JObj [("role", JStr (role m)); ("content", JStr (content m))].

(** A sample interpreter: fixed wordings, and sets iterated in the
    order their elements were handed over. *)
Definition sample_exn_text (e : exn) : string := "exception".
Definition sample_repr (v : json) : string := "<value>".
Definition insertion_order (l : list string) : list string := l.

(** Another interpreter: sets iterated from the last element handed over
    to the first. *)
Definition reverse_order (l : list string) : list string := rev l.

Section Interpreter.

(** [str(e)] for an exception, [str(v)] for a number, list or dict, and
    the order in which a [set] of the given elements is iterated. *)
Variable exn_text : exn -> string.
Variable repr_other : json -> string.
Variable set_iteration : list string -> list string.

(** [str(v)], as an f-string formats [{v}] *)
Definition py_str (v : json) : string :=
  match v with
  | JStr s => s
  | JNull => "None"
  | JBool true => "True"
  | JBool false => "False"
  | _ => repr_other v
  end.

(** The block the three adapters share on a status other than 200:
    [error_detail = response.text], replaced by
    [response.json().get("error", {}).get("message", response.text)]
    unless any step of that raises (bare [except: pass]). *)
Definition error_detail (text : string) (parsed : option json) : json :=
  match (error_json <- response_json parsed ;;
          err <- get_default error_json "error" (JObj []) ;;
          get_default err "message" (JStr text))%result with
  | Ok v => v
  | Raise _ => JStr text
  end.

(** *** call_claude *)

Definition claude_request (api_key : string) (messages : list message)
    (system : option string) : http_request :=
  let headers := [("x-api-key", api_key);
                  ("anthropic-version", "2023-06-01");
                  ("content-type", "application/json")] in
  let payload := [("model", JStr (model claude_config));
                  ("max_tokens", JNum "4000");
                  ("messages", JArr (map message_json messages))] in
  let payload :=
    if truthy system then payload ++ [("system", JStr (default "" system))]
    else payload in
  {| url := api_url claude_config; headers := headers;
     payload := JObj payload; timeout := 60 |}.

(** [data["content"][0]["text"]] *)
Definition claude_span (data : json) : result json :=
  (c <- getitem_key data "content" ;;
   c0 <- getitem_0 c ;;
   getitem_key c0 "text")%result.

(** The body of the [try] once [client.post] has settled. *)
Definition claude_try (out : http_outcome) : result json :=
  match out with
  | Raises e => Raise e
  | Responds status_code text parsed =>
      if negb (status_code =? 200) then
        Ok (JStr ("Claude API Error (" +:+ pretty status_code +:+ "): "
                  +:+ py_str (error_detail text parsed)))
      else
        (data <- response_json parsed ;; claude_span data)%result
  end.

Definition call_claude (post : http_request -> http_outcome)
    (api_key : string) (messages : list message) (system : option string)
    : result json :=
  match claude_try (post (claude_request api_key messages system)) with
  | Ok v => Ok v
  | Raise TimeoutException => Ok (JStr "Error: Claude API request timed out")
  | Raise e => Ok (JStr ("Error calling Claude: " +:+ exn_text e))
  end.

(** *** call_gpt *)

Definition gpt_request (api_key : string) (messages : list message)
    (system : option string) : http_request :=
  let headers := [("Authorization", "Bearer " +:+ api_key);
                  ("Content-Type", "application/json")] in
  let full_messages :=
    (if truthy system
     then [{| role := "system"; content := default "" system |}]
     else []) ++ messages in
  let payload := [("model", JStr (model gpt_config));
                  ("max_tokens", JNum "4000");
                  ("messages", JArr (map message_json full_messages))] in
  {| url := api_url gpt_config; headers := headers;
     payload := JObj payload; timeout := 60 |}.

(** [data["choices"][0]["message"]["content"]] *)
Definition gpt_span (data : json) : result json :=
  (c <- getitem_key data "choices" ;;
   c0 <- getitem_0 c ;;
   m <- getitem_key c0 "message" ;;
   getitem_key m "content")%result.

Definition gpt_try (out : http_outcome) : result json :=
  match out with
  | Raises e => Raise e
  | Responds status_code text parsed =>
      if negb (status_code =? 200) then
        Ok (JStr ("GPT API Error (" +:+ pretty status_code +:+ "): "
                  +:+ py_str (error_detail text parsed)))
      else
        (data <- response_json parsed ;; gpt_span data)%result
  end.

Definition call_gpt (post : http_request -> http_outcome)
    (api_key : string) (messages : list message) (system : option string)
    : result json :=
  match gpt_try (post (gpt_request api_key messages system)) with
  | Ok v => Ok v
  | Raise TimeoutException => Ok (JStr "Error: GPT API request timed out")
  | Raise e => Ok (JStr ("Error calling GPT: " +:+ exn_text e))
  end.

(** *** call_gemini *)

Definition gemini_content (msg : message) : json :=
  let role := if String.eqb (role msg) "user" then "user" else "model" in
  JObj [("role", JStr role);
        ("parts", JArr [JObj [("text", JStr (content msg))]])].

Definition gemini_request (api_key : string) (messages : list message)
    (system : option string) : http_request :=
  let url := api_url gemini_config +:+ "?key=" +:+ api_key in
  let contents := map gemini_content messages in
  let payload := [("contents", JArr contents);
                  ("generationConfig", JObj [("maxOutputTokens", JNum "4000")])] in
  let payload :=
    if truthy system
    then payload ++ [("systemInstruction",
                      JObj [("parts", JArr [JObj [("text", JStr (default "" system))]])])]
    else payload in
  {| url := url; headers := []; payload := JObj payload; timeout := 60 |}.

(** [data["candidates"][0]["content"]["parts"][0]["text"]] *)
Definition gemini_span (data : json) : result json :=
  (c <- getitem_key data "candidates" ;;
   c0 <- getitem_0 c ;;
   ct <- getitem_key c0 "content" ;;
   ps <- getitem_key ct "parts" ;;
   p0 <- getitem_0 ps ;;
   getitem_key p0 "text")%result.

Definition gemini_try (out : http_outcome) : result json :=
  match out with
  | Raises e => Raise e
  | Responds status_code text parsed =>
      if negb (status_code =? 200) then
        Ok (JStr ("Gemini API Error (" +:+ pretty status_code +:+ "): "
                  +:+ py_str (error_detail text parsed)))
      else
        (data <- response_json parsed ;; gemini_span data)%result
  end.

Definition call_gemini (post : http_request -> http_outcome)
    (api_key : string) (messages : list message) (system : option string)
    : result json :=
  match gemini_try (post (gemini_request api_key messages system)) with
  | Ok v => Ok v
  | Raise TimeoutException => Ok (JStr "Error: Gemini API request timed out")
  | Raise e => Ok (JStr ("Error calling Gemini: " +:+ exn_text e))
  end.

(** *** call_model *)

(** [api_keys.get(family, "")] *)
Definition api_key_of (api_keys : list (string * string)) (family : string) : string :=
  default "" (assoc family api_keys).

Definition call_model (post : http_request -> http_outcome) (model_id : string)
    (api_keys : list (string * string)) (messages : list message)
    (system : option string) : result json :=
  if String.eqb model_id "claude" then
    call_claude post (api_key_of api_keys "anthropic") messages system
  else if String.eqb model_id "gpt" then
    call_gpt post (api_key_of api_keys "openai") messages system
  else if String.eqb model_id "gemini" then
    call_gemini post (api_key_of api_keys "google") messages system
  else Ok (JStr ("Unknown model: " +:+ model_id)).


(** ** analyze_consensus *)

Record analysis := {
  models_compared : list string;
  common_themes : list string;
  response_lengths : list (string * Z)
}.

(** The two dash entries lie outside the alphabet of the embedding and
    are kept as the bytes of the source file; like every entry of at most
    three characters they make no difference after the length filter. *)
Definition stop_words : list string :=
  ["the"; "a"; "an"; "is"; "are"; "was"; "were"; "be"; "been";
   "being"; "have"; "has"; "had"; "do"; "does"; "did"; "will";
   "would"; "could"; "should"; "may"; "might"; "must"; "shall";
   "can"; "of"; "to"; "in"; "for"; "on"; "with"; "at"; "by";
   "from"; "as"; "into"; "through"; "during"; "before"; "after";
   "above"; "below"; "between"; "under"; "again"; "further";
   "then"; "once"; "here"; "there"; "when"; "where"; "why";
   "how"; "all"; "each"; "few"; "more"; "most"; "other"; "some";
   "such"; "no"; "nor"; "not"; "only"; "own"; "same"; "so";
   "than"; "too"; "very"; "just"; "and"; "but"; "if"; "or";
   "because"; "until"; "while"; "although"; "this"; "that";
   "these"; "those"; "i"; "you"; "he"; "she"; "it"; "we"; "they";
   "what"; "which"; "who"; "whom"; "its"; "his"; "her"; "their";
   "our"; "your"; "my"; "-"; "–"; "—"; "."; ","; ":"; ";"; "!"; "?"].

(** [for x in l] collecting the results of a body that may raise *)
Fixpoint rmapM {A B} (f : A -> result B) (l : list A) : result (list B) :=
  match l with
  | [] => Ok []
  | x :: l' => (y <- f x ;; ys <- rmapM f l' ;; Ok (y :: ys))%result
  end.

(** [resp.lower()]: only a [str] has the method. *)
Definition str_lower (resp : json) : result string :=
  match resp with
  | JStr s => Ok (lower s)
  | _ => Raise AttributeError
  end.

(** [len(resp)] *)
Definition py_len (resp : json) : result Z :=
  match resp with
  | JStr s => Ok (len s)
  | JArr items => Ok (Z.of_nat (length items))
  | JObj members => Ok (Z.of_nat (length members))
  | _ => Raise TypeError
  end.

(** [set.intersection( *sets )]; a set is kept as a duplicate-free list. *)
Definition set_intersection (sets : list (list string)) : result (list string) :=
  match sets with
  | [] => Raise TypeError
  | s :: rest => Ok (foldl list_intersection s rest)
  end.

Definition analyze_consensus (responses : list (string * json)) : result analysis :=
  (let model_names := map fst responses in
   response_words <-
     rmapM (fun '(model, resp) =>
              low <- str_lower resp ;; Ok (model, remove_dups (split low)))
           responses ;;
   meaningful_common <-
     (if (1 <? Z.of_nat (length response_words)) then
        common_words <- set_intersection (map snd response_words) ;;
        let meaningful_common := list_difference common_words stop_words in
        Ok (filter (fun w => 3 < len w) meaningful_common)
      else Ok []) ;;
   lengths <-
     rmapM (fun '(model, resp) => n <- py_len resp ;; Ok (model, n)) responses ;;
   Ok {| models_compared := model_names;
         common_themes := take 10 (set_iteration meaningful_common);
         response_lengths := lengths |})%result.

(** ** The debate *)

Record DebateRequest := {
  context : string;
  question : string;
  api_keys : list (string * string);
  models : list string;
  rounds : Z
}.

(** The events of the stream, before [json.dumps] frames them: the
    dicts with ["type"] ["response"], ["consensus"] and ["done"]. *)
Inductive event :=
  | RoundEvent (round : Z) (model_id model_name model_color : string)
               (response : json) (is_revision : bool)
  | ConsensusEvent (summary : json) (consensus : analysis)
  | DoneEvent.

(** The places where the debate awaits the network: the call of the
    participant at a position of [request.models] in a round, and the
    summary call. *)
Inductive call_site :=
  | RoundCall (round_num : Z) (position : nat)
  | SummaryCall.

(** The network as one debate meets it: what each [client.post] comes
    to, and how long each call of a round takes to settle. *)
Record network := {
  post_at : call_site -> http_request -> http_outcome;
  latency : Z -> nat -> nat
}.

(** [all_responses]: participant id to its responses so far. *)
Definition DebateState := list (string * list json).

(** [d[k] = v] *)
Fixpoint dict_set {V} (k : string) (v : V) (d : list (string * V)) : list (string * V) :=
  match d with
  | [] => [(k, v)]
  | (k', v') :: d' =>
      if String.eqb k k' then (k, v) :: d' else (k', v') :: dict_set k v d'
  end.

(** [d[k]] *)
Definition dict_getitem {V} (d : list (string * V)) (k : string) : result V :=
  match assoc k d with
  | Some v => Ok v
  | None => Raise (KeyError (JStr k))
  end.

(** [l[-1]] *)
Definition getitem_last (l : list json) : result json :=
  match last l with
  | Some v => Ok v
  | None => Raise IndexError
  end.

(** [all_responses[model_id].append(response)] *)
Definition append_response (model_id : string) (response : json)
    (all_responses : DebateState) : result DebateState :=
  (hist <- dict_getitem all_responses model_id ;;
   Ok (dict_set model_id (hist ++ [response]) all_responses))%result.

(** [range(lo, hi)] *)
Definition range (lo hi : Z) : list Z := seqZ lo (hi - lo).

(** *** asyncio.gather *)

(** The awaitables of one round settle in order of latency; the result
    of each is filed under the position of its awaitable, and the first
    one to raise ends the wait. *)
Fixpoint settle (coros : list (result json)) (order : list nat)
    (slots : list (option json)) : result (list (option json)) :=
  match order with
  | [] => Ok slots
  | i :: order' =>
      match coros !! i with
      | Some (Ok v) => settle coros order' (<[i := Some v]> slots)
      | Some (Raise e) => Raise e
      | None => settle coros order' slots
      end
  end.

Definition no_later (lat : nat -> nat) (i j : nat) : Prop := (lat i <= lat j)%nat.

#[global] Instance no_later_dec lat : RelDecision (no_later lat).
Proof. intros i j. unfold no_later. apply _. Defined.

Definition completion_order (lat : nat -> nat) (n : nat) : list nat :=
  merge_sort (no_later lat) (seq 0 n).

Definition gather (lat : nat -> nat) (coros : list (result json)) : result (list json) :=
  (slots <- settle coros (completion_order lat (length coros))
                   (replicate (length coros) None) ;;
   Ok (omap id slots))%result.

(** *** The generator *)

(** A piece of the generator's body: from the state it starts in, the
    events it yields (each with the state at that yield), the state it
    ends in, and its value or the exception that ends the stream. *)
Definition stream (A : Type) : Type :=
  DebateState -> list (event * DebateState) * DebateState * result A.

Definition sret {A} (a : A) : stream A := fun s => ([], s, Ok a).

Definition sbind {A B} (c : stream A) (k : A -> stream B) : stream B :=
  fun s =>
    match c s with
    | (out, s', Ok a) =>
        let '(out', s'', r) := k a s' in (out ++ out', s'', r)
    | (out, s', Raise e) => (out, s', Raise e)
    end.

Declare Scope stream_scope.
Delimit Scope stream_scope with stream.
Notation "x <- c ;; k" := (sbind c (fun x => k))
  (at level 100, c at next level, right associativity) : stream_scope.
Notation "c ;; k" := (sbind c (fun _ => k))
  (at level 100, right associativity) : stream_scope.

Definition lift {A} (r : result A) : stream A := fun s => ([], s, r).
Definition get_state : stream DebateState := fun s => ([], s, Ok s).
Definition put_state (s : DebateState) : stream unit := fun _ => ([], s, Ok tt).
Definition yield (e : event) : stream unit := fun s => ([(e, s)], s, Ok tt).

(** [for x in l: acc = body(acc, x)] *)
Fixpoint for_fold {A B} (l : list A) (acc : B) (body : B -> A -> stream B) : stream B :=
  match l with
  | [] => sret acc
  | x :: l' => (acc' <- body acc x ;; for_fold l' acc' body)%stream
  end.

Definition for_each {A} (l : list A) (body : A -> stream unit) : stream unit :=
  for_fold l tt (fun _ x => body x).

(** *** The prompts *)

Definition dq : string := String (ascii_of_nat 34) "".

Definition system_round1 : string :=
"You are participating in a multi-AI debate. 
Give your honest, well-reasoned response to the question. 
Be concise but thorough. Structure your response clearly.".

Definition system_revision : string :=
"You are participating in a multi-AI debate. 
You've seen other AI models' responses. Now:
1. Note where you agree or disagree
2. Critique any flawed reasoning you see
3. Revise your position if warranted, or defend it if you stand by it
Be direct and substantive. Don't be sycophantic.".

Definition content_round1 (request : DebateRequest) : string :=
  "Context: " +:+ context request +:+ "

Question: " +:+ question request +:+ "

Please provide your analysis and answer.".

Definition content_revision (request : DebateRequest) (previous : string)
    (other_responses : list string) : string :=
  "Context: " +:+ context request +:+ "

Question: " +:+ question request +:+ "

Your previous response: " +:+ previous +:+ "

Other models' responses:
" +:+ join_lines other_responses +:+ "

Please critique the other responses and revise your position if needed. What do you agree on? Where do you disagree?".

(** The inner loop over [request.models] that collects
    [other_responses] for [model_id]. *)
Fixpoint collect_others (all_responses : DebateState) (model_id : string)
    (others : list string) (other_responses : list string) : result (list string) :=
  match others with
  | [] => Ok other_responses
  | other_model :: others' =>
      if negb (String.eqb other_model model_id) then
        (hist <- dict_getitem all_responses other_model ;;
         match hist with
         | [] => collect_others all_responses model_id others' other_responses
         | _ =>
             cfg <- MODELS_getitem other_model ;;
             v <- getitem_last hist ;;
             collect_others all_responses model_id others'
               (other_responses ++ ["**" +:+ name cfg +:+ "**: " +:+ py_str v])
         end)%result
      else collect_others all_responses model_id others' other_responses
  end.

(** [system] and [messages] of one participant for one round. *)
Definition build_prompt (request : DebateRequest) (round_num : Z)
    (all_responses : DebateState) (model_id : string)
    : result (string * list message) :=
  if round_num =? 1 then
    Ok (system_round1,
        [{| role := "user"; content := content_round1 request |}])
  else
    (other_responses <- collect_others all_responses model_id (models request) [] ;;
     hist <- dict_getitem all_responses model_id ;;
     previous <- match hist with
                 | [] => Ok "N/A"
                 | _ => v <- getitem_last hist ;; Ok (py_str v)
                 end ;;
     Ok (system_revision,
         [{| role := "user";
             content := content_revision request previous other_responses |}]))%result.

(** *** run_debate_stream *)

(** One entry of [tasks]: the participant and its pending call. *)
Record task := {
  task_model : string;
  task_messages : list message;
  task_system : string
}.

Definition run_task (request : DebateRequest) (client : network)
    (round_num : Z) (position : nat) (t : task) : result json :=
  call_model (post_at client (RoundCall round_num position)) (task_model t)
    (api_keys request) (task_messages t) (Some (task_system t)).

Definition summary_header (request : DebateRequest) : string :=
  "Analyze these AI responses to the question: " +:+ dq +:+ question request +:+ dq +:+ "

".

Definition summary_footer : string :=
"
Provide a brief consensus summary:
1. **Areas of Agreement**: What do the models agree on?
2. **Areas of Disagreement**: Where do they differ?
3. **Key Insights**: What are the most valuable takeaways?

Be concise and specific.".

Definition summary_system : string :=
  "You are a neutral analyst summarizing a debate between AI models. Be objective and balanced.".

(** The loop that appends each final response to [summary_prompt]. *)
Fixpoint summary_lines (final_responses : list (string * json))
    (summary_prompt : string) : result string :=
  match final_responses with
  | [] => Ok summary_prompt
  | (model_id, response) :: rest =>
      (cfg <- MODELS_getitem model_id ;;
       summary_lines rest
         (summary_prompt +:+ "**" +:+ name cfg +:+ "**: " +:+ py_str response
          +:+ nl +:+ nl))%result
  end.

Definition debate_round (request : DebateRequest) (client : network)
    (round_num : Z) : stream unit :=
  (tasks <- for_fold (models request) [] (fun tasks model_id =>
      all_responses <- get_state ;;
      prompt <- lift (build_prompt request round_num all_responses model_id) ;;
      let '(system, messages) := prompt in
      sret (tasks ++ [{| task_model := model_id; task_messages := messages;
                         task_system := system |}])) ;;
   results <- lift (gather (latency client round_num)
                      (imap (run_task request client round_num) tasks)) ;;
   for_each (zip tasks results) (fun '(t, response) =>
      let model_id := task_model t in
      all_responses <- get_state ;;
      all_responses <- lift (append_response model_id response all_responses) ;;
      put_state all_responses ;;
      cfg_name <- lift (MODELS_getitem model_id) ;;
      cfg_color <- lift (MODELS_getitem model_id) ;;
      yield (RoundEvent round_num model_id (name cfg_name) (color cfg_color)
               response (1 <? round_num))))%stream.

(** The loop that gives every participant an empty history. *)
Definition init_histories (request : DebateRequest) : stream unit :=
  for_each (models request) (fun model_id =>
    all_responses <- get_state ;;
    put_state (dict_set model_id [] all_responses))%stream.

(** What follows the last round: the final responses, their analysis,
    the summary call, the consensus event and the terminal marker. *)
Definition conclude (request : DebateRequest) (client : network) : stream unit :=
  (all_responses <- get_state ;;
   final_responses <- lift (rmapM (fun '(model_id, responses) =>
                                     v <- getitem_last responses ;; Ok (model_id, v))%result
                                  all_responses) ;;
   consensus <- lift (analyze_consensus final_responses) ;;
   summary_model <- lift (match models request with
                          | m :: _ => Ok m
                          | [] => Raise IndexError
                          end) ;;
   summary_prompt <- lift (summary_lines final_responses (summary_header request)) ;;
   summary <- lift (call_model (post_at client SummaryCall) summary_model
                      (api_keys request)
                      [{| role := "user"; content := summary_prompt +:+ summary_footer |}]
                      (Some summary_system)) ;;
   yield (ConsensusEvent summary consensus) ;;
   yield DoneEvent)%stream.

Definition run_debate_stream (request : DebateRequest) (client : network)
    : stream unit :=
  (init_histories request ;;
   for_each (range 1 (rounds request + 1)) (debate_round request client) ;;
   conclude request client)%stream.

(** What a consumer of the generator sees: the events in order, and
    whether the generator returned ([None]) or raised. *)
Definition events_of {A} (run : list (event * DebateState) * DebateState * result A)
    : list event := map fst run.1.1.

Definition raised_of {A} (run : list (event * DebateState) * DebateState * result A)
    : option exn :=
  match run.2 with
  | Ok _ => None
  | Raise e => Some e
  end.

Definition final_state {A} (run : list (event * DebateState) * DebateState * result A)
    : DebateState := run.1.2.

(** A debate starts with an empty [all_responses]. *)
Definition debate (request : DebateRequest) (client : network) :=
  run_debate_stream request client [].


(** ** The HTTP endpoints *)

(** [HTTPException(status_code=..., detail=...)] *)
Record HTTPException := { http_status : Z; http_detail : string }.

(** [StreamingResponse(generator, media_type=...)] *)
Record StreamingResponse := {
  body_iterator : stream unit;
  media_type : string
}.

(** [required_keys] of [start_debate] *)
Definition required_keys : list (string * string) :=
  [("claude", "anthropic"); ("gpt", "openai"); ("gemini", "google")].

(** The loop of [start_debate] over [request.models]: the exception it
    raises, if any. *)
Fixpoint check_keys (api_keys : list (string * string)) (models : list string)
    : option HTTPException :=
  match models with
  | [] => None
  | model :: rest =>
      let key_name := assoc model required_keys in
      if truthy key_name && negb (truthy (assoc (default "" key_name) api_keys)) then
        Some {| http_status := 400;
                http_detail := "Missing API key for " +:+ model +:+ ": need '"
                               +:+ default "" key_name +:+ "' key" |}
      else check_keys api_keys rest
  end.

Definition start_debate (request : DebateRequest) (client : network)
    : HTTPException + StreamingResponse :=
  match check_keys (api_keys request) (models request) with
  | Some e => inl e
  | None =>
      inr {| body_iterator := run_debate_stream request client;
             media_type := "text/event-stream" |}
  end.

(** [get_models]: id to display name and color. *)
Definition get_models : list (string * (string * string)) :=
  map (fun '(model_id, config) => (model_id, (name config, color config))) MODELS.

(** [health_check] *)
Definition health_check : list (string * string) :=
  [("status", "healthy"); ("service", "consensus-api")].

(** *** call_gemini on turns of any shape *)

(** [call_gemini] is the one adapter that reads its turns, and it does
    so in the loop before its [try]: [msg["role"]], compared with
    ["user"], then [msg["content"]], on a turn as the caller hands it
    over. *)
Definition gemini_turn (msg : json) : result json :=
  (r <- getitem_key msg "role" ;;
   c <- getitem_key msg "content" ;;
   let role := match r with
               | JStr s => if String.eqb s "user" then "user" else "model"
               | _ => "model"
               end in
   Ok (JObj [("role", JStr role); ("parts", JArr [JObj [("text", c)]])]))%result.

Definition gemini_request_of (api_key : string) (contents : list json)
    (system : option string) : http_request :=
  let url := api_url gemini_config +:+ "?key=" +:+ api_key in
  let payload := [("contents", JArr contents);
                  ("generationConfig", JObj [("maxOutputTokens", JNum "4000")])] in
  let payload :=
    if truthy system
    then payload ++ [("systemInstruction",
                      JObj [("parts", JArr [JObj [("text", JStr (default "" system))]])])]
    else payload in
  {| url := url; headers := []; payload := JObj payload; timeout := 60 |}.

Definition call_gemini_turns (post : http_request -> http_outcome)
    (api_key : string) (messages : list json) (system : option string)
    : result json :=
  (contents <- rmapM gemini_turn messages ;;
   match gemini_try (post (gemini_request_of api_key contents system)) with
   | Ok v => Ok v
   | Raise TimeoutException => Ok (JStr "Error: Gemini API request timed out")
   | Raise e => Ok (JStr ("Error calling Gemini: " +:+ exn_text e))
   end)%result.

(** ** Vocabulary of the properties *)

(** The three provider adapters under one name. *)
Inductive provider := Claude | GPT | Gemini.

Definition provider_name (p : provider) : string :=
  match p with Claude => "Claude" | GPT => "GPT" | Gemini => "Gemini" end.

Definition adapter (p : provider) :=
  match p with Claude => call_claude | GPT => call_gpt | Gemini => call_gemini end.

Definition request_of (p : provider) :=
  match p with
  | Claude => claude_request | GPT => gpt_request | Gemini => gemini_request
  end.

Definition span_of (p : provider) :=
  match p with Claude => claude_span | GPT => gpt_span | Gemini => gemini_span end.

(** [all_responses] once every participant has its empty history. *)
Definition init_state (models : list string) (s : DebateState) : DebateState :=
  foldl (fun s model_id => dict_set model_id [] s) s models.

(** A participant id of the static catalog. *)
Definition known (model_id : string) : bool :=
  match assoc model_id MODELS with Some _ => true | None => false end.

Definition keys {V} (d : list (string * V)) : list string := map fst d.

Definition is_text (v : json) : bool :=
  match v with JStr _ => true | _ => false end.

(** A dict of text responses, as [analyze_consensus] is annotated to
    take it. *)
Definition text_dict (rs : list (string * string)) : list (string * json) :=
  map (fun '(m, r) => (m, JStr r)) rs.

(** [set(resp.lower().split())] *)
Definition token_set (r : string) : list string := remove_dups (split (lower r)).

(** A token of every response that is no stop word and longer than 3. *)
Definition meaningful_common (rs : list (string * string)) (t : string) : Prop :=
  (forall m r, (m, r) ∈ rs -> t ∈ split (lower r))
  /\ (t ∉ stop_words) /\ (3 < len t).

(** The set [meaningful_common] of the source, for text responses. *)
Definition shared_terms (rs : list (string * string)) : list string :=
  match map (fun mr => token_set mr.2) rs with
  | s :: (_ :: _) as rest =>
      filter (fun w => 3 < len w)
        (list_difference (foldl list_intersection s rest) stop_words)
  | _ => []
  end.

(** Every order of iteration lists the elements of the set, each once. *)
Definition iteration_lists_the_set : Prop :=
  forall l : list string, set_iteration l ≡ₚ l.

(** Eleven shared terms, [consciousness] the last of them. *)
Definition eleven_terms : string :=
  "mind brain self mental neural qualia physical causal emergent theory consciousness".

(** The value of a call that returned. *)
Definition value_of (r : result json) : json :=
  match r with Ok v => v | Raise _ => JNull end.

Definition returns (r : result json) : Prop := exists v, r = Ok v.

(** The entry of [tasks] for one participant. *)
Definition make_task (request : DebateRequest) (round_num : Z)
    (s : DebateState) (model_id : string) : result task :=
  (prompt <- build_prompt request round_num s model_id ;;
   Ok {| task_model := model_id; task_messages := prompt.2;
         task_system := prompt.1 |})%result.

(** [tasks] of a round that starts in state [s]. *)
Definition build_tasks (request : DebateRequest) (round_num : Z)
    (s : DebateState) : result (list task) :=
  rmapM (make_task request round_num s) (models request).

(** What the calls of a round return, in the order of [tasks]. *)
Definition round_results (request : DebateRequest) (client : network)
    (round_num : Z) (tasks : list task) : list json :=
  imap (fun i t => value_of (run_task request client round_num i t)) tasks.

(** The recording and emission loop of a round, unrolled. *)
Fixpoint emit (round_num : Z) (trs : list (task * json)) (s : DebateState)
    : list (event * DebateState) * DebateState * result unit :=
  match trs with
  | [] => ([], s, Ok tt)
  | (t, response) :: rest =>
      match append_response (task_model t) response s with
      | Raise e => ([], s, Raise e)
      | Ok s' =>
          match MODELS_getitem (task_model t) with
          | Raise e => ([], s', Raise e)
          | Ok cfg =>
              let '(log, s'', r) := emit round_num rest s' in
              ((RoundEvent round_num (task_model t) (name cfg) (color cfg)
                  response (1 <? round_num), s') :: log, s'', r)
          end
      end
  end.

(** One round from state [s]. *)
Definition round_run (request : DebateRequest) (client : network)
    (round_num : Z) (s : DebateState) :=
  match build_tasks request round_num s with
  | Raise e => ([], s, Raise e)
  | Ok tasks =>
      emit round_num (zip tasks (round_results request client round_num tasks)) s
  end.

(** The round and the participant of a round event. *)
Definition round_key (e : event) : option (Z * string) :=
  match e with
  | RoundEvent round model_id _ _ _ _ => Some (round, model_id)
  | _ => None
  end.

Definition round_keys (evs : list event) : list (Z * string) := omap round_key evs.

Definition is_round (e : event) : Prop := is_Some (round_key e).

(** Round by round, the participants in the order of [request.models]. *)
Definition schedule_of (models : list string) (rounds : list Z) : list (Z * string) :=
  flat_map (fun r => map (pair r) models) rounds.

Definition schedule (request : DebateRequest) : list (Z * string) :=
  schedule_of (models request) (range 1 (rounds request + 1)).

(** Every participant of [l] is in the catalog and has a history in [s]. *)
Definition ready (s : DebateState) (l : list string) : Prop :=
  Forall (fun m => known m = true /\ m ∈ keys s) l.

(** [t] occurs in [s] as it is. *)
Definition contains (s t : string) : Prop :=
  exists before after, s = before +:+ t +:+ after.

(** The text of a response as a prompt quotes it. *)
Definition quoted (hist : list json) : string :=
  match last hist with Some v => py_str v | None => "N/A" end.

(** Two networks on which every adapter call returns the same. *)
Definition same_returns (request : DebateRequest) (c1 c2 : network) : Prop :=
  forall site model_id messages system,
    call_model (post_at c1 site) model_id (api_keys request) messages system
    = call_model (post_at c2 site) model_id (api_keys request) messages system.

(** The histories cut to their first [j] responses. *)
Definition truncate (j : nat) (s : DebateState) : DebateState :=
  map (fun mh : string * list json => (mh.1, take j mh.2)) s.

(** What the adapter call of the participant [m] at position [i] of
    [request.models] returns in a round that starts in state [s]. *)
Definition adapter_return (request : DebateRequest) (client : network)
    (round_num : Z) (s : DebateState) (i : nat) (m : string) : result json :=
  (t <- make_task request round_num s m ;;
   run_task request client round_num i t)%result.

(** After [j] rounds: every participant has [j] responses, and its
    response number [j' + 1] is what its adapter call returned in round
    [j' + 1], prompted from the first [j'] responses of all. *)
Definition recorded (request : DebateRequest) (client : network)
    (j : nat) (s : DebateState) : Prop :=
  forall i m,
    models request !! i = Some m ->
    exists h,
      assoc m s = Some h /\ length h = j
      /\ forall j' v,
           h !! j' = Some v ->
           adapter_return request client (Z.of_nat j' + 1) (truncate j' s) i m = Ok v.

(** Every history of [s] is still there in [s'], possibly longer. *)
Definition extends (s s' : DebateState) : Prop :=
  forall m h, assoc m s = Some h ->
    exists h', assoc m s' = Some h' /\ h `prefix_of` h'.

(** From [s] on, each state extends the one before it. *)
Fixpoint ascending (s : DebateState) (snaps : list DebateState) : Prop :=
  match snaps with
  | [] => True
  | s1 :: rest => extends s s1 /\ ascending s1 rest
  end.

(** The states of a run: the one at every yield, then the last one. *)
Definition snapshots {A} (run : list (event * DebateState) * DebateState * result A)
    : list DebateState := map snd run.1.1 ++ [run.1.2].

(** The last response of every participant is text. *)
Definition final_text (s : DebateState) : bool :=
  forallb (fun mh : string * list json =>
             match last mh.2 with Some (JStr _) => true | _ => false end) s.

(** What the stream has yielded, each event with the state at its yield. *)
Definition yields {A} (run : list (event * DebateState) * DebateState * result A)
    : list (event * DebateState) := run.1.1.

(** A round event as the request and the catalog allow it: of a listed
    participant, under the display name and color [get_models] gives for
    it, of a round between 1 and the round count, flagged as a revision
    exactly after round 1. *)
Definition round_event_of (request : DebateRequest) (e : event) : Prop :=
  exists round model_id model_name model_color response,
    e = RoundEvent round model_id model_name model_color response (1 <? round)
    /\ assoc model_id get_models = Some (model_name, model_color)
    /\ model_id ∈ models request
    /\ 1 <= round <= rounds request.

(** The text of the last response of a history (empty when there is
    none or it is not text). *)
Definition last_text (hist : list json) : string :=
  match last hist with Some (JStr t) => t | _ => "" end.

(** The characters of a string. *)
Definition chars (s : string) : list ascii := list_ascii_of_string s.

(** The [message] member of the [error] object of a JSON body, when the
    body is an object whose [error] member is an object that has one. *)
Definition structured_message (parsed : option json) : option json :=
  match parsed with
  | Some (JObj members) =>
      match assoc "error" members with
      | Some (JObj err) => assoc "message" err
      | _ => None
      end
  | _ => None
  end.

(** Reading a request body back: a member of a JSON object, the
    conversation under ["messages"] and the turns under ["contents"]. *)
Definition member (key : string) (j : json) : option json :=
  match j with
  | JObj members => assoc key members
  | _ => None
  end.

Definition message_of_json (j : json) : option message :=
  match member "role" j, member "content" j with
  | Some (JStr r), Some (JStr c) => Some {| role := r; content := c |}
  | _, _ => None
  end.

Definition sent_messages (req : http_request) : option (list message) :=
  match member "messages" (payload req) with
  | Some (JArr items) => mapM message_of_json items
  | _ => None
  end.

Definition turn_of_json (j : json) : option (string * string) :=
  match member "role" j, member "parts" j with
  | Some (JStr r), Some (JArr [part]) =>
      match member "text" part with
      | Some (JStr t) => Some (r, t)
      | _ => None
      end
  | _, _ => None
  end.

Definition sent_contents (req : http_request) : option (list (string * string)) :=
  match member "contents" (payload req) with
  | Some (JArr items) => mapM turn_of_json items
  | _ => None
  end.

(** The system prompt as the adapters take it: [None] and the empty
    string are both dropped. *)
Definition system_given (system : option string) : option string :=
  match system with
  | Some "" => None
  | _ => system
  end.

(** The request with other credentials, and with another round count. *)
Definition with_api_keys (request : DebateRequest) (api_keys' : list (string * string))
    : DebateRequest :=
  {| context := context request; question := question request;
     api_keys := api_keys'; models := models request; rounds := rounds request |}.

Definition with_rounds (request : DebateRequest) (rounds' : Z) : DebateRequest :=
  {| context := context request; question := question request;
     api_keys := api_keys request; models := models request; rounds := rounds' |}.

(** The round events of a list of events. *)
Definition round_part (evs : list event) : list event :=
  List.filter (fun e => match round_key e with Some _ => true | None => false end) evs.

(** The text an adapter returns for an exception caught at its
    boundary: the fixed timeout text of the provider, or the text of the
    exception after [Error calling <Provider>: ]. *)
Definition caught_text (p : provider) (e : exn) : string :=
  match e with
  | TimeoutException => "Error: " +:+ provider_name p +:+ " API request timed out"
  | _ => "Error calling " +:+ provider_name p +:+ ": " +:+ exn_text e
  end.

(** The catalog id that [call_model] routes to an adapter. *)
Definition provider_id (p : provider) : string :=
  match p with Claude => "claude" | GPT => "gpt" | Gemini => "gemini" end.

(** The text of the last response of every participant. *)
Definition final_texts (s : DebateState) : list (string * string) :=
  map (fun mh : string * list json => (mh.1, last_text mh.2)) s.

(** An event without the one field that depends on the order in which
    a set is iterated, the common themes of a consensus event. *)
Definition without_themes (e : event) : event :=
  match e with
  | ConsensusEvent summary a =>
      ConsensusEvent summary {| models_compared := models_compared a;
                                common_themes := [];
                                response_lengths := response_lengths a |}
  | _ => e
  end.

(** Sample requests and networks. *)
Definition sample_request (models : list string) (rounds : Z) : DebateRequest :=
  {| context := "Mind and matter"; question := "What is consciousness?";
     api_keys := [("anthropic", "k1"); ("openai", "k2"); ("google", "k3")];
     models := models; rounds := rounds |}.

(** Every call times out; later positions settle first. *)
Definition timeouts : network :=
  {| post_at := fun _ _ => Raises TimeoutException;
     latency := fun _ i => (10 - i)%nat |}.

(** Every call times out; earlier positions settle first. *)
Definition timeouts_in_order : network :=
  {| post_at := fun _ _ => Raises TimeoutException;
     latency := fun _ i => i |}.

(** A state after one round of two participants. *)
Definition after_round1 : DebateState :=
  [("claude", [JStr "Minds are brains."]); ("gpt", [JStr "Minds are programs."])].

(** Every call is answered 200 with a body in the OpenAI shape whose
    [content] is [null]. *)
Definition null_content : network :=
  {| post_at := fun _ _ =>
       Responds 200 "{...}"
         (Some (JObj [("choices",
                       JArr [JObj [("message", JObj [("content", JNull)])]])]));
     latency := fun _ _ => 0%nat |}.

(** * Properties *)

(** ** Association lists as dicts *)

Lemma assoc_dict_set_eq {V} k (v : V) d : assoc k (dict_set k v d) = Some v.
Proof.
  induction d as [|[k' v'] d IH]; simpl.
  - by rewrite String.eqb_refl.
  - destruct (String.eqb k k') eqn:E; simpl; rewrite ?String.eqb_refl, ?E; auto.
Qed.

Lemma assoc_dict_set_ne {V} k k' (v : V) d :
  k ≠ k' -> assoc k' (dict_set k v d) = assoc k' d.
Proof.
  intros Hne. induction d as [|[k0 v0] d IH]; simpl.
  - assert (String.eqb k' k = false) as -> by (apply String.eqb_neq; congruence).
    done.
  - destruct (String.eqb k k0) eqn:E; simpl.
    + apply String.eqb_eq in E as <-.
      by assert (String.eqb k' k = false) as -> by (apply String.eqb_neq; congruence).
    + by rewrite IH.
Qed.

Lemma assoc_Some_elem_of {V} k (v : V) d : assoc k d = Some v -> k ∈ keys d.
Proof.
  induction d as [|[k' v'] d IH]; simpl; [done|].
  destruct (String.eqb k k') eqn:E.
  - apply String.eqb_eq in E as ->. intros _. apply list_elem_of_here.
  - intros H. apply list_elem_of_further; auto.
Qed.

Lemma elem_of_keys_assoc {V} k (d : list (string * V)) :
  k ∈ keys d -> exists v, assoc k d = Some v.
Proof.
  induction d as [|[k' v'] d IH]; simpl.
  - intros H. by apply elem_of_nil in H.
  - intros H. destruct (String.eqb k k') eqn:E; [eauto|].
    apply elem_of_cons in H as [->|H]; [|auto].
    by rewrite String.eqb_refl in E.
Qed.

Lemma keys_dict_set_present {V} k (v : V) d :
  k ∈ keys d -> keys (dict_set k v d) = keys d.
Proof.
  induction d as [|[k' v'] d IH]; simpl.
  - intros H. by apply elem_of_nil in H.
  - intros H. destruct (String.eqb k k') eqn:E; simpl.
    + apply String.eqb_eq in E as ->. done.
    + f_equal. apply IH. apply elem_of_cons in H as [->|H]; [|done].
      by rewrite String.eqb_refl in E.
Qed.

Lemma keys_dict_set_absent {V} k (v : V) d :
  k ∉ keys d -> keys (dict_set k v d) = keys d ++ [k].
Proof.
  induction d as [|[k' v'] d IH]; simpl; [done|].
  intros H. apply not_elem_of_cons in H as [Hne Hd].
  assert (String.eqb k k' = false) as -> by (by apply String.eqb_neq).
  simpl. f_equal. by apply IH.
Qed.

(** ** The generator monad *)

Lemma sbind_Ok {A B} (c : stream A) (k : A -> stream B) s out s' a :
  c s = (out, s', Ok a) ->
  sbind c k s = (let '(out', s'', r) := k a s' in (out ++ out', s'', r)).
Proof. unfold sbind. by intros ->. Qed.

Lemma sbind_Raise {A B} (c : stream A) (k : A -> stream B) s out s' e :
  c s = (out, s', Raise e) -> sbind c k s = (out, s', Raise e).
Proof. unfold sbind. by intros ->. Qed.

Lemma sbind_ext {A B} (c : stream A) (k1 k2 : A -> stream B) s :
  (forall a s', k1 a s' = k2 a s') -> sbind c k1 s = sbind c k2 s.
Proof.
  intros H. unfold sbind. destruct (c s) as [[out s'] [a|e]]; [|done].
  by rewrite H.
Qed.

Lemma sbind_ext_both {A B} (c1 c2 : stream A) (k1 k2 : A -> stream B) s :
  c1 s = c2 s -> (forall a s', k1 a s' = k2 a s') -> sbind c1 k1 s = sbind c2 k2 s.
Proof. intros Hc Hk. unfold sbind. rewrite Hc. by apply sbind_ext. Qed.

Lemma for_fold_ext {A B} (l : list A) (acc : B) (b1 b2 : B -> A -> stream B) s :
  (forall acc x s', b1 acc x s' = b2 acc x s') ->
  for_fold l acc b1 s = for_fold l acc b2 s.
Proof.
  intros H. revert acc s. induction l as [|x l IH]; intros acc s; simpl; [done|].
  unfold sbind. rewrite H. destruct (b2 acc x s) as [[out s'] [a|e]]; [|done].
  by rewrite IH.
Qed.

Lemma sbind_get {B} (k : DebateState -> stream B) s :
  sbind get_state k s = k s s.
Proof. unfold sbind, get_state. by destruct (k s s) as [[out s'] r]. Qed.

Lemma sbind_put {B} (k : unit -> stream B) s s' :
  sbind (put_state s') k s = k tt s'.
Proof. unfold sbind, put_state. by destruct (k tt s') as [[out s''] r]. Qed.

Lemma sbind_sret {A B} (a : A) (k : A -> stream B) s :
  sbind (sret a) k s = k a s.
Proof. unfold sbind, sret. by destruct (k a s) as [[out s'] r]. Qed.

Lemma sbind_lift_Ok {A B} (a : A) (k : A -> stream B) s :
  sbind (lift (Ok a)) k s = k a s.
Proof. unfold sbind, lift. by destruct (k a s) as [[out s'] r]. Qed.

Lemma sbind_lift_Raise {A B} e (k : A -> stream B) s :
  sbind (lift (Raise e)) k s = ([], s, Raise e).
Proof. done. Qed.

Lemma sbind_yield {B} ev (k : unit -> stream B) s :
  sbind (yield ev) k s = (let '(out, s', r) := k tt s in ((ev, s) :: out, s', r)).
Proof. unfold sbind, yield. by destruct (k tt s) as [[out s'] r]. Qed.

(** ** The adapters *)

Lemma call_claude_total post api_key messages system :
  exists v, call_claude post api_key messages system = Ok v.
Proof.
  unfold call_claude.
  destruct (claude_try _) as [v|[]]; eauto.
Qed.

Lemma call_gpt_total post api_key messages system :
  exists v, call_gpt post api_key messages system = Ok v.
Proof.
  unfold call_gpt.
  destruct (gpt_try _) as [v|[]]; eauto.
Qed.

Lemma call_gemini_total post api_key messages system :
  exists v, call_gemini post api_key messages system = Ok v.
Proof.
  unfold call_gemini.
  destruct (gemini_try _) as [v|[]]; eauto.
Qed.

Lemma call_model_total post model_id api_keys messages system :
  exists v, call_model post model_id api_keys messages system = Ok v.
Proof.
  unfold call_model.
  repeat case_match;
    eauto using call_claude_total, call_gpt_total, call_gemini_total.
Qed.


Lemma error_detail_structured text parsed :
  error_detail text parsed = default (JStr text) (structured_message parsed).
Proof.
  unfold error_detail, structured_message.
  destruct parsed as [[| | | | |members]|]; try reflexivity.
  cbn [response_json rbind get_default].
  destruct (assoc "error" members) as [[| | | | |err]|]; try reflexivity.
  cbn [rbind get_default]. by destruct (assoc "message" err).
Qed.

Lemma span_of_any (p : provider) (v : json) : exists data, span_of p data = Ok v.
Proof.
  destruct p.
  - by exists (JObj [("content", JArr [JObj [("text", v)]])]).
  - by exists (JObj [("choices", JArr [JObj [("message", JObj [("content", v)])]])]).
  - by exists (JObj [("candidates",
                      JArr [JObj [("content",
                                   JObj [("parts", JArr [JObj [("text", v)]])])]])]).
Qed.

Lemma gemini_turn_message m : gemini_turn (message_json m) = Ok (gemini_content m).
Proof. destruct m as [r c]. reflexivity. Qed.

Lemma gemini_turns_messages messages :
  rmapM gemini_turn (map message_json messages) = Ok (map gemini_content messages).
Proof.
  induction messages as [|m messages IH]; [done|].
  cbn [map rmapM]. by rewrite gemini_turn_message, IH.
Qed.

(** C3: what every provider adapter returns, outcome by outcome of the
    HTTP call.  On turns with both keys it never raises.  A timeout gives
    the provider's fixed timeout text, any other exception of the call
    its text after [Error calling <Provider>: ], a status other than 200
    the [API Error] text with the status and the detail, a 200 body that
    is not JSON or lacks the provider's shape the text of the exception
    that reading it raised.  On a 200 body of the provider's shape the
    adapter returns the span as it is, and the span can be any value: the
    adapter returns something other than text exactly on a 200 response
    whose span is not text.  [call_gemini] also reads its turns before
    its [try]: on turns with both keys it is as above, and an exception
    of that reading leaves the adapter. *)
Theorem adapter_returns_text_or_the_span :
  forall (p : provider) post api_key messages system,
    let out := post (request_of p api_key messages system) in
    let r := adapter p post api_key messages system in
    (exists v, r = Ok v)
    /\ match out with
       | Raises e => r = Ok (JStr (caught_text p e))
       | Responds status_code text parsed =>
           if decide (status_code = 200) then
             match parsed with
             | None => r = Ok (JStr (caught_text p JSONDecodeError))
             | Some data =>
                 match span_of p data with
                 | Ok v => r = Ok v
                 | Raise e => r = Ok (JStr (caught_text p e))
                 end
             end
           else
             r = Ok (JStr (provider_name p +:+ " API Error (" +:+ pretty status_code
                           +:+ "): "
                           +:+ py_str (default (JStr text) (structured_message parsed))))
       end
    /\ (out = Raises TimeoutException ->
        r = Ok (JStr ("Error: " +:+ provider_name p +:+ " API request timed out")))
    /\ (is_text (value_of r) = false <->
        exists text data v,
          out = Responds 200 text (Some data)
          /\ span_of p data = Ok v /\ is_text v = false)
    /\ (forall v, exists data, span_of p data = Ok v)
    /\ call_gemini_turns post api_key (map message_json messages) system
       = call_gemini post api_key messages system
    /\ (forall turns e,
          rmapM gemini_turn turns = Raise e ->
          call_gemini_turns post api_key turns system = Raise e).
Proof.
  intros p post api_key messages system. cbv zeta.
  assert (match post (request_of p api_key messages system) with
          | Raises e =>
              adapter p post api_key messages system = Ok (JStr (caught_text p e))
          | Responds status_code text parsed =>
              if decide (status_code = 200) then
                match parsed with
                | None =>
                    adapter p post api_key messages system
                    = Ok (JStr (caught_text p JSONDecodeError))
                | Some data =>
                    match span_of p data with
                    | Ok v => adapter p post api_key messages system = Ok v
                    | Raise e =>
                        adapter p post api_key messages system
                        = Ok (JStr (caught_text p e))
                    end
                end
              else
                adapter p post api_key messages system
                = Ok (JStr (provider_name p +:+ " API Error (" +:+ pretty status_code
                            +:+ "): "
                            +:+ py_str (default (JStr text) (structured_message parsed))))
          end) as Htable.
  { destruct p; cbn [adapter request_of span_of provider_name];
      unfold call_claude, call_gpt, call_gemini, claude_try, gpt_try, gemini_try;
      (destruct (post _) as [e|st text parsed];
       [ by destruct e
       | destruct (decide (st = 200)) as [->|Hne];
         [ cbn [Z.eqb Pos.eqb negb]; destruct parsed as [data|];
           cbn [response_json rbind]; [|done];
           match goal with |- context [match ?sp data with _ => _ end] =>
             destruct (sp data) as [v|e] end; [done|by destruct e]
         | apply Z.eqb_neq in Hne; rewrite Hne; cbn [negb];
           by rewrite error_detail_structured ] ]). }
  split; [|split; [exact Htable|split; [|split; [|split; [|split]]]]].
  - destruct p; [apply call_claude_total|apply call_gpt_total|apply call_gemini_total].
  - intros Hout. by rewrite Hout in Htable.
  - destruct (post (request_of p api_key messages system)) as [e|st text parsed].
    + rewrite Htable. cbn [value_of is_text]. split; [done|].
      by intros (? & ? & ? & ? & _).
    + destruct (decide (st = 200)) as [->|Hne].
      * destruct parsed as [data|].
        -- destruct (span_of p data) as [v|e] eqn:Hspan; rewrite Htable;
             cbn [value_of is_text].
           ++ split; [by eauto 6|].
              intros (text' & data' & v' & Heq & Hspan' & Hv').
              injection Heq as _ <-. by rewrite Hspan in Hspan'; injection Hspan' as ->.
           ++ split; [done|].
              intros (text' & data' & v' & Heq & Hspan' & _).
              injection Heq as _ <-. by rewrite Hspan in Hspan'.
        -- rewrite Htable. cbn [value_of is_text]. split; [done|].
           by intros (? & ? & ? & ? & _).
      * rewrite Htable. cbn [value_of is_text]. split; [done|].
        intros (? & ? & ? & Heq & _). by injection Heq.
  - apply span_of_any.
  - unfold call_gemini_turns. by rewrite gemini_turns_messages.
  - intros turns e He. unfold call_gemini_turns. by rewrite He.
Qed.


(** ** Start of a debate *)

Lemma init_histories_run request s :
  init_histories request s = ([], init_state (models request) s, Ok tt).
Proof.
  unfold init_histories, init_state, for_each.
  generalize (models request) as l. intros l. revert s.
  induction l as [|m l IH]; intros s; simpl; [done|].
  unfold sbind at 1. simpl. by rewrite IH.
Qed.

Lemma init_state_histories l s :
  Forall (fun kv => kv.2 = []) s -> Forall (fun kv => kv.2 = []) (init_state l s).
Proof.
  unfold init_state. revert s. induction l as [|m l IH]; intros s Hs; simpl; [done|].
  apply IH. clear IH. induction Hs as [|[k v] d Hk Hd IHd]; simpl.
  - by repeat constructor.
  - destruct (String.eqb m k); constructor; auto.
Qed.

Lemma init_state_keys l s m :
  m ∈ keys (init_state l s) <-> m ∈ keys s \/ m ∈ l.
Proof.
  unfold init_state. revert s. induction l as [|m' l IH]; intros s; simpl.
  - rewrite elem_of_nil. tauto.
  - rewrite IH, elem_of_cons.
    destruct (decide (m' ∈ keys s)) as [Hin|Hout].
    + rewrite keys_dict_set_present by done. split; [tauto|].
      intros [?|[->|?]]; tauto.
    + rewrite keys_dict_set_absent, elem_of_app, list_elem_of_singleton by done.
      tauto.
Qed.

Lemma final_responses_empty_history (s : DebateState) :
  s <> [] -> Forall (fun kv => kv.2 = []) s ->
  rmapM (fun '(model_id, responses) =>
           v <- getitem_last responses ;; Ok (model_id, v))%result s
  = Raise IndexError.
Proof.
  intros Hne Hs. destruct s as [|[m h] s]; [done|].
  apply Forall_cons in Hs as [Hh _]. simpl in Hh. subst h. reflexivity.
Qed.

Lemma debate_no_rounds request client :
  rounds request < 1 -> models request <> [] ->
  debate request client = ([], init_state (models request) [], Raise IndexError).
Proof.
  intros Hr Hm. unfold debate, run_debate_stream.
  erewrite sbind_Ok by apply init_histories_run.
  unfold range. rewrite seqZ_nil by lia.
  unfold for_each at 1. simpl for_fold. unfold sbind at 1, sret at 1.
  unfold conclude, sbind at 1, get_state at 1.
  unfold sbind at 1, lift at 1.
  rewrite final_responses_empty_history; [done| |].
  - destruct (models request) as [|m l] eqn:E; [done|].
    intros Hnil.
    assert (m ∈ keys (init_state (m :: l) [])) as Hin.
    { apply init_state_keys. right. apply list_elem_of_here. }
    rewrite Hnil in Hin. by apply elem_of_nil in Hin.
  - by apply init_state_histories.
Qed.

(** C10: the round count is a plain integer; with fewer than one round
    and at least one participant the stream yields no event at all and
    ends in the IndexError of the last element of an empty history, so
    neither the consensus event nor the terminal marker is emitted. *)
Theorem no_rounds_raises_IndexError :
  forall request client,
    rounds request < 1 -> models request <> [] ->
    events_of (debate request client) = []
    /\ raised_of (debate request client) = Some IndexError.
Proof.
  intros request client Hr Hm.
  by rewrite (debate_no_rounds request client Hr Hm).
Qed.


(** ** analyze_consensus on text *)

Lemma response_words_text (rs : list (string * string)) :
  rmapM (fun '(model, resp) =>
           low <- str_lower resp ;; Ok (model, remove_dups (split low)))%result
        (text_dict rs)
  = Ok (map (fun '(m, r) => (m, token_set r)) rs).
Proof.
  unfold text_dict.
  induction rs as [|[m r] rs IH]; [done|].
  cbn [map rmapM]. by rewrite IH.
Qed.

Lemma response_lengths_text (rs : list (string * string)) :
  rmapM (fun '(model, resp) => n <- py_len resp ;; Ok (model, n))%result
        (text_dict rs)
  = Ok (map (fun '(m, r) => (m, len r)) rs).
Proof.
  unfold text_dict.
  induction rs as [|[m r] rs IH]; [done|].
  cbn [map rmapM]. by rewrite IH.
Qed.

Lemma keys_text_dict (rs : list (string * string)) : map fst (text_dict rs) = keys rs.
Proof.
  unfold text_dict, keys. rewrite map_map. apply map_ext. by intros [].
Qed.

Lemma token_sets_of_words (rs : list (string * string)) :
  map snd (map (fun '(m, r) => (m, token_set r)) rs)
  = map (fun mr => token_set mr.2) rs.
Proof. rewrite map_map. apply map_ext. by intros []. Qed.

Lemma analyze_consensus_text (rs : list (string * string)) :
  analyze_consensus (text_dict rs)
  = Ok {| models_compared := keys rs;
          common_themes := take 10 (set_iteration (shared_terms rs));
          response_lengths := map (fun '(m, r) => (m, len r)) rs |}.
Proof.
  unfold analyze_consensus.
  rewrite response_words_text, response_lengths_text, keys_text_dict.
  cbn [rbind]. rewrite token_sets_of_words, length_map.
  unfold shared_terms.
  destruct rs as [|[m1 r1] [|[m2 r2] rs]]; try reflexivity.
  assert ((1 <? Z.of_nat (length ((m1, r1) :: (m2, r2) :: rs))) = true) as ->.
  { apply Z.ltb_lt. simpl length. lia. }
  reflexivity.
Qed.

Lemma elem_of_foldl_intersection (s : list string) rest t :
  t ∈ foldl list_intersection s rest <-> t ∈ s /\ Forall (fun s' => t ∈ s') rest.
Proof.
  revert s. induction rest as [|s' rest IH]; intros s; simpl.
  - split; [intros; split; auto; constructor|tauto].
  - rewrite IH, list_elem_of_intersection, Forall_cons. tauto.
Qed.

Lemma NoDup_foldl_intersection (s : list string) rest :
  NoDup s -> NoDup (foldl list_intersection s rest).
Proof.
  revert s. induction rest as [|s' rest IH]; intros s Hs; simpl; [done|].
  apply IH. by apply NoDup_list_intersection.
Qed.

Lemma NoDup_shared_terms rs : NoDup (shared_terms rs).
Proof.
  unfold shared_terms.
  destruct rs as [|[m1 r1] [|[m2 r2] rs]]; try apply NoDup_nil_2.
  cbn [map snd].
  apply NoDup_filter, NoDup_list_difference, NoDup_foldl_intersection.
  apply NoDup_remove_dups.
Qed.

Lemma elem_of_shared_terms rs t :
  (2 <= length rs)%nat -> t ∈ shared_terms rs <-> meaningful_common rs t.
Proof.
  intros Hlen. unfold shared_terms, meaningful_common.
  destruct rs as [|[m1 r1] [|[m2 r2] rs]]; simpl in Hlen; try lia.
  cbn [map snd].
  rewrite list_elem_of_filter, list_elem_of_difference, elem_of_foldl_intersection.
  unfold token_set at 1. rewrite elem_of_remove_dups, Forall_forall.
  split.
  - intros (Hl & (H1 & Hrest) & Hstop). split; [|done].
    intros m r Hin. apply elem_of_cons in Hin as [Heq|Hin].
    + by inversion Heq; subst.
    + assert (t ∈ token_set r) as Ht.
      { apply Hrest. change (token_set r) with ((fun mr : string * string => token_set mr.2) (m, r)).
        apply (list_elem_of_fmap_2 (fun mr : string * string => token_set mr.2) _ _ Hin). }
      unfold token_set in Ht. by rewrite elem_of_remove_dups in Ht.
  - intros (Hall & Hstop & Hl). split; [done|]. split; [|done]. split.
    + apply (Hall m1). apply list_elem_of_here.
    + intros s' Hs'.
      change (s' ∈ (fun mr : string * string => token_set mr.2) <$> ((m2, r2) :: rs)) in Hs'.
      apply (list_elem_of_fmap_1 (fun mr : string * string => token_set mr.2)) in Hs'
        as ([m r] & -> & Hin).
      apply elem_of_remove_dups. apply (Hall m).
      by apply list_elem_of_further.
Qed.

(** C6: on a dict of text responses [analyze_consensus] returns the
    participants compared, the character length of every response and,
    as common themes, at most ten distinct tokens each of which is a
    lower-cased white-space token of every response, no stop word and
    longer than three characters; every such token is among them unless
    the ten places are taken; with fewer than two participants there are
    no common themes. *)
Theorem analyze_consensus_spec :
  iteration_lists_the_set ->
  forall rs : list (string * string),
    NoDup (keys rs) ->
    exists a,
      analyze_consensus (text_dict rs) = Ok a
      /\ models_compared a = keys rs
      /\ response_lengths a = map (fun '(m, r) => (m, len r)) rs
      /\ ((length rs < 2)%nat -> common_themes a = [])
      /\ ((2 <= length rs)%nat ->
          (length (common_themes a) <= 10)%nat
          /\ NoDup (common_themes a)
          /\ (forall t, t ∈ common_themes a -> meaningful_common rs t)
          /\ (forall t, meaningful_common rs t ->
                t ∈ common_themes a \/ length (common_themes a) = 10%nat)).
Proof.
  intros Hperm rs _. eexists. split; [apply analyze_consensus_text|].
  cbn [models_compared response_lengths common_themes].
  split; [done|]. split; [done|]. split.
  - intros Hlen. unfold shared_terms.
    assert (set_iteration [] = []) as Hnil.
    { apply Permutation_nil_r. apply (Hperm []). }
    destruct rs as [|[m1 r1] [|[m2 r2] rs]]; simpl in Hlen; try lia;
      cbn [map]; by rewrite Hnil.
  - intros Hlen. split; [|split; [|split]].
    + rewrite length_take. lia.
    + eapply sublist_NoDup; [|apply sublist_take].
      rewrite (Hperm (shared_terms rs)). apply NoDup_shared_terms.
    + intros t Ht. apply elem_of_shared_terms; [done|].
      rewrite <- (Hperm (shared_terms rs)).
      apply elem_of_take in Ht as (i & Hi & _).
      apply list_elem_of_lookup. eauto.
    + intros t Ht. apply elem_of_shared_terms in Ht; [|done].
      rewrite <- (Hperm (shared_terms rs)) in Ht.
      destruct (decide (length (set_iteration (shared_terms rs)) <= 10)%nat) as [Hle|Hgt].
      * left. by rewrite take_ge.
      * right. rewrite length_take. lia.
Qed.

(** C8, as amended: two text responses of two participants that both
    hold the token [consciousness] have it among the common themes, or
    the ten places of [common_themes] are taken by other shared terms;
    it is there whenever the responses share at most ten terms. *)
Theorem consciousness_is_common_theme :
  iteration_lists_the_set ->
  forall m1 m2 r1 r2,
    m1 <> m2 ->
    "consciousness" ∈ split (lower r1) ->
    "consciousness" ∈ split (lower r2) ->
    exists a,
      analyze_consensus [(m1, JStr r1); (m2, JStr r2)] = Ok a
      /\ ("consciousness" ∈ common_themes a
          \/ length (common_themes a) = 10%nat)
      /\ ((length (shared_terms [(m1, r1); (m2, r2)]) <= 10)%nat ->
          "consciousness" ∈ common_themes a).
Proof.
  intros Hperm m1 m2 r1 r2 _ H1 H2.
  set (rs := [(m1, r1); (m2, r2)]).
  assert ("consciousness" ∈ set_iteration (shared_terms rs)) as Hin.
  { rewrite (Hperm (shared_terms rs)). apply elem_of_shared_terms; [simpl; lia|].
    split; [|split].
    - intros m r Hmr. subst rs.
      apply elem_of_cons in Hmr as [Heq|Hmr]; [by inversion Heq; subst|].
      apply list_elem_of_singleton in Hmr. by inversion Hmr; subst.
    - apply (bool_decide_eq_false_1 _). vm_compute. reflexivity.
    - reflexivity. }
  eexists. split; [apply (analyze_consensus_text rs)|].
  cbn [common_themes]. split.
  - destruct (decide (length (set_iteration (shared_terms rs)) <= 10)%nat) as [Hle|Hgt].
    + left. by rewrite take_ge.
    + right. rewrite length_take. lia.
  - intros Hle. rewrite take_ge; [done|].
    by rewrite (Permutation_length (Hperm (shared_terms rs))).
Qed.


(** ** asyncio.gather *)

Lemma lookup_insert_const {A} (l : list A) i j x :
  <[i:=x]> l !! j = if decide (i = j) then (fun _ => x) <$> l !! j else l !! j.
Proof.
  destruct (decide (i = j)) as [->|Hne].
  - destruct (decide (j < length l)%nat) as [Hlt|Hge].
    + rewrite list_lookup_insert_eq by done.
      destruct (lookup_lt_is_Some_2 l j Hlt) as [y ->]. done.
    + rewrite list_insert_ge by lia. rewrite lookup_ge_None_2 by lia. done.
  - by rewrite list_lookup_insert_ne.
Qed.

Lemma settle_returns coros order slots :
  Forall returns coros ->
  exists slots',
    settle coros order slots = Ok slots'
    /\ forall j,
        slots' !! j =
          if decide (j ∈ order) then
            match coros !! j with
            | Some c => (fun _ => Some (value_of c)) <$> slots !! j
            | None => slots !! j
            end
          else slots !! j.
Proof.
  intros Hall. revert slots.
  induction order as [|i order IH]; intros slots; simpl.
  - eexists. split; [done|]. intros j.
    destruct (decide (j ∈ [])) as [Hin|_]; [|done]. by apply elem_of_nil in Hin.
  - destruct (coros !! i) as [c|] eqn:Hc.
    + assert (returns c) as [v ->].
      { eapply Forall_lookup_1; eauto. }
      destruct (IH (<[i:=Some v]> slots)) as (slots' & -> & Hl).
      eexists. split; [done|]. intros j. rewrite Hl, lookup_insert_const.
      destruct (decide (i = j)) as [->|Hne].
      * rewrite Hc. simpl.
        destruct (decide (j ∈ order)), (decide (j ∈ j :: order)) as [|Hn];
          try (exfalso; apply Hn; apply list_elem_of_here);
          destruct (slots !! j); done.
      * destruct (decide (j ∈ order)) as [Hin|Hnin],
          (decide (j ∈ i :: order)) as [Hin'|Hnin']; try done.
        -- exfalso. apply Hnin'. by apply list_elem_of_further.
        -- apply elem_of_cons in Hin' as [->|?]; done.
    + destruct (IH slots) as (slots' & -> & Hl).
      eexists. split; [done|]. intros j. rewrite Hl.
      destruct (decide (j ∈ order)) as [Hin|Hnin],
        (decide (j ∈ i :: order)) as [Hin'|Hnin']; try done.
      * exfalso. apply Hnin'. by apply list_elem_of_further.
      * apply elem_of_cons in Hin' as [->|?]; [|done]. by rewrite Hc.
Qed.

(** The results of [gather] are those of the awaitables, in the order of
    the awaitables, whatever the latencies. *)
Lemma gather_returns lat coros :
  Forall returns coros -> gather lat coros = Ok (map value_of coros).
Proof.
  intros Hall. unfold gather.
  destruct (settle_returns coros (completion_order lat (length coros))
              (replicate (length coros) None) Hall) as (slots & -> & Hl).
  cbn [rbind]. f_equal.
  assert (slots = map (fun c => Some (value_of c)) coros) as ->.
  { apply list_eq. intros j. rewrite Hl.
    assert (j ∈ completion_order lat (length coros) <-> (j < length coros)%nat) as Hin.
    { unfold completion_order. rewrite merge_sort_Permutation, elem_of_seq. lia. }
    change (map (fun c => Some (value_of c)) coros)
      with ((fun c => Some (value_of c)) <$> coros).
    rewrite list_lookup_fmap.
    destruct (decide (j ∈ completion_order lat (length coros))) as [Hj|Hj].
    - apply Hin in Hj. destruct (lookup_lt_is_Some_2 coros j Hj) as [c Hc].
      rewrite Hc. rewrite lookup_replicate_2 by done. done.
    - assert (length coros <= j)%nat as Hge by (rewrite Hin in Hj; lia).
      rewrite (proj1 (lookup_replicate_None (length coros) None j) Hge).
      by rewrite lookup_ge_None_2. }
  clear. induction coros as [|c coros IH]; [done|].
  cbn [map]. change (omap id (Some (value_of c) :: map (fun c => Some (value_of c)) coros))
    with (value_of c :: omap id (map (fun c => Some (value_of c)) coros)).
  by f_equal.
Qed.


(** ** One round *)

Lemma tasks_loop request round_num l acc s :
  for_fold l acc (fun tasks model_id =>
      all_responses <- get_state ;;
      prompt <- lift (build_prompt request round_num all_responses model_id) ;;
      let '(system, messages) := prompt in
      sret (tasks ++ [{| task_model := model_id; task_messages := messages;
                         task_system := system |}]))%stream s
  = ([], s, (ts <- rmapM (make_task request round_num s) l ;; Ok (acc ++ ts))%result).
Proof.
  revert acc s. induction l as [|m l IH]; intros acc s; cbn [for_fold rmapM rbind].
  - unfold sret. by rewrite app_nil_r.
  - rewrite sbind_ext with (k2 := fun acc' s' =>
      ([], s', (ts <- rmapM (make_task request round_num s') l ;; Ok (acc' ++ ts))%result))
      by (intros; apply IH).
    unfold sbind at 1. rewrite sbind_get.
    assert (make_task request round_num s m
            = (prompt <- build_prompt request round_num s m ;;
               Ok {| task_model := m; task_messages := prompt.2;
                     task_system := prompt.1 |})%result) as -> by done.
    destruct (build_prompt request round_num s m) as [[system messages]|e];
      cbn [rbind]; [|by rewrite sbind_lift_Raise].
    rewrite sbind_lift_Ok. unfold sret. cbn [app fst snd].
    destruct (rmapM (make_task request round_num s) l) as [ts|e]; cbn [rbind]; [|done].
    by rewrite <- app_assoc.
Qed.

Lemma emission_loop round_num trs s :
  for_each trs (fun '(t, response) =>
      let model_id := task_model t in
      all_responses <- get_state ;;
      all_responses <- lift (append_response model_id response all_responses) ;;
      put_state all_responses ;;
      cfg_name <- lift (MODELS_getitem model_id) ;;
      cfg_color <- lift (MODELS_getitem model_id) ;;
      yield (RoundEvent round_num model_id (name cfg_name) (color cfg_color)
               response (1 <? round_num)))%stream s
  = emit round_num trs s.
Proof.
  unfold for_each. revert s.
  induction trs as [|[t v] trs IH]; intros s; cbn [for_fold emit]; [done|].
  rewrite sbind_ext with (k2 := fun _ s' => emit round_num trs s')
    by (intros [] ?; apply IH).
  unfold sbind at 1. cbv zeta. rewrite sbind_get.
  destruct (append_response (task_model t) v s) as [s'|e];
    [|by rewrite sbind_lift_Raise].
  rewrite sbind_lift_Ok, sbind_put.
  destruct (MODELS_getitem (task_model t)) as [cfg|e];
    [|by rewrite sbind_lift_Raise].
  rewrite !sbind_lift_Ok. unfold yield. cbn [app].
  by destruct (emit round_num trs s') as [[log s''] r].
Qed.

Lemma run_tasks_return request client round_num tasks :
  Forall returns (imap (run_task request client round_num) tasks).
Proof.
  apply Forall_forall. intros c Hc.
  apply elem_of_lookup_imap_1 in Hc as (i & t & -> & _).
  apply call_model_total.
Qed.

Lemma debate_round_run request client round_num s :
  debate_round request client round_num s = round_run request client round_num s.
Proof.
  unfold debate_round, round_run, build_tasks.
  unfold sbind at 1. rewrite tasks_loop.
  destruct (rmapM (make_task request round_num s) (models request)) as [tasks|e];
    cbn [rbind app]; [|done].
  unfold sbind at 1, lift at 1.
  rewrite gather_returns by apply run_tasks_return.
  cbn [app]. rewrite emission_loop.
  assert (map value_of (imap (run_task request client round_num) tasks)
          = round_results request client round_num tasks) as ->.
  { unfold round_results. change (map value_of ?l) with (value_of <$> l).
    by rewrite fmap_imap. }
  by destruct (emit _ _ _) as [[log s'] r].
Qed.


(** ** Loops that may raise *)

Lemma rmapM_Ok_Forall2 {A B} (f : A -> result B) l ys :
  rmapM f l = Ok ys <-> Forall2 (fun x y => f x = Ok y) l ys.
Proof.
  revert ys. induction l as [|x l IH]; intros ys; cbn [rmapM].
  - split; [intros [= <-]; constructor|by inversion 1].
  - destruct (f x) as [y|e] eqn:Hx; cbn [rbind].
    + destruct (rmapM f l) as [ys'|e] eqn:Hl; cbn [rbind].
      * split.
        -- intros [= <-]. constructor; [done|]. by apply IH.
        -- inversion 1 as [|? y' ? ys'' Hy Hys]; subst.
           apply IH in Hys. congruence.
      * split; [done|]. inversion 1 as [|? y' ? ys'' Hy Hys]; subst.
        by apply IH in Hys.
    + split; [done|]. inversion 1; congruence.
Qed.

Lemma rmapM_returns {A B} (f : A -> result B) l :
  Forall (fun x => exists y, f x = Ok y) l -> exists ys, rmapM f l = Ok ys.
Proof.
  induction 1 as [|x l [y Hy] _ [ys IH]]; cbn [rmapM]; [eauto|].
  rewrite Hy, IH. cbn [rbind]. eauto.
Qed.

(** ** The events of one round *)

Lemma task_models_built request round_num s tasks :
  build_tasks request round_num s = Ok tasks ->
  map task_model tasks = models request.
Proof.
  unfold build_tasks. rewrite rmapM_Ok_Forall2.
  induction 1 as [|m t l ts Hm _ IH]; [done|].
  cbn [map]. f_equal; [|done].
  unfold make_task in Hm.
  destruct (build_prompt request round_num s m); cbn [rbind] in Hm; [|done].
  by injection Hm as <-.
Qed.

Lemma length_round_results request client round_num tasks :
  length (round_results request client round_num tasks) = length tasks.
Proof. unfold round_results. apply length_imap. Qed.

Lemma emit_keys round_num trs s :
  Forall is_round (map fst (emit round_num trs s).1.1)
  /\ round_keys (map fst (emit round_num trs s).1.1)
       `prefix_of` map (fun tr => (round_num, task_model tr.1)) trs
  /\ ((emit round_num trs s).2 = Ok tt ->
      round_keys (map fst (emit round_num trs s).1.1)
      = map (fun tr => (round_num, task_model tr.1)) trs).
Proof.
  revert s. induction trs as [|[t v] trs IH]; intros s; cbn [emit].
  - split; [constructor|]. split; [done|done].
  - destruct (append_response (task_model t) v s) as [s'|e].
    2:{ split; [constructor|]. split; [apply prefix_nil|done]. }
    destruct (MODELS_getitem (task_model t)) as [cfg|e].
    2:{ split; [constructor|]. split; [apply prefix_nil|done]. }
    destruct (IH s') as (Hr & Hp & Heq).
    destruct (emit round_num trs s') as [[log s''] r].
    cbn [fst snd map] in *. split; [|split].
    + constructor; [by eexists|done].
    + unfold round_keys. cbn [omap list_omap round_key].
      by apply (prefix_cons (round_num, task_model t)).
    + intros Hok. unfold round_keys. cbn [omap list_omap round_key].
      f_equal. by apply Heq.
Qed.

Lemma zip_task_keys (round_num : Z) (tasks : list task) (results : list json) :
  length results = length tasks ->
  map (fun tr : task * json => (round_num, task_model tr.1)) (zip tasks results)
  = map (pair round_num) (map task_model tasks).
Proof.
  revert results. induction tasks as [|t tasks IH]; intros [|v results] Hl;
    simplify_eq/=; [done|].
  f_equal. by apply IH.
Qed.

Lemma round_run_keys request client round_num s :
  Forall is_round (map fst (round_run request client round_num s).1.1)
  /\ round_keys (map fst (round_run request client round_num s).1.1)
       `prefix_of` map (pair round_num) (models request)
  /\ ((round_run request client round_num s).2 = Ok tt ->
      round_keys (map fst (round_run request client round_num s).1.1)
      = map (pair round_num) (models request)).
Proof.
  unfold round_run.
  destruct (build_tasks request round_num s) as [tasks|e] eqn:Ht.
  - rewrite <- (task_models_built _ _ _ _ Ht).
    rewrite <- (zip_task_keys round_num tasks
                  (round_results request client round_num tasks))
      by apply length_round_results.
    apply emit_keys.
  - split; [constructor|]. split; [apply prefix_nil|done].
Qed.

Lemma round_keys_app evs evs' :
  round_keys (evs ++ evs') = round_keys evs ++ round_keys evs'.
Proof. apply omap_app. Qed.

Lemma rounds_loop_keys request client ks s :
  let run := for_each ks (debate_round request client) s in
  Forall is_round (map fst run.1.1)
  /\ round_keys (map fst run.1.1) `prefix_of` schedule_of (models request) ks
  /\ (run.2 = Ok tt ->
      round_keys (map fst run.1.1) = schedule_of (models request) ks).
Proof.
  cbv zeta. unfold for_each. revert s.
  induction ks as [|k ks IH]; intros s; cbn [for_fold schedule_of flat_map].
  - split; [constructor|]. split; done.
  - unfold sbind. rewrite debate_round_run.
    destruct (round_run_keys request client k s) as (Hr & Hp & Heq).
    destruct (round_run request client k s) as [[log s'] [[]|e]];
      cbn [fst snd] in *.
    + destruct (IH s') as (Hr' & Hp' & Heq').
      destruct (for_fold ks () _ s') as [[log' s''] r']. cbn [fst snd] in *.
      rewrite map_app, round_keys_app, Heq by done.
      split; [by apply Forall_app|]. split; [by apply prefix_app|].
      intros Hok. f_equal. by apply Heq'.
    + split; [done|]. split; [by apply prefix_app_r|done].
Qed.

(** ** Rounds of known participants *)

Lemma MODELS_getitem_known m :
  known m = true -> exists cfg, MODELS_getitem m = Ok cfg.
Proof.
  unfold known, MODELS_getitem. destruct (assoc m MODELS); [eauto|done].
Qed.

Lemma MODELS_getitem_unknown m :
  known m = false -> MODELS_getitem m = Raise (KeyError (JStr m)).
Proof.
  unfold known, MODELS_getitem. by destruct (assoc m MODELS).
Qed.

Lemma dict_getitem_present {V} (d : list (string * V)) m :
  m ∈ keys d -> exists v, dict_getitem d m = Ok v /\ assoc m d = Some v.
Proof.
  intros Hin. destruct (elem_of_keys_assoc m d Hin) as [v Hv].
  exists v. unfold dict_getitem. by rewrite Hv.
Qed.

Lemma getitem_last_nonempty hist :
  hist <> [] -> exists v, getitem_last hist = Ok v /\ last hist = Some v.
Proof.
  intros Hne. unfold getitem_last.
  destruct (last hist) as [v|] eqn:Hl; [eauto|].
  by apply last_None in Hl.
Qed.

Lemma collect_others_returns s model_id others acc :
  ready s others -> exists l, collect_others s model_id others acc = Ok l.
Proof.
  intros Hr. revert acc.
  induction Hr as [|m others [Hk Hin] _ IH]; intros acc; cbn [collect_others]; [eauto|].
  destruct (negb (String.eqb m model_id)); [|apply IH].
  destruct (dict_getitem_present s m Hin) as (hist & -> & _). cbn [rbind].
  destruct hist as [|v0 hist]; [apply IH|].
  destruct (MODELS_getitem_known m Hk) as [cfg ->]. cbn [rbind].
  destruct (getitem_last_nonempty (v0 :: hist)) as (v & -> & _); [done|].
  cbn [rbind]. apply IH.
Qed.

Lemma build_prompt_round1 request s model_id :
  build_prompt request 1 s model_id
  = Ok (system_round1, [{| role := "user"; content := content_round1 request |}]).
Proof. reflexivity. Qed.

Lemma build_prompt_returns request round_num s model_id :
  ready s (models request) -> model_id ∈ keys s ->
  exists p, build_prompt request round_num s model_id = Ok p.
Proof.
  intros Hr Hin. unfold build_prompt.
  destruct (round_num =? 1); [eauto|].
  destruct (collect_others_returns s model_id (models request) [] Hr) as [l ->].
  cbn [rbind].
  destruct (dict_getitem_present s model_id Hin) as (hist & -> & _). cbn [rbind].
  destruct hist as [|v0 hist]; cbn [rbind]; [eauto|].
  destruct (getitem_last_nonempty (v0 :: hist)) as (v & -> & _); [done|].
  cbn [rbind]. eauto.
Qed.

Lemma build_tasks_returns request round_num s :
  ready s (models request) -> exists tasks, build_tasks request round_num s = Ok tasks.
Proof.
  intros Hr. unfold build_tasks. apply rmapM_returns.
  apply Forall_forall. intros m Hm. unfold make_task.
  destruct (build_prompt_returns request round_num s m Hr) as [p ->].
  - by apply (proj1 (Forall_forall _ _) Hr m Hm).
  - cbn [rbind]. eauto.
Qed.

Lemma build_tasks_round1 request s :
  exists tasks, build_tasks request 1 s = Ok tasks.
Proof.
  unfold build_tasks. apply rmapM_returns, Forall_forall. intros m _.
  unfold make_task. rewrite build_prompt_round1. cbn [rbind]. eauto.
Qed.

Lemma append_response_present model_id response s :
  model_id ∈ keys s ->
  exists hist,
    assoc model_id s = Some hist
    /\ append_response model_id response s
       = Ok (dict_set model_id (hist ++ [response]) s).
Proof.
  intros Hin. unfold append_response.
  destruct (dict_getitem_present s model_id Hin) as (hist & -> & Ha). eauto.
Qed.

Lemma emit_returns round_num trs s :
  ready s (map (fun tr => task_model tr.1) trs) ->
  (emit round_num trs s).2 = Ok tt
  /\ keys (emit round_num trs s).1.2 = keys s.
Proof.
  revert s. induction trs as [|[t v] trs IH]; intros s Hr; cbn [emit]; [done|].
  cbn [map fst] in Hr. apply Forall_cons in Hr as [[Hk Hin] Hr].
  destruct (append_response_present (task_model t) v s Hin) as (hist & Hh & ->).
  destruct (MODELS_getitem_known _ Hk) as [cfg ->].
  set (s' := dict_set (task_model t) (hist ++ [v]) s).
  assert (keys s' = keys s) as Hkeys by (by apply keys_dict_set_present).
  destruct (IH s') as [Hok Hks].
  { eapply Forall_impl; [exact Hr|]. intros m [? ?]. by rewrite Hkeys. }
  destruct (emit round_num trs s') as [[log s''] r]. cbn [fst snd] in *.
  split; [done|congruence].
Qed.

Lemma round_run_returns request client round_num s :
  ready s (models request) ->
  (round_run request client round_num s).2 = Ok tt
  /\ keys (round_run request client round_num s).1.2 = keys s.
Proof.
  intros Hr. unfold round_run.
  destruct (build_tasks_returns request round_num s Hr) as [tasks Ht]. rewrite Ht.
  apply emit_returns.
  change (fun tr : task * json => task_model tr.1)
    with (fun tr : task * json => snd (round_num, task_model tr.1)).
  rewrite <- (map_map (fun tr : task * json => (round_num, task_model tr.1)) snd).
  rewrite zip_task_keys by apply length_round_results.
  rewrite (task_models_built _ _ _ _ Ht), map_map. cbn [snd].
  by rewrite map_id.
Qed.

Lemma rounds_loop_returns request client ks s :
  ready s (models request) ->
  (for_each ks (debate_round request client) s).2 = Ok tt
  /\ keys (for_each ks (debate_round request client) s).1.2 = keys s.
Proof.
  unfold for_each. revert s.
  induction ks as [|k ks IH]; intros s Hr; cbn [for_fold]; [done|].
  unfold sbind. rewrite debate_round_run.
  destruct (round_run_returns request client k s Hr) as [Hok Hkeys].
  destruct (round_run request client k s) as [[log s'] [[]|e]]; cbn [fst snd] in *;
    [|done].
  destruct (IH s') as [Hok' Hkeys'].
  { eapply Forall_impl; [exact Hr|]. intros m [? ?]. by rewrite Hkeys. }
  destruct (for_fold ks () _ s') as [[log' s''] r']. cbn [fst snd] in *.
  split; [done|congruence].
Qed.

Lemma init_state_ready (l : list string) :
  forallb known l = true -> ready (init_state l []) l.
Proof.
  intros Hk. apply Forall_forall. intros m Hm. split.
  - rewrite forallb_forall in Hk. apply Hk. by apply list_elem_of_In.
  - apply init_state_keys. by right.
Qed.

(** ** The end of the stream *)

Lemma conclude_no_round_event request client s :
  round_keys (map fst (conclude request client s).1.1) = [].
Proof.
  unfold conclude. rewrite sbind_get.
  destruct (rmapM _ s) as [final_responses|e]; [|done].
  rewrite sbind_lift_Ok.
  destruct (analyze_consensus final_responses) as [consensus|e]; [|done].
  rewrite sbind_lift_Ok.
  destruct (models request) as [|m l]; [done|].
  rewrite sbind_lift_Ok.
  destruct (summary_lines final_responses (summary_header request)) as [prompt|e];
    [|done].
  rewrite sbind_lift_Ok.
  destruct (call_model _ m _ _ _) as [summary|e]; [|done].
  by rewrite sbind_lift_Ok.
Qed.

Lemma debate_unfold request client :
  debate request client
  = (let '(log, s, r) :=
       for_each (range 1 (rounds request + 1)) (debate_round request client)
         (init_state (models request) []) in
     match r with
     | Ok _ =>
         let '(log', s', r') := conclude request client s in (log ++ log', s', r')
     | Raise e => (log, s, Raise e)
     end).
Proof.
  unfold debate, run_debate_stream.
  erewrite sbind_Ok by apply init_histories_run.
  unfold sbind at 1.
  destruct (for_each _ _ _) as [[log s] [[]|e]]; cbn [app]; [|done].
  by destruct (conclude request client s) as [[log' s'] r'].
Qed.


(** ** A participant outside the catalog *)

Lemma call_model_unknown post model_id api_keys messages system :
  known model_id = false ->
  call_model post model_id api_keys messages system
  = Ok (JStr ("Unknown model: " +:+ model_id)).
Proof.
  unfold known, call_model, MODELS. cbn [assoc].
  destruct (String.eqb model_id "claude"); [done|].
  destruct (String.eqb model_id "gpt"); [done|].
  by destruct (String.eqb model_id "gemini").
Qed.

Lemma emit_unknown round_num trs s :
  Forall (fun m => m ∈ keys s) (map (fun tr => task_model tr.1) trs) ->
  Exists (fun m => known m = false) (map (fun tr => task_model tr.1) trs) ->
  exists m,
    known m = false /\ m ∈ map (fun tr => task_model tr.1) trs
    /\ (emit round_num trs s).2 = Raise (KeyError (JStr m)).
Proof.
  revert s. induction trs as [|[t v] trs IH]; intros s Hin Hex; cbn [map fst] in *.
  - by apply Exists_nil in Hex.
  - apply Forall_cons in Hin as [Hin Hrest]. cbn [emit].
    destruct (append_response_present (task_model t) v s Hin) as (hist & Hh & ->).
    destruct (known (task_model t)) eqn:Hk.
    + destruct (MODELS_getitem_known _ Hk) as [cfg ->].
      apply Exists_cons in Hex as [Hex|Hex]; [congruence|].
      set (s' := dict_set (task_model t) (hist ++ [v]) s).
      destruct (IH s') as (m & Hm & Hmin & Hraise); [|done|].
      { eapply Forall_impl; [exact Hrest|]. intros m ?. subst s'.
        by rewrite keys_dict_set_present. }
      exists m. split; [done|]. split; [by apply list_elem_of_further|].
      by destruct (emit round_num trs s') as [[log s''] r].
    + rewrite (MODELS_getitem_unknown _ Hk).
      exists (task_model t). split; [done|]. split; [apply list_elem_of_here|done].
Qed.

Lemma emit_known round_num trs s :
  Forall (fun e => exists m, round_key e = Some (round_num, m) /\ known m = true)
         (map fst (emit round_num trs s).1.1).
Proof.
  revert s. induction trs as [|[t v] trs IH]; intros s; cbn [emit]; [constructor|].
  destruct (append_response (task_model t) v s) as [s'|e]; [|constructor].
  destruct (MODELS_getitem (task_model t)) as [cfg|e] eqn:Hc; [|constructor].
  specialize (IH s'). destruct (emit round_num trs s') as [[log s''] r].
  cbn [fst snd map] in *. constructor; [|done].
  exists (task_model t). split; [done|].
  unfold known. unfold MODELS_getitem in Hc. by destruct (assoc (task_model t) MODELS).
Qed.

Lemma task_models_zip (round_num : Z) (tasks : list task) (results : list json) :
  length results = length tasks ->
  map (fun tr : task * json => task_model tr.1) (zip tasks results)
  = map task_model tasks.
Proof.
  revert results. induction tasks as [|t tasks IH]; intros [|v results] Hl;
    simplify_eq/=; [done|].
  f_equal. by apply IH.
Qed.

(** With a participant outside the catalog the first round ends in the
    KeyError of [MODELS[model_id]], after the round events of the
    participants listed before it. *)
Lemma first_round_unknown request client s :
  Forall (fun m => m ∈ keys s) (models request) ->
  Exists (fun m => known m = false) (models request) ->
  exists m,
    known m = false /\ m ∈ models request
    /\ (round_run request client 1 s).2 = Raise (KeyError (JStr m))
    /\ Forall (fun e => exists m', round_key e = Some (1, m') /\ known m' = true)
              (map fst (round_run request client 1 s).1.1).
Proof.
  intros Hin Hex. unfold round_run.
  destruct (build_tasks_round1 request s) as [tasks Ht]. rewrite Ht.
  pose proof (task_models_built _ _ _ _ Ht) as Hm.
  pose proof (task_models_zip 1 tasks (round_results request client 1 tasks)
                (length_round_results _ _ _ _)) as Hz.
  destruct (emit_unknown 1 (zip tasks (round_results request client 1 tasks)) s)
    as (m & Hk & Hmin & Hraise).
  - by rewrite Hz, Hm.
  - by rewrite Hz, Hm.
  - exists m. rewrite Hz, Hm in Hmin. repeat split; try done. apply emit_known.
Qed.

Lemma init_state_covers (l : list string) s :
  Forall (fun m => m ∈ keys (init_state l s)) l.
Proof. apply Forall_forall. intros m Hm. apply init_state_keys. by right. Qed.

Lemma debate_unknown request client :
  1 <= rounds request ->
  Exists (fun m => known m = false) (models request) ->
  exists m,
    known m = false /\ m ∈ models request
    /\ raised_of (debate request client) = Some (KeyError (JStr m))
    /\ Forall (fun e => exists m', round_key e = Some (1, m') /\ known m' = true)
              (events_of (debate request client)).
Proof.
  intros Hr Hex. unfold raised_of, events_of. rewrite debate_unfold.
  unfold range. rewrite seqZ_cons by lia. unfold for_each. cbn [for_fold].
  unfold sbind. rewrite debate_round_run.
  destruct (first_round_unknown request client (init_state (models request) [])
              (init_state_covers _ _) Hex) as (m & Hk & Hin & Hraise & Hev).
  exists m.
  destruct (round_run request client 1 _) as [[log s] r]. cbn [fst snd] in *.
  subst r. cbn [fst snd]. done.
Qed.

(** C4, the code against the claim: the router answers an id outside
    the catalog with the text [Unknown model: <id>], but the stream of a
    request that lists such an id (with at least one round) ends in the
    KeyError of [MODELS[model_id]] raised while the first round event of
    that participant is built; what it emitted before are round-1 events
    of catalog participants, so no event carries the text and neither the
    consensus event nor the terminal marker is emitted. *)
Theorem unknown_participant_aborts_the_stream :
  forall request client,
    1 <= rounds request ->
    Exists (fun m => known m = false) (models request) ->
    (forall post m messages system,
        known m = false ->
        call_model post m (api_keys request) messages system
        = Ok (JStr ("Unknown model: " +:+ m)))
    /\ exists m,
         known m = false /\ m ∈ models request
         /\ raised_of (debate request client) = Some (KeyError (JStr m))
         /\ Forall (fun e => exists m', round_key e = Some (1, m') /\ known m' = true)
                   (events_of (debate request client)).
Proof.
  intros request client Hr Hex. split.
  - intros. by apply call_model_unknown.
  - by apply debate_unknown.
Qed.

(** ** The prompts *)

Lemma append_assoc (a b c : string) : (a +:+ b) +:+ c = a +:+ (b +:+ c).
Proof.
  induction a as [|x a IH]; [done|].
  change (String x ((a +:+ b) +:+ c) = String x (a +:+ (b +:+ c))). by rewrite IH.
Qed.

Lemma append_empty_r (t : string) : t +:+ "" = t.
Proof.
  induction t as [|x t IH]; [done|].
  change (String x (t +:+ "") = String x t). by rewrite IH.
Qed.

Lemma contains_here t after : contains (t +:+ after) t.
Proof. exists "", after. done. Qed.

Lemma contains_later a s t : contains s t -> contains (a +:+ s) t.
Proof.
  intros (before & after & ->). exists (a +:+ before), after.
  by rewrite append_assoc.
Qed.

Lemma contains_all t : contains t t.
Proof. exists "", "". change (t = t +:+ ""). by rewrite append_empty_r. Qed.

Lemma contains_earlier s t b : contains s t -> contains (s +:+ b) t.
Proof.
  intros (before & after & ->). exists before, (after +:+ b).
  by rewrite !append_assoc.
Qed.

Lemma join_lines_contains l x : x ∈ l -> contains (join_lines l) x.
Proof.
  induction l as [|y l IH]; intros Hin; [by apply elem_of_nil in Hin|].
  apply elem_of_cons in Hin as [->|Hin].
  - destruct l as [|z l]; [apply contains_all|]. apply contains_here.
  - destruct l as [|z l]; [by apply elem_of_nil in Hin|].
    change (join_lines (y :: z :: l)) with (y +:+ String "010" (join_lines (z :: l))).
    apply contains_later.
    change (String "010" (join_lines (z :: l))) with (nl +:+ join_lines (z :: l)).
    apply contains_later. by apply IH.
Qed.

Lemma last_nonempty {A} (x : A) l : exists v, last (x :: l) = Some v.
Proof.
  destruct (last (x :: l)) eqn:E; [eauto|]. by apply last_None in E.
Qed.

Lemma collect_others_lists s model_id others acc l :
  collect_others s model_id others acc = Ok l ->
  (forall x, x ∈ acc -> x ∈ l)
  /\ forall other hist v,
       other ∈ others -> other <> model_id ->
       assoc other s = Some hist -> last hist = Some v ->
       exists cfg, assoc other MODELS = Some cfg
                   /\ ("**" +:+ name cfg +:+ "**: " +:+ py_str v) ∈ l.
Proof.
  revert acc. induction others as [|o others IH]; intros acc; cbn [collect_others].
  - intros [= <-]. split; [done|]. intros ? ? ? Hin. by apply elem_of_nil in Hin.
  - destruct (String.eqb o model_id) eqn:Heq; cbn [negb].
    + apply String.eqb_eq in Heq as ->. intros Hc.
      destruct (IH _ Hc) as [Hacc Hall]. split; [done|].
      intros other hist v Hin Hne. apply elem_of_cons in Hin as [->|Hin]; [done|].
      by apply Hall.
    + apply String.eqb_neq in Heq. unfold dict_getitem.
      destruct (assoc o s) as [hist|] eqn:Ho; cbn [rbind]; [|done].
      destruct hist as [|v0 hist].
      * intros Hc. destruct (IH _ Hc) as [Hacc Hall]. split; [done|].
        intros other hist' v Hin Hne Ha Hl.
        apply elem_of_cons in Hin as [->|Hin]; [|by eapply Hall].
        rewrite Ho in Ha. by injection Ha as <-.
      * unfold MODELS_getitem.
        destruct (assoc o MODELS) as [cfg|] eqn:Hcfg; cbn [rbind]; [|done].
        unfold getitem_last.
        destruct (last_nonempty v0 hist) as [v Hv]. rewrite Hv. cbn [rbind].
        intros Hc. destruct (IH _ Hc) as [Hacc Hall]. split.
        -- intros x Hx. apply Hacc, elem_of_app. by left.
        -- intros other hist' v' Hin Hne Ha Hl.
           apply elem_of_cons in Hin as [->|Hin]; [|by eapply Hall].
           rewrite Ho in Ha. injection Ha as <-. rewrite Hv in Hl. injection Hl as <-.
           exists cfg. split; [done|].
           apply Hacc, elem_of_app. right. apply list_elem_of_here.
Qed.

(** C7: the user turn of round 1 is the context and the question in a
    fixed frame, the same whatever the histories hold; the user turn of a
    later round, built for a participant, holds the text of that
    participant's own last response (the placeholder N/A on an empty
    history) and, for every other participant with a response, the text
    of its last response after its display name. *)
Theorem prompts_quote_the_previous_round :
  forall request,
    (forall s model_id,
        build_prompt request 1 s model_id
        = Ok (system_round1,
              [{| role := "user";
                  content := "Context: " +:+ context request +:+ nl +:+ nl
                             +:+ "Question: " +:+ question request +:+ nl +:+ nl
                             +:+ "Please provide your analysis and answer." |}]))
    /\ (forall round_num s model_id,
          1 < round_num -> ready s (models request) -> model_id ∈ keys s ->
          exists text,
            build_prompt request round_num s model_id
            = Ok (system_revision, [{| role := "user"; content := text |}])
            /\ (forall hist, assoc model_id s = Some hist ->
                  contains text (quoted hist))
            /\ (forall other hist v,
                  other ∈ models request -> other <> model_id ->
                  assoc other s = Some hist -> last hist = Some v ->
                  exists cfg,
                    assoc other MODELS = Some cfg
                    /\ contains text ("**" +:+ name cfg +:+ "**: " +:+ py_str v))).
Proof.
  intros request. split; [reflexivity|].
  intros round_num s model_id Hk Hr Hin. unfold build_prompt.
  assert ((round_num =? 1) = false) as -> by (apply Z.eqb_neq; lia).
  destruct (collect_others_returns s model_id (models request) [] Hr) as [l Hl].
  rewrite Hl. cbn [rbind].
  destruct (dict_getitem_present s model_id Hin) as (hist & -> & Ha). cbn [rbind].
  assert (exists previous,
            match hist with
            | [] => Ok "N/A"
            | _ :: _ => (v <- getitem_last hist ;; Ok (py_str v))%result
            end = Ok previous /\ previous = quoted hist) as (previous & -> & Hq).
  { unfold quoted, getitem_last. destruct hist as [|v0 hist]; [eauto|].
    destruct (last_nonempty v0 hist) as [v ->]. cbn [rbind]. eauto. }
  cbn [rbind]. eexists. split; [reflexivity|]. split.
  - intros hist' Ha'. rewrite Ha in Ha'. injection Ha' as <-. rewrite <- Hq.
    unfold content_revision.
    do 5 apply contains_later. apply contains_here.
  - intros other hist' v Ho Hne Ha' Hv.
    destruct (collect_others_lists _ _ _ _ _ Hl) as [_ Hall].
    destruct (Hall other hist' v Ho Hne Ha' Hv) as (cfg & Hcfg & Hmem).
    exists cfg. split; [done|].
    unfold content_revision. do 7 apply contains_later.
    apply contains_earlier. by apply join_lines_contains.
Qed.

(** ** Two runs *)

Lemma round_run_same request c1 c2 round_num s :
  same_returns request c1 c2 ->
  round_run request c1 round_num s = round_run request c2 round_num s.
Proof.
  intros Hsame. unfold round_run.
  destruct (build_tasks request round_num s) as [tasks|e]; [|done].
  assert (round_results request c1 round_num tasks
          = round_results request c2 round_num tasks) as ->; [|done].
  unfold round_results. apply imap_ext. intros i t _.
  unfold run_task. by rewrite Hsame.
Qed.

Lemma conclude_same request c1 c2 s :
  same_returns request c1 c2 -> conclude request c1 s = conclude request c2 s.
Proof.
  intros Hsame. unfold conclude.
  apply sbind_ext. intros all_responses s1.
  apply sbind_ext. intros final_responses s2.
  apply sbind_ext. intros consensus s3.
  apply sbind_ext. intros summary_model s4.
  apply sbind_ext. intros summary_prompt s5.
  by rewrite Hsame.
Qed.

Lemma debate_same request c1 c2 :
  same_returns request c1 c2 -> debate request c1 = debate request c2.
Proof.
  intros Hsame. unfold debate, run_debate_stream.
  apply sbind_ext. intros [] s.
  apply sbind_ext_both.
  - unfold for_each. apply for_fold_ext.
    intros [] k s'. rewrite !debate_round_run. by apply round_run_same.
  - intros [] s'. by apply conclude_same.
Qed.

(** ** The histories *)

Lemma assoc_truncate j s m : assoc m (truncate j s) = take j <$> assoc m s.
Proof.
  induction s as [|[k h] s IH]; cbn [truncate map assoc fst snd]; [done|].
  destruct (String.eqb m k); [done|]. apply IH.
Qed.

Lemma assoc_None_keys {V} m (d : list (string * V)) : m ∉ keys d -> assoc m d = None.
Proof.
  intros Hn. destruct (assoc m d) eqn:E; [|done].
  destruct Hn. by eapply assoc_Some_elem_of.
Qed.

Lemma assoc_Some_pair {V} k (v : V) d : assoc k d = Some v -> (k, v) ∈ d.
Proof.
  induction d as [|[k' v'] d IH]; cbn [assoc]; [done|].
  destruct (String.eqb k k') eqn:E.
  - apply String.eqb_eq in E as ->. intros [= ->]. apply list_elem_of_here.
  - intros H. by apply list_elem_of_further, IH.
Qed.

Lemma collect_others_same s1 s2 model_id others acc :
  (forall m, assoc m s1 = assoc m s2) ->
  collect_others s1 model_id others acc = collect_others s2 model_id others acc.
Proof.
  intros Hs. revert acc. induction others as [|o others IH]; intros acc;
    cbn [collect_others]; [done|].
  destruct (negb (String.eqb o model_id)); [|apply IH].
  unfold dict_getitem. rewrite Hs.
  destruct (assoc o s2) as [[|v0 hist]|]; cbn [rbind]; [apply IH| |done].
  destruct (MODELS_getitem o); cbn [rbind]; [|done].
  destruct (getitem_last (v0 :: hist)); cbn [rbind]; [apply IH|done].
Qed.

Lemma build_prompt_same request round_num s1 s2 model_id :
  (forall m, assoc m s1 = assoc m s2) ->
  build_prompt request round_num s1 model_id
  = build_prompt request round_num s2 model_id.
Proof.
  intros Hs. unfold build_prompt. destruct (round_num =? 1); [done|].
  rewrite (collect_others_same s1 s2) by done.
  unfold dict_getitem. by rewrite Hs.
Qed.

Lemma adapter_return_same request client round_num s1 s2 i m :
  (forall m, assoc m s1 = assoc m s2) ->
  adapter_return request client round_num s1 i m
  = adapter_return request client round_num s2 i m.
Proof.
  intros Hs. unfold adapter_return, make_task.
  by rewrite (build_prompt_same request round_num s1 s2).
Qed.

Lemma keys_init_state (l : list string) s :
  NoDup l -> (forall m, m ∈ l -> m ∉ keys s) ->
  keys (init_state l s) = keys s ++ l.
Proof.
  unfold init_state. revert s.
  induction l as [|m l IH]; intros s Hnd Hfresh; cbn [foldl].
  - by rewrite app_nil_r.
  - apply NoDup_cons in Hnd as [Hm Hnd].
    rewrite IH; [|done|].
    + rewrite keys_dict_set_absent by (apply Hfresh, list_elem_of_here).
      by rewrite <- app_assoc.
    + intros m' Hm'.
      rewrite keys_dict_set_absent by (apply Hfresh, list_elem_of_here).
      rewrite not_elem_of_app, list_elem_of_singleton.
      split; [by apply Hfresh, list_elem_of_further|]. by intros ->.
Qed.

Lemma init_state_lookup (l : list string) m :
  m ∈ l -> assoc m (init_state l []) = Some [].
Proof.
  intros Hm.
  destruct (elem_of_keys_assoc m (init_state l [])) as [h Hh].
  { apply init_state_keys. by right. }
  rewrite Hh. f_equal.
  pose proof (init_state_histories l [] (Forall_nil_2 _)) as Hall.
  apply assoc_Some_pair in Hh.
  by apply (proj1 (Forall_forall _ _) Hall (m, h) Hh).
Qed.

(** The histories after the recording loop, for distinct participants. *)
Lemma emit_state round_num trs s :
  NoDup (map (fun tr => task_model tr.1) trs) ->
  ready s (map (fun tr => task_model tr.1) trs) ->
  forall m,
    assoc m (emit round_num trs s).1.2
    = match assoc m (map (fun tr => (task_model tr.1, tr.2)) trs) with
      | Some v => (fun h => h ++ [v]) <$> assoc m s
      | None => assoc m s
      end.
Proof.
  revert s. induction trs as [|[t v] trs IH]; intros s Hnd Hr m;
    cbn [emit map fst snd assoc] in *; [done|].
  apply NoDup_cons in Hnd as [Ht Hnd]. apply Forall_cons in Hr as [[Hk Hin] Hr].
  destruct (append_response_present (task_model t) v s Hin) as (hist & Hh & ->).
  destruct (MODELS_getitem_known _ Hk) as [cfg ->].
  set (s' := dict_set (task_model t) (hist ++ [v]) s).
  assert (keys s' = keys s) as Hkeys by (by apply keys_dict_set_present).
  assert (ready s' (map (fun tr : task * json => task_model tr.1) trs)) as Hr'.
  { eapply Forall_impl; [exact Hr|]. intros m' [? ?]. by rewrite Hkeys. }
  specialize (IH s' Hnd Hr' m).
  destruct (emit round_num trs s') as [[log s''] r]. cbn [fst snd] in *.
  rewrite IH. destruct (String.eqb m (task_model t)) eqn:Heq.
  - apply String.eqb_eq in Heq as ->.
    rewrite assoc_None_keys.
    + subst s'. by rewrite assoc_dict_set_eq, Hh.
    + unfold keys. rewrite map_map. exact Ht.
  - apply String.eqb_neq in Heq. subst s'.
    rewrite assoc_dict_set_ne by congruence. done.
Qed.

Lemma assoc_zip {V} (l : list string) (vs : list V) i m :
  NoDup l -> l !! i = Some m -> assoc m (zip l vs) = vs !! i.
Proof.
  revert vs i. induction l as [|k l IH]; intros vs i Hnd Hi; [done|].
  apply NoDup_cons in Hnd as [Hk Hnd].
  destruct vs as [|v vs]; cbn [zip zip_with assoc].
  - by destruct i.
  - destruct i as [|i]; cbn in Hi.
    + injection Hi as ->. by rewrite String.eqb_refl.
    + assert (m <> k) as Hne.
      { intros ->. apply Hk. by eapply list_elem_of_lookup_2. }
      apply String.eqb_neq in Hne. rewrite Hne.
      change ((v :: vs) !! S i) with (vs !! i). by apply IH.
Qed.

Lemma task_pairs_zip (tasks : list task) (results : list json) :
  map (fun tr : task * json => (task_model tr.1, tr.2)) (zip tasks results)
  = zip (map task_model tasks) results.
Proof.
  revert results. induction tasks as [|t tasks IH]; intros [|v results]; cbn; try done.
  f_equal. apply IH.
Qed.

(** One round records, for every participant, what its call returned. *)
Lemma round_run_state request client round_num s :
  NoDup (models request) -> ready s (models request) ->
  forall i m,
    models request !! i = Some m ->
    exists h v,
      assoc m s = Some h
      /\ adapter_return request client round_num s i m = Ok v
      /\ assoc m (round_run request client round_num s).1.2 = Some (h ++ [v]).
Proof.
  intros Hnd Hr i m Hi. unfold round_run.
  destruct (build_tasks_returns request round_num s Hr) as [tasks Ht]. rewrite Ht.
  pose proof (task_models_built _ _ _ _ Ht) as Hm.
  set (results := round_results request client round_num tasks).
  assert (length results = length tasks) as Hlen by apply length_round_results.
  rewrite emit_state.
  2:{ by rewrite (task_models_zip round_num), Hm. }
  2:{ by rewrite (task_models_zip round_num), Hm. }
  rewrite task_pairs_zip, Hm, (assoc_zip _ _ i m Hnd Hi).
  assert (m ∈ keys s) as Hin.
  { apply (proj1 (Forall_forall _ _) Hr m). by eapply list_elem_of_lookup_2. }
  destruct (elem_of_keys_assoc m s Hin) as [h Hh].
  unfold build_tasks in Ht. apply rmapM_Ok_Forall2 in Ht.
  destruct (Forall2_lookup_l _ _ _ _ _ Ht Hi) as (t & Hti & Hmt).
  destruct (call_model_total (post_at client (RoundCall round_num i)) (task_model t)
              (api_keys request) (task_messages t) (Some (task_system t))) as [v Hv].
  exists h, v. split; [done|]. split.
  - unfold adapter_return. rewrite Hmt. cbn [rbind]. exact Hv.
  - subst results. unfold round_results. rewrite list_lookup_imap, Hti. cbn.
    unfold run_task. rewrite Hv, Hh. done.
Qed.

Lemma round_run_other_keys request client round_num s m :
  ready s (models request) -> m ∉ keys s ->
  assoc m (round_run request client round_num s).1.2 = None.
Proof.
  intros Hr Hm. apply assoc_None_keys.
  by rewrite (proj2 (round_run_returns request client round_num s Hr)).
Qed.

Lemma recorded_step request client j s :
  NoDup (models request) -> ready s (models request) ->
  keys s = models request ->
  recorded request client j s ->
  recorded request client (S j)
    (round_run request client (Z.of_nat j + 1) s).1.2.
Proof.
  intros Hnd Hr Hkeys Hrec.
  set (s' := (round_run request client (Z.of_nat j + 1) s).1.2).
  (* every history of [s'] is the one of [s] with one more response *)
  assert (forall m0, exists ext,
             assoc m0 s' = (fun h => h ++ ext) <$> assoc m0 s
             /\ (forall h, assoc m0 s = Some h -> length h = j)) as Hext.
  { intros m0. destruct (decide (m0 ∈ keys s)) as [Hin|Hout].
    - rewrite Hkeys in Hin. apply list_elem_of_lookup in Hin as [i0 Hi0].
      destruct (round_run_state request client (Z.of_nat j + 1) s Hnd Hr i0 m0 Hi0)
        as (h & v & Hh & _ & Hs').
      exists [v]. subst s'. rewrite Hs', Hh. split; [done|].
      intros h' [= <-]. destruct (Hrec i0 m0 Hi0) as (h'' & Hh'' & Hl & _).
      congruence.
    - exists []. subst s'. rewrite round_run_other_keys by done.
      rewrite assoc_None_keys by done. split; [done|]. done. }
  assert (forall j' m0, (j' <= j)%nat ->
             assoc m0 (truncate j' s') = assoc m0 (truncate j' s)) as Htr.
  { intros j' m0 Hj'. rewrite !assoc_truncate.
    destruct (Hext m0) as (ext & -> & Hl).
    destruct (assoc m0 s) as [h|]; [|done]. cbn.
    f_equal. rewrite take_app_le; [done|]. rewrite (Hl h) by done. lia. }
  assert (forall m0, assoc m0 (truncate j s) = assoc m0 s) as Hfull.
  { intros m0. rewrite assoc_truncate. destruct (Hext m0) as (ext & _ & Hl).
    destruct (assoc m0 s) as [h|]; [|done]. cbn.
    f_equal. apply take_ge. rewrite (Hl h) by done. lia. }
  intros i m Hi.
  destruct (round_run_state request client (Z.of_nat j + 1) s Hnd Hr i m Hi)
    as (h & v & Hh & Hv & Hs').
  destruct (Hrec i m Hi) as (h0 & Hh0 & Hlen & Hentries).
  assert (h0 = h) as -> by congruence.
  exists (h ++ [v]). split; [done|]. split; [rewrite length_app; simpl; lia|].
  intros j' v' Hj'.
  destruct (decide (j' < j)%nat) as [Hlt|Hge].
  - rewrite lookup_app_l in Hj' by lia.
    rewrite (adapter_return_same _ _ _ (truncate j' s') (truncate j' s))
      by (intros; apply Htr; lia).
    by apply Hentries.
  - assert (j' = j) as ->.
    { apply lookup_lt_Some in Hj'. rewrite length_app in Hj'. simpl in Hj'. lia. }
    rewrite lookup_app_r in Hj' by lia.
    rewrite Hlen, Nat.sub_diag in Hj'. injection Hj' as <-.
    rewrite (adapter_return_same _ _ _ (truncate j s') s); [done|].
    intros m0. by rewrite Htr, Hfull.
Qed.

Lemma rounds_recorded request client n j s :
  NoDup (models request) -> ready s (models request) ->
  keys s = models request ->
  recorded request client j s ->
  recorded request client (j + n)
    (for_each (seqZ (Z.of_nat j + 1) (Z.of_nat n)) (debate_round request client) s).1.2.
Proof.
  intros Hnd. revert j s. induction n as [|n IH]; intros j s Hr Hkeys Hrec.
  - rewrite seqZ_nil by lia. by rewrite Nat.add_0_r.
  - rewrite seqZ_cons by lia.
    replace (Z.succ (Z.of_nat j + 1)) with (Z.of_nat (S j) + 1) by lia.
    replace (Z.pred (Z.of_nat (S n))) with (Z.of_nat n) by lia.
    unfold for_each. cbn [for_fold]. unfold sbind. rewrite debate_round_run.
    destruct (round_run_returns request client (Z.of_nat j + 1) s Hr) as [Hok Hk'].
    pose proof (recorded_step request client j s Hnd Hr Hkeys Hrec) as Hstep.
    destruct (round_run request client (Z.of_nat j + 1) s) as [[log s'] [[]|e]];
      cbn [fst snd] in *; [|done].
    assert (ready s' (models request)) as Hr'.
    { eapply Forall_impl; [exact Hr|]. intros m [? ?]. by rewrite Hk'. }
    specialize (IH (S j) s' Hr' (eq_trans Hk' Hkeys) Hstep).
    unfold for_each in IH.
    destruct (for_fold _ () _ s') as [[log' s''] r']. cbn [fst snd] in *.
    by replace (j + S n)%nat with (S j + n)%nat by lia.
Qed.

Lemma conclude_state request client s :
  (conclude request client s).1.2 = s.
Proof.
  unfold conclude. rewrite sbind_get.
  destruct (rmapM _ s) as [final_responses|e]; [|done].
  rewrite sbind_lift_Ok.
  destruct (analyze_consensus final_responses) as [consensus|e]; [|done].
  rewrite sbind_lift_Ok.
  destruct (models request) as [|m l]; [done|].
  rewrite sbind_lift_Ok.
  destruct (summary_lines final_responses (summary_header request)) as [prompt|e];
    [|done].
  rewrite sbind_lift_Ok.
  destruct (call_model _ m _ _ _) as [summary|e]; [|done].
  by rewrite sbind_lift_Ok.
Qed.

Lemma forallb_known_or_not (l : list string) :
  forallb known l = true \/ Exists (fun m => known m = false) l.
Proof.
  induction l as [|m l [IH|IH]]; cbn [forallb].
  - by left.
  - destruct (known m) eqn:Hk; [by left|]. right. by apply Exists_cons_hd.
  - right. by apply Exists_cons_tl.
Qed.

(** A debate that completes had at least one round and only catalog
    participants. *)
Lemma completed_debate request client :
  raised_of (debate request client) = None -> models request <> [] ->
  1 <= rounds request /\ forallb known (models request) = true.
Proof.
  intros Hdone Hm.
  assert (1 <= rounds request) as Hr.
  { destruct (Z_lt_le_dec (rounds request) 1) as [Hlt|]; [|done].
    by rewrite (debate_no_rounds request client Hlt Hm) in Hdone. }
  split; [done|].
  destruct (forallb_known_or_not (models request)) as [|Hex]; [done|].
  destruct (debate_unknown request client Hr Hex) as (m & _ & _ & Hraise & _).
  congruence.
Qed.

Lemma final_state_after_rounds request client :
  forallb known (models request) = true ->
  final_state (debate request client)
  = (for_each (range 1 (rounds request + 1)) (debate_round request client)
       (init_state (models request) [])).1.2.
Proof.
  intros Hk. unfold final_state. rewrite debate_unfold.
  pose proof (rounds_loop_returns request client (range 1 (rounds request + 1))
                (init_state (models request) []) (init_state_ready _ Hk)) as [Hok _].
  destruct (for_each _ _ _) as [[log s] [[]|e]]; cbn [fst snd] in *; [|done].
  pose proof (conclude_state request client s) as Hc.
  by destruct (conclude request client s) as [[log' s'] r'].
Qed.

Lemma debate_recorded request client :
  NoDup (models request) -> forallb known (models request) = true ->
  0 <= rounds request ->
  recorded request client (Z.to_nat (rounds request))
    (final_state (debate request client)).
Proof.
  intros Hnd Hk Hr. rewrite final_state_after_rounds by done.
  unfold range. replace (rounds request + 1 - 1) with (Z.of_nat (Z.to_nat (rounds request)))
    by lia.
  apply (rounds_recorded request client (Z.to_nat (rounds request)) 0).
  - done.
  - by apply init_state_ready.
  - by rewrite keys_init_state by (done || intros ? ?; apply not_elem_of_nil).
  - intros i m Hi. exists []. split; [|split; [done|]].
    + apply init_state_lookup. by eapply list_elem_of_lookup_2.
    + intros j' v Hj'. done.
Qed.

(** ** Growth of the histories *)

Lemma extends_refl s : extends s s.
Proof. intros m h Hh. eauto. Qed.

Lemma extends_trans s1 s2 s3 : extends s1 s2 -> extends s2 s3 -> extends s1 s3.
Proof.
  intros H12 H23 m h Hh.
  destruct (H12 m h Hh) as (h2 & Hh2 & Hp2).
  destruct (H23 m h2 Hh2) as (h3 & Hh3 & Hp3).
  exists h3. split; [done|]. by etrans.
Qed.

Lemma extends_append s m h v :
  assoc m s = Some h -> extends s (dict_set m (h ++ [v]) s).
Proof.
  intros Hh m' h' Hh'. destruct (decide (m = m')) as [<-|Hne].
  - rewrite assoc_dict_set_eq. exists (h ++ [v]). split; [done|].
    assert (h' = h) as -> by congruence. by apply prefix_app_r.
  - rewrite assoc_dict_set_ne by done. eauto.
Qed.

Lemma ascending_from s s1 l : extends s s1 -> ascending s1 l -> ascending s l.
Proof.
  intros He Ha. destruct l as [|s2 l]; [done|]. destruct Ha as [H12 Ha].
  split; [by eapply extends_trans|done].
Qed.

Lemma ascending_app s l1 s1 l2 :
  ascending s (l1 ++ [s1]) -> ascending s1 l2 -> ascending s (l1 ++ l2).
Proof.
  revert s. induction l1 as [|s0 l1 IH]; intros s; cbn [app ascending].
  - intros [He _] Ha. by eapply ascending_from.
  - intros [He Ha1] Ha2. split; [done|]. by apply IH.
Qed.

Lemma ascending_lookup s l i j si sj :
  ascending s l -> (i <= j)%nat -> l !! i = Some si -> l !! j = Some sj ->
  extends s si /\ extends si sj.
Proof.
  revert s i j si sj.
  induction l as [|s1 l IH]; intros s i j si sj Ha Hij Hi Hj; [done|].
  destruct Ha as [He Ha]. destruct i as [|i].
  - injection Hi as <-. split; [done|]. destruct j as [|j].
    + injection Hj as <-. apply extends_refl.
    + by destruct (IH s1 j j sj sj Ha (le_n _) Hj Hj) as [? _].
  - destruct j as [|j]; [lia|].
    destruct (IH s1 i j si sj Ha ltac:(lia) Hi Hj) as [H1 H2].
    split; [by eapply extends_trans|done].
Qed.

Lemma emit_ascending round_num trs s :
  ascending s (snapshots (emit round_num trs s)).
Proof.
  unfold snapshots. revert s.
  induction trs as [|[t v] trs IH]; intros s; cbn [emit].
  - split; [apply extends_refl|done].
  - unfold append_response, dict_getitem.
    destruct (assoc (task_model t) s) as [hist|] eqn:Hh; cbn [rbind].
    2:{ split; [apply extends_refl|done]. }
    pose proof (extends_append s _ _ v Hh) as He.
    destruct (MODELS_getitem (task_model t)) as [cfg|e].
    2:{ split; [done|done]. }
    specialize (IH (dict_set (task_model t) (hist ++ [v]) s)).
    destruct (emit round_num trs _) as [[log s''] r]. cbn [fst snd map app] in *.
    split; done.
Qed.

Lemma round_run_ascending request client round_num s :
  ascending s (snapshots (round_run request client round_num s)).
Proof.
  unfold round_run. destruct (build_tasks request round_num s); [apply emit_ascending|].
  split; [apply extends_refl|done].
Qed.

Lemma rounds_loop_ascending request client ks s :
  ascending s (snapshots (for_each ks (debate_round request client) s)).
Proof.
  unfold for_each. revert s. induction ks as [|k ks IH]; intros s; cbn [for_fold].
  - split; [apply extends_refl|done].
  - unfold sbind. rewrite debate_round_run.
    pose proof (round_run_ascending request client k s) as Ha.
    destruct (round_run request client k s) as [[log s'] [[]|e]]; [|done].
    specialize (IH s'). destruct (for_fold ks () _ s') as [[log' s''] r'].
    unfold snapshots in *. cbn [fst snd] in *.
    rewrite map_app, <- app_assoc. by eapply ascending_app.
Qed.

Lemma conclude_ascending request client s :
  ascending s (snapshots (conclude request client s)).
Proof.
  pose proof (extends_refl s) as He.
  unfold conclude. rewrite sbind_get.
  destruct (rmapM _ s) as [final_responses|e]; [|by split].
  rewrite sbind_lift_Ok.
  destruct (analyze_consensus final_responses) as [consensus|e]; [|by split].
  rewrite sbind_lift_Ok.
  destruct (models request) as [|m l]; [by split|].
  rewrite sbind_lift_Ok.
  destruct (summary_lines final_responses (summary_header request)) as [prompt|e];
    [|by split].
  rewrite sbind_lift_Ok.
  destruct (call_model _ m _ _ _) as [summary|e]; [|by split].
  rewrite sbind_lift_Ok. by repeat split.
Qed.

Lemma debate_ascending request client :
  ascending (init_state (models request) []) (snapshots (debate request client)).
Proof.
  rewrite debate_unfold.
  pose proof (rounds_loop_ascending request client (range 1 (rounds request + 1))
                (init_state (models request) [])) as Ha.
  destruct (for_each _ _ _) as [[log s] [[]|e]]; [|done].
  pose proof (conclude_ascending request client s) as Hc.
  destruct (conclude request client s) as [[log' s'] r'].
  unfold snapshots in *. cbn [fst snd] in *.
  rewrite map_app, <- app_assoc. by eapply ascending_app.
Qed.

(** C5, as amended: throughout every debate, whether it completes or
    not and whatever its participant list, the histories only grow: from
    the start to every yield, from one yield to the next and to the end,
    every history is still there and is a prefix of what it becomes; and
    in a debate that completes and whose participants are distinct, every
    participant's history holds as many responses as there were rounds,
    in round order, and the response of round [j + 1] is what the
    participant's adapter call returned in that round, on the prompt
    built from the first [j] responses of all. *)
Theorem histories_record_the_rounds :
  forall request client,
    (forall i si,
        snapshots (debate request client) !! i = Some si ->
        extends (init_state (models request) []) si)
    /\ (forall i j si sj,
          (i <= j)%nat ->
          snapshots (debate request client) !! i = Some si ->
          snapshots (debate request client) !! j = Some sj ->
          extends si sj)
    /\ (NoDup (models request) ->
        raised_of (debate request client) = None ->
        forall i m,
          models request !! i = Some m ->
          exists h,
            assoc m (final_state (debate request client)) = Some h
            /\ Z.of_nat (length h) = rounds request
            /\ forall j v,
                 h !! j = Some v ->
                 adapter_return request client (Z.of_nat j + 1)
                   (truncate j (final_state (debate request client))) i m = Ok v).
Proof.
  intros request client. split; [|split].
  - intros i si Hi.
    by destruct (ascending_lookup _ _ i i si si (debate_ascending request client)
                   (le_n i) Hi Hi).
  - intros i j si sj Hij Hi Hj.
    by destruct (ascending_lookup _ _ i j si sj (debate_ascending request client)
                   Hij Hi Hj).
  - intros Hnd Hdone i m Hi.
    assert (models request <> []) as Hne by (intros E; by rewrite E in Hi).
    destruct (completed_debate request client Hdone Hne) as [Hr Hk].
    destruct (debate_recorded request client Hnd Hk ltac:(lia) i m Hi)
      as (h & Hh & Hl & Hentries).
    exists h. split; [done|]. split; [lia|done].
Qed.

Lemma NoDup_keys_dict_set {V} k (v : V) d :
  NoDup (keys d) -> NoDup (keys (dict_set k v d)).
Proof.
  intros Hnd. destruct (decide (k ∈ keys d)).
  - by rewrite keys_dict_set_present.
  - rewrite keys_dict_set_absent by done.
    apply NoDup_app. split; [done|]. split; [|apply NoDup_singleton].
    intros x Hx Hx'. apply list_elem_of_singleton in Hx' as ->. done.
Qed.

Lemma NoDup_keys_init_state (l : list string) s :
  NoDup (keys s) -> NoDup (keys (init_state l s)).
Proof.
  unfold init_state. revert s. induction l as [|m l IH]; intros s Hnd; [done|].
  cbn [foldl]. by apply IH, NoDup_keys_dict_set.
Qed.

Lemma assoc_of_pair {V} k (v : V) d :
  NoDup (keys d) -> (k, v) ∈ d -> assoc k d = Some v.
Proof.
  induction d as [|[k' v'] d IH]; intros Hnd Hin; [by apply elem_of_nil in Hin|].
  cbn [keys map fst] in Hnd. apply NoDup_cons in Hnd as [Hk' Hnd].
  cbn [assoc]. apply elem_of_cons in Hin as [Heq|Hin].
  - injection Heq as -> ->. by rewrite String.eqb_refl.
  - destruct (String.eqb k k') eqn:E; [|by apply IH].
    apply String.eqb_eq in E as ->. destruct Hk'.
    change k' with ((k', v).1). by apply (list_elem_of_fmap_2 fst).
Qed.

(** ** The shape of the stream *)

Lemma ascending_last s l s' : ascending s (l ++ [s']) -> extends s s'.
Proof.
  revert s. induction l as [|s1 l IH]; intros s; cbn [app ascending].
  - by intros [? _].
  - intros [He Ha]. eapply extends_trans; [done|]. by apply IH.
Qed.

Lemma extends_nonempty s s' m h :
  extends s s' -> assoc m s = Some h -> h <> [] ->
  exists h', assoc m s' = Some h' /\ h' <> [].
Proof.
  intros He Hh Hne. destruct (He m h Hh) as (h' & Hh' & [k ->]).
  exists (h ++ k). split; [done|]. by destruct h.
Qed.

Lemma emit_nonempty round_num trs s m :
  ready s (map (fun tr => task_model tr.1) trs) ->
  m ∈ map (fun tr : task * json => task_model tr.1) trs ->
  exists h, assoc m (emit round_num trs s).1.2 = Some h /\ h <> [].
Proof.
  revert s. induction trs as [|[t v] trs IH]; intros s Hr Hm; cbn [map fst] in *.
  - by apply elem_of_nil in Hm.
  - apply Forall_cons in Hr as [[Hk Hin] Hr].
    pose proof (emit_ascending round_num ((t, v) :: trs) s) as Ha.
    cbn [emit] in *.
    destruct (append_response_present (task_model t) v s Hin) as (hist & Hh & Heq).
    rewrite Heq in *.
    destruct (MODELS_getitem_known _ Hk) as [cfg Hcfg]. rewrite Hcfg in *.
    set (s' := dict_set (task_model t) (hist ++ [v]) s) in *.
    assert (ready s' (map (fun tr : task * json => task_model tr.1) trs)) as Hr'.
    { eapply Forall_impl; [exact Hr|]. intros m' [? ?]. subst s'.
      by rewrite keys_dict_set_present. }
    specialize (IH s' Hr').
    destruct (emit round_num trs s') as [[log s''] r].
    unfold snapshots in Ha. cbn [fst snd map app ascending] in *.
    destruct Ha as [_ Ha]. apply ascending_last in Ha.
    apply elem_of_cons in Hm as [->|Hm]; [|by apply IH].
    apply (extends_nonempty s' s'' (task_model t) (hist ++ [v])); [done| |].
    + subst s'. apply assoc_dict_set_eq.
    + by destruct hist.
Qed.

Lemma round_run_nonempty request client round_num s m :
  ready s (models request) -> m ∈ models request ->
  exists h, assoc m (round_run request client round_num s).1.2 = Some h /\ h <> [].
Proof.
  intros Hr Hm. unfold round_run.
  destruct (build_tasks_returns request round_num s Hr) as [tasks Ht]. rewrite Ht.
  pose proof (task_models_built _ _ _ _ Ht) as Hmods.
  apply emit_nonempty; rewrite (task_models_zip round_num), Hmods;
    auto using length_round_results.
Qed.

Lemma rounds_loop_nonempty request client ks s m :
  ks <> [] -> ready s (models request) -> m ∈ models request ->
  exists h,
    assoc m (for_each ks (debate_round request client) s).1.2 = Some h /\ h <> [].
Proof.
  intros Hks Hr Hm. destruct ks as [|k ks]; [done|].
  pose proof (rounds_loop_ascending request client ks) as Ha.
  unfold for_each in *. cbn [for_fold]. unfold sbind. rewrite debate_round_run.
  destruct (round_run_nonempty request client k s m Hr Hm) as (h & Hh & Hne).
  destruct (round_run_returns request client k s Hr) as [Hok _].
  destruct (round_run request client k s) as [[log s'] [[]|e]]; cbn [fst snd] in *;
    [|done].
  specialize (Ha s'). destruct (for_fold ks () _ s') as [[log' s''] r'].
  unfold snapshots in Ha. cbn [fst snd] in *. apply ascending_last in Ha.
  by eapply extends_nonempty.
Qed.

Lemma final_responses_returns (s : DebateState) :
  Forall (fun mh => mh.2 <> []) s ->
  exists final_responses,
    rmapM (fun '(model_id, responses) =>
             v <- getitem_last responses ;; Ok (model_id, v))%result s
    = Ok final_responses
    /\ keys final_responses = keys s
    /\ forallb is_text (map snd final_responses) = final_text s.
Proof.
  induction 1 as [|[m h] s Hne _ (fr & IH & Hkeys & Htext)]; cbn [rmapM].
  - by exists [].
  - cbn [snd] in Hne.
    destruct (getitem_last_nonempty h Hne) as (v & -> & Hv). cbn [rbind].
    rewrite IH. cbn [rbind]. eexists. split; [done|].
    unfold final_text. cbn [keys map fst snd forallb]. rewrite Hv.
    split; [f_equal; exact Hkeys|]. unfold final_text in Htext. by rewrite Htext.
Qed.

Lemma response_words_returns (fr : list (string * json)) :
  forallb is_text (map snd fr) = true ->
  exists ws,
    rmapM (fun '(model, resp) =>
             low <- str_lower resp ;; Ok (model, remove_dups (split low)))%result fr
    = Ok ws /\ length ws = length fr.
Proof.
  induction fr as [|[m v] fr IH]; cbn [map snd forallb rmapM]; [by exists []|].
  intros [Hv Hfr]%andb_prop. destruct v; try done. cbn [str_lower rbind].
  destruct (IH Hfr) as (ws & -> & Hl). cbn [rbind]. eexists. split; [done|].
  cbn [length]. by rewrite Hl.
Qed.

Lemma response_words_raises (fr : list (string * json)) :
  forallb is_text (map snd fr) = false ->
  rmapM (fun '(model, resp) =>
           low <- str_lower resp ;; Ok (model, remove_dups (split low)))%result fr
  = Raise AttributeError.
Proof.
  induction fr as [|[m v] fr IH]; cbn [map snd forallb rmapM]; [done|].
  destruct v; cbn [is_text andb str_lower rbind]; try done.
  intros Hfr. by rewrite (IH Hfr).
Qed.

Lemma response_lengths_returns (fr : list (string * json)) :
  forallb is_text (map snd fr) = true ->
  exists ls,
    rmapM (fun '(model, resp) => n <- py_len resp ;; Ok (model, n))%result fr = Ok ls.
Proof.
  induction fr as [|[m v] fr IH]; cbn [map snd forallb rmapM]; [by exists []|].
  intros [Hv Hfr]%andb_prop. destruct v; try done. cbn [py_len rbind].
  destruct (IH Hfr) as (ls & ->). cbn [rbind]. eauto.
Qed.

Lemma analyze_consensus_returns (fr : list (string * json)) :
  forallb is_text (map snd fr) = true -> exists a, analyze_consensus fr = Ok a.
Proof.
  intros Ht. unfold analyze_consensus.
  destruct (response_words_returns fr Ht) as (ws & -> & Hl). cbn [rbind].
  destruct (response_lengths_returns fr Ht) as (ls & ->).
  destruct (1 <? Z.of_nat (length ws)) eqn:Hlen; cbn [rbind]; [|eauto].
  destruct ws as [|w ws]; [done|]. cbn [map set_intersection rbind]. eauto.
Qed.

Lemma analyze_consensus_raises (fr : list (string * json)) :
  forallb is_text (map snd fr) = false ->
  analyze_consensus fr = Raise AttributeError.
Proof.
  intros Ht. unfold analyze_consensus. by rewrite (response_words_raises fr Ht).
Qed.

Lemma summary_lines_returns (fr : list (string * json)) prompt :
  Forall (fun m => known m = true) (keys fr) ->
  exists p, summary_lines fr prompt = Ok p.
Proof.
  revert prompt. induction fr as [|[m v] fr IH]; intros prompt Hk;
    cbn [summary_lines keys map fst] in *; [eauto|].
  apply Forall_cons in Hk as [Hm Hk].
  destruct (MODELS_getitem_known m Hm) as [cfg ->]. cbn [rbind]. by apply IH.
Qed.

Lemma length_schedule_of (ms : list string) (ks : list Z) :
  length (schedule_of ms ks) = (length ks * length ms)%nat.
Proof.
  induction ks as [|k ks IH]; [done|].
  unfold schedule_of in *. cbn [flat_map length].
  rewrite length_app, length_map, IH. lia.
Qed.

Lemma length_round_events (evs : list event) :
  Forall is_round evs -> length (round_keys evs) = length evs.
Proof.
  induction 1 as [|e evs [k Hk] _ IH]; [done|].
  unfold round_keys in *. cbn [omap list_omap]. rewrite Hk. cbn [length].
  by f_equal.
Qed.

(** The end of the stream from a state in which every participant has
    a response. *)
Lemma conclude_run request client s :
  Forall (fun mh => mh.2 <> []) s ->
  Forall (fun m => known m = true) (keys s) ->
  models request <> [] ->
  if final_text s then
    exists summary consensus,
      conclude request client s
      = ([(ConsensusEvent summary consensus, s); (DoneEvent, s)], s, Ok tt)
  else conclude request client s = ([], s, Raise AttributeError).
Proof.
  intros Hne Hk Hm. unfold conclude.
  destruct (final_responses_returns s Hne) as (fr & Hfr & Hfk & Hft).
  rewrite sbind_get, Hfr, sbind_lift_Ok. rewrite <- Hft.
  destruct (forallb is_text (map snd fr)) eqn:Htext.
  - destruct (analyze_consensus_returns fr Htext) as [a ->].
    rewrite sbind_lift_Ok.
    destruct (models request) as [|m0 l0] eqn:Hmods; [done|].
    rewrite sbind_lift_Ok.
    destruct (summary_lines_returns fr (summary_header request)) as [p ->].
    { by rewrite Hfk. }
    rewrite sbind_lift_Ok.
    destruct (call_model_total (post_at client SummaryCall) m0 (api_keys request)
                [{| role := "user"; content := p +:+ summary_footer |}]
                (Some summary_system)) as [summary ->].
    rewrite sbind_lift_Ok. unfold sbind, yield. cbn [fst snd app].
    by exists summary, a.
  - by rewrite (analyze_consensus_raises fr Htext), sbind_lift_Raise.
Qed.

(** C1, the code against the claim: for a request with P catalog
    participants and R >= 1 rounds the stream starts with exactly P x R
    round events, those of the schedule, whatever text or error text the
    calls returned; the consensus event and the terminal marker follow,
    once each, when the last response of every participant is text; but
    when a call of the last round returned a span that is not text (a 200
    response whose body has the provider's shape with, say, a null
    content) the stream ends after the round events in the AttributeError
    of [resp.lower()], and neither of the two is emitted. *)
Theorem stream_shape_and_its_abort :
  forall request client,
  forallb known (models request) = true -> models request <> [] ->
  1 <= rounds request ->
  exists round_events,
    Forall is_round round_events
    /\ round_keys round_events = schedule request
    /\ Z.of_nat (length round_events)
       = Z.of_nat (length (models request)) * rounds request
    /\ if final_text (final_state (debate request client)) then
         exists summary consensus,
           events_of (debate request client)
           = round_events ++ [ConsensusEvent summary consensus; DoneEvent]
           /\ raised_of (debate request client) = None
       else
         events_of (debate request client) = round_events
         /\ raised_of (debate request client) = Some AttributeError.
Proof.
  intros request client Hk Hm Hr.
  unfold events_of, raised_of, final_state. rewrite debate_unfold.
  set (ks := range 1 (rounds request + 1)).
  set (s0 := init_state (models request) []).
  pose proof (init_state_ready _ Hk) as Hready. fold s0 in Hready.
  destruct (rounds_loop_keys request client ks s0) as (Hround & _ & Heq).
  destruct (rounds_loop_returns request client ks s0 Hready) as [Hok Hkeys].
  assert (ks <> []) as Hks.
  { subst ks. unfold range. rewrite seqZ_cons by lia. done. }
  pose proof (fun m => rounds_loop_nonempty request client ks s0 m Hks Hready) as Hne.
  cbv zeta in Heq.
  destruct (for_each ks (debate_round request client) s0) as [[log s] [[]|e]];
    cbn [fst snd] in *; [|done].
  exists (map fst log). split; [done|]. split; [by apply Heq|]. split.
  { rewrite <- (length_round_events _ Hround), Heq by done.
    unfold schedule. rewrite length_schedule_of. subst ks. unfold range.
    rewrite length_seqZ. lia. }
  assert (forall m, m ∈ keys s -> m ∈ models request) as Hsub.
  { intros m Hin. rewrite Hkeys in Hin. subst s0.
    apply init_state_keys in Hin as [Hin|Hin]; [by apply elem_of_nil in Hin|done]. }
  assert (NoDup (keys s)) as Hnd.
  { rewrite Hkeys. subst s0. apply NoDup_keys_init_state. apply NoDup_nil_2. }
  assert (Forall (fun mh : string * list json => mh.2 <> []) s) as Hfull.
  { apply Forall_forall. intros [m h] Hmh. cbn [snd].
    assert (m ∈ models request) as Hin.
    { apply Hsub. unfold keys.
      change m with ((m, h).1). by apply list_elem_of_fmap_2. }
    destruct (Hne m Hin) as (h' & Hh' & Hne').
    rewrite (assoc_of_pair _ _ _ Hnd Hmh) in Hh'. congruence. }
  assert (Forall (fun m => known m = true) (keys s)) as Hknown.
  { apply Forall_forall. intros m Hin.
    rewrite forallb_forall in Hk. apply Hk, list_elem_of_In. by apply Hsub. }
  pose proof (conclude_run request client s Hfull Hknown Hm) as Hc.
  pose proof (conclude_state request client s) as Hcs.
  destruct (conclude request client s) as [[log' s'] r']. cbn [fst snd] in *.
  subst s'. destruct (final_text s).
  - destruct Hc as (summary & a & Hc). injection Hc as -> ->.
    exists summary, a. by rewrite map_app.
  - injection Hc as -> ->. by rewrite app_nil_r.
Qed.

(** ** Order within the schedule *)

Lemma schedule_of_cons ms k ks :
  schedule_of ms (k :: ks) = map (pair k) ms ++ schedule_of ms ks.
Proof. done. Qed.

Lemma lookup_round_block (ms : list string) (k : Z) i r m :
  map (pair k) ms !! i = Some (r, m) -> r = k /\ ms !! i = Some m.
Proof.
  intros H. change (map (pair k) ms) with (pair k <$> ms) in H.
  apply list_lookup_fmap_Some_1 in H as (x & [= -> ->] & Hx). done.
Qed.

Lemma schedule_rounds_from ms a n i r m :
  schedule_of ms (seqZ a (Z.of_nat n)) !! i = Some (r, m) -> a <= r.
Proof.
  revert a i. induction n as [|n IH]; intros a i.
  - by rewrite seqZ_nil by lia.
  - rewrite seqZ_cons by lia. replace (Z.pred (Z.of_nat (S n))) with (Z.of_nat n) by lia.
    rewrite schedule_of_cons. intros H.
    apply lookup_app_Some in H as [H|[_ H]].
    + apply lookup_round_block in H as [-> _]. lia.
    + apply IH in H. lia.
Qed.

Lemma schedule_same_round ms a n i j r m1 m2 :
  (i < j)%nat ->
  schedule_of ms (seqZ a (Z.of_nat n)) !! i = Some (r, m1) ->
  schedule_of ms (seqZ a (Z.of_nat n)) !! j = Some (r, m2) ->
  exists p q, (p < q)%nat /\ ms !! p = Some m1 /\ ms !! q = Some m2.
Proof.
  revert a i j. induction n as [|n IH]; intros a i j Hij.
  - by rewrite seqZ_nil by lia.
  - rewrite seqZ_cons by lia. replace (Z.pred (Z.of_nat (S n))) with (Z.of_nat n) by lia.
    rewrite schedule_of_cons. intros Hi Hj.
    apply lookup_app_Some in Hi as [Hi|[Hil Hi]];
      apply lookup_app_Some in Hj as [Hj|[Hjl Hj]].
    + apply lookup_round_block in Hi as [_ Hi].
      apply lookup_round_block in Hj as [_ Hj]. eauto.
    + apply lookup_round_block in Hi as [-> _].
      apply schedule_rounds_from in Hj. lia.
    + apply lookup_lt_Some in Hj. lia.
    + eapply (IH _ (i - length (map (pair a) ms))%nat
                (j - length (map (pair a) ms))%nat); [lia|done|done].
Qed.

Lemma schedule_previous_round ms a n i r m :
  schedule_of ms (seqZ a (Z.of_nat n)) !! i = Some (r, m) -> a < r ->
  forall m', m' ∈ ms ->
    exists i', (i' < i)%nat
               /\ schedule_of ms (seqZ a (Z.of_nat n)) !! i' = Some (r - 1, m').
Proof.
  revert a i. induction n as [|n IH]; intros a i.
  - by rewrite seqZ_nil by lia.
  - rewrite seqZ_cons by lia. replace (Z.pred (Z.of_nat (S n))) with (Z.of_nat n) by lia.
    rewrite schedule_of_cons. intros Hi Har m' Hm'.
    apply lookup_app_Some in Hi as [Hi|[Hil Hi]].
    { apply lookup_round_block in Hi as [-> _]. lia. }
    pose proof (schedule_rounds_from _ _ _ _ _ _ Hi) as Hfrom.
    destruct (decide (r = Z.succ a)) as [->|Hne].
    + apply list_elem_of_lookup in Hm' as [p Hp].
      exists p. split.
      * apply lookup_lt_Some in Hp. rewrite length_map in Hil. lia.
      * rewrite lookup_app_l by (rewrite length_map; by eapply lookup_lt_Some).
        change (map (pair a) ms) with (pair a <$> ms).
        rewrite list_lookup_fmap, Hp. cbn. do 2 f_equal. lia.
    + destruct (IH _ _ Hi ltac:(lia) m' Hm') as (i' & Hlt & Hi').
      exists (length (map (pair a) ms) + i')%nat. split; [lia|].
      rewrite lookup_app_r by lia.
      by replace (length (map (pair a) ms) + i' - length (map (pair a) ms))%nat
        with i' by lia.
Qed.

(** C2: in every debate the round events come round by round and, in
    each round, in the order of [request.models], whatever the latencies
    of the calls: the rounds and participants of the round events emitted
    are a prefix of the schedule (round 1 for every participant in
    configured order, then round 2, ...), and all of it when every
    participant is in the catalog; two events of one round stand in the
    order of their participants in [request.models]; an event of a round
    after the first comes after the events of the round before it, one
    for every participant; and other latencies give the same events. *)
Theorem round_events_follow_the_schedule :
  forall request client,
    let emitted := round_keys (events_of (debate request client)) in
    emitted `prefix_of` schedule request
    /\ (forallb known (models request) = true -> emitted = schedule request)
    /\ (forall i j r m1 m2,
          (i < j)%nat ->
          emitted !! i = Some (r, m1) -> emitted !! j = Some (r, m2) ->
          exists p q, (p < q)%nat /\ models request !! p = Some m1
                      /\ models request !! q = Some m2)
    /\ (forall i r m,
          emitted !! i = Some (r, m) -> 1 < r ->
          forall m', m' ∈ models request ->
            exists i', (i' < i)%nat /\ emitted !! i' = Some (r - 1, m'))
    /\ (forall lat,
          events_of (debate request {| post_at := post_at client; latency := lat |})
          = events_of (debate request client)).
Proof.
  intros request client emitted.
  assert (emitted `prefix_of` schedule request
          /\ (forallb known (models request) = true -> emitted = schedule request))
    as [Hprefix Hall].
  { subst emitted. unfold events_of. rewrite debate_unfold.
    destruct (rounds_loop_keys request client (range 1 (rounds request + 1))
                (init_state (models request) [])) as (_ & Hp & Heq).
    cbv zeta in Hp, Heq.
    pose proof (rounds_loop_returns request client (range 1 (rounds request + 1))
                  (init_state (models request) [])) as Hret.
    destruct (for_each _ _ _) as [[log s] [[]|e]]; cbn [fst snd] in *.
    - pose proof (conclude_no_round_event request client s) as Hc.
      destruct (conclude request client s) as [[log' s'] r']. cbn [fst snd] in *.
      rewrite map_app, round_keys_app, Hc, app_nil_r, Heq by done.
      split; done.
    - split; [done|]. intros Hk.
      destruct (Hret (init_state_ready _ Hk)) as [? _]. done. }
  assert (exists n, schedule request
                    = schedule_of (models request) (seqZ 1 (Z.of_nat n))) as [n Hn].
  { exists (Z.to_nat (rounds request)). unfold schedule, range.
    destruct (Z_le_gt_dec (rounds request) 0).
    - by rewrite !seqZ_nil by lia.
    - do 2 f_equal. lia. }
  split; [done|]. split; [done|]. split; [|split].
  - intros i j r m1 m2 Hij Hi Hj.
    apply (prefix_lookup_Some _ _ _ _ Hi) in Hprefix as Hi'.
    apply (prefix_lookup_Some _ _ _ _ Hj) in Hprefix as Hj'.
    rewrite Hn in Hi', Hj'. by eapply schedule_same_round.
  - intros i r m Hi Hr m' Hm'.
    apply (prefix_lookup_Some _ _ _ _ Hi) in Hprefix as Hi'.
    rewrite Hn in Hi'.
    destruct (schedule_previous_round _ _ _ _ _ _ Hi' Hr m' Hm') as (i' & Hlt & Hi'').
    exists i'. split; [done|]. rewrite <- Hn in Hi''.
    rewrite (prefix_lookup_lt emitted (schedule request)); [done| |done].
    apply lookup_lt_Some in Hi. lia.
  - intros lat. f_equal. apply debate_same. intros ? ? ? ?. reflexivity.
Qed.

(** ** The precondition of the stream *)

Lemma truthy_api_key api_keys key_name :
  truthy (assoc key_name api_keys) = false <-> api_key_of api_keys key_name = "".
Proof.
  unfold api_key_of. destruct (assoc key_name api_keys) as [[|c k]|]; cbn; split; done.
Qed.

Lemma required_key_truthy model key_name :
  assoc model required_keys = Some key_name -> truthy (Some key_name) = true.
Proof.
  unfold required_keys. cbn [assoc].
  repeat (destruct (String.eqb model _); [by intros [= <-]|]). done.
Qed.

Lemma check_keys_None api_keys models :
  check_keys api_keys models = None <->
  forall model key_name,
    model ∈ models -> assoc model required_keys = Some key_name ->
    api_key_of api_keys key_name <> "".
Proof.
  induction models as [|m models IH]; cbn [check_keys].
  - split; [|done]. intros _ ? ? Hin. by apply elem_of_nil in Hin.
  - destruct (assoc m required_keys) as [k|] eqn:Hk.
    + rewrite (required_key_truthy m k Hk). cbn [andb default from_option id].
      destruct (truthy (assoc k api_keys)) eqn:Ht; cbn [negb].
      * rewrite IH. split.
        -- intros H model key_name Hin Hreq.
           apply elem_of_cons in Hin as [->|Hin]; [|by eapply H].
           assert (key_name = k) as -> by congruence.
           intros Hempty. apply truthy_api_key in Hempty. congruence.
        -- intros H model key_name Hin. apply H. by apply list_elem_of_further.
      * split; [done|]. intros H. exfalso.
        apply (H m k (list_elem_of_here _ _) Hk). by apply truthy_api_key.
    + cbn [truthy andb]. rewrite IH. split.
      * intros H model key_name Hin Hreq.
        apply elem_of_cons in Hin as [->|Hin]; [congruence|by eapply H].
      * intros H model key_name Hin. apply H. by apply list_elem_of_further.
Qed.

Lemma check_keys_Some api_keys models e :
  check_keys api_keys models = Some e ->
  http_status e = 400
  /\ exists before model after key_name,
       models = before ++ model :: after
       /\ assoc model required_keys = Some key_name
       /\ api_key_of api_keys key_name = ""
       /\ check_keys api_keys before = None
       /\ http_detail e = "Missing API key for " +:+ model +:+ ": need '"
                          +:+ key_name +:+ "' key".
Proof.
  induction models as [|m models IH]; cbn [check_keys]; [done|].
  assert (forall He : check_keys api_keys models = Some e,
             check_keys api_keys [m] = None ->
             http_status e = 400
             /\ exists before model after key_name,
                  m :: models = before ++ model :: after
                  /\ assoc model required_keys = Some key_name
                  /\ api_key_of api_keys key_name = ""
                  /\ check_keys api_keys before = None
                  /\ http_detail e = "Missing API key for " +:+ model +:+ ": need '"
                                     +:+ key_name +:+ "' key") as Hrest.
  { intros He Hm.
    destruct (IH He) as (Hs & before & model & after & k & -> & ? & ? & Hb & ?).
    split; [done|]. exists (m :: before), model, after, k.
    repeat split; try done. cbn [check_keys] in *.
    destruct (truthy (assoc m required_keys) && _); [done|exact Hb]. }
  cbn [check_keys] in Hrest.
  destruct (assoc m required_keys) as [k|] eqn:Hreq.
  - rewrite (required_key_truthy m k Hreq) in *. cbn [andb default from_option id] in *.
    destruct (truthy (assoc k api_keys)) eqn:Ht; cbn [negb] in *; [by auto|].
    intros He. assert (e = {| http_status := 400;
                              http_detail := "Missing API key for " +:+ m +:+ ": need '"
                                             +:+ k +:+ "' key" |}) as -> by congruence.
    split; [done|]. exists [], m, models, k. repeat split; try done.
    by apply truthy_api_key.
  - cbn [truthy andb] in *. by auto.
Qed.

(** X1: [start_debate] hands the stream of the request to the caller
    exactly when every listed participant that needs a key has a
    non-empty one under its family; otherwise it raises the 400 that
    names the first listed participant whose key is missing or empty, and
    no stream is made. An id outside [required_keys] needs no key. *)
Theorem start_debate_checks_the_keys :
  forall request client,
    match start_debate request client with
    | inr response =>
        body_iterator response = run_debate_stream request client
        /\ media_type response = "text/event-stream"
        /\ forall model key_name,
             model ∈ models request ->
             assoc model required_keys = Some key_name ->
             api_key_of (api_keys request) key_name <> ""
    | inl e =>
        http_status e = 400
        /\ exists before model after key_name,
             models request = before ++ model :: after
             /\ assoc model required_keys = Some key_name
             /\ api_key_of (api_keys request) key_name = ""
             /\ (forall m k,
                   m ∈ before -> assoc m required_keys = Some k ->
                   api_key_of (api_keys request) k <> "")
             /\ http_detail e = "Missing API key for " +:+ model +:+ ": need '"
                                +:+ key_name +:+ "' key"
    end.
Proof.
  intros request client. unfold start_debate.
  destruct (check_keys (api_keys request) (models request)) as [e|] eqn:Hc.
  - destruct (check_keys_Some _ _ _ Hc)
      as (Hs & before & model & after & k & Hm & Hk & He & Hb & Hd).
    split; [done|]. exists before, model, after, k.
    repeat split; try done. by apply check_keys_None.
  - cbn [body_iterator media_type]. repeat split. by apply check_keys_None.
Qed.

Lemma api_key_present api_keys family :
  api_key_of api_keys family <> "" ->
  assoc family api_keys = Some (api_key_of api_keys family).
Proof. unfold api_key_of. by destruct (assoc family api_keys). Qed.

(** X2: the families of [required_keys] are those [call_model] reads:
    once [start_debate] has accepted a request, the call of every listed
    catalog participant is the call of the adapter of that very
    participant, with the key that [api_keys] holds under the family
    [required_keys] names for it, and that key is not empty. *)
Theorem accepted_request_has_credentials :
  forall request client response,
    start_debate request client = inr response ->
    forall model,
      model ∈ models request -> known model = true ->
      exists p family key,
        provider_id p = model
        /\ assoc model required_keys = Some family
        /\ assoc family (api_keys request) = Some key
        /\ key <> ""
        /\ forall post messages system,
             call_model post model (api_keys request) messages system
             = adapter p post key messages system.
Proof.
  intros request client response Hs model Hin Hk.
  unfold start_debate in Hs.
  destruct (check_keys (api_keys request) (models request)) eqn:Hc; [done|].
  pose proof (proj1 (check_keys_None _ _) Hc model) as Hkey.
  unfold known, MODELS in Hk. cbn [assoc] in Hk. unfold call_model.
  destruct (String.eqb_spec model "claude") as [->|_].
  { specialize (Hkey "anthropic" Hin eq_refl).
    exists Claude, "anthropic", (api_key_of (api_keys request) "anthropic").
    split; [done|]. split; [done|]. split; [by apply api_key_present|done]. }
  destruct (String.eqb_spec model "gpt") as [->|_].
  { specialize (Hkey "openai" Hin eq_refl).
    exists GPT, "openai", (api_key_of (api_keys request) "openai").
    split; [done|]. split; [done|]. split; [by apply api_key_present|done]. }
  destruct (String.eqb_spec model "gemini") as [->|_]; [|done].
  specialize (Hkey "google" Hin eq_refl).
  exists Gemini, "google", (api_key_of (api_keys request) "google").
  split; [done|]. split; [done|]. split; [by apply api_key_present|done].
Qed.

(** ** No participant *)

Lemma keys_nil {V} (d : list (string * V)) : keys d = [] -> d = [].
Proof. by destruct d. Qed.

(** X3: with an empty participant list the stream yields no event and
    ends in the IndexError of [request.models[0]], whatever the round
    count. *)
Theorem no_participant_raises_IndexError :
  forall request client,
    models request = [] ->
    events_of (debate request client) = []
    /\ raised_of (debate request client) = Some IndexError.
Proof.
  intros request client Hm. unfold events_of, raised_of. rewrite debate_unfold.
  set (ks := range 1 (rounds request + 1)).
  assert (ready (init_state (models request) []) (models request)) as Hr.
  { rewrite Hm. apply Forall_nil_2. }
  destruct (rounds_loop_keys request client ks (init_state (models request) []))
    as (Hround & _ & Heq).
  destruct (rounds_loop_returns request client ks _ Hr) as [Hok Hkeys].
  cbv zeta in Heq.
  destruct (for_each ks _ _) as [[log s] [[]|e]]; cbn [fst snd] in *; [|done].
  assert (map fst log = []) as Hlog.
  { apply length_zero_iff_nil. rewrite <- (length_round_events _ Hround), Heq by done.
    rewrite length_schedule_of, Hm. cbn. lia. }
  assert (s = []) as ->.
  { apply keys_nil. rewrite Hkeys, Hm. done. }
  unfold conclude. rewrite sbind_get. cbn [rmapM]. rewrite sbind_lift_Ok.
  assert (exists a, analyze_consensus [] = Ok a) as [a ->].
  { by apply analyze_consensus_returns. }
  rewrite sbind_lift_Ok, Hm, sbind_lift_Raise. cbn [fst snd].
  by rewrite app_nil_r, Hlog.
Qed.

(** ** What the stream yields *)

Lemma conclude_cases request client s :
  (exists summary consensus,
     conclude request client s
     = ([(ConsensusEvent summary consensus, s); (DoneEvent, s)], s, Ok tt))
  \/ (exists e, conclude request client s = ([], s, Raise e)).
Proof.
  unfold conclude. rewrite sbind_get.
  destruct (rmapM _ s) as [final_responses|e]; [|right; by eexists].
  rewrite sbind_lift_Ok.
  destruct (analyze_consensus final_responses) as [consensus|e]; [|right; by eexists].
  rewrite sbind_lift_Ok.
  destruct (models request) as [|m l]; [right; by eexists|].
  rewrite sbind_lift_Ok.
  destruct (summary_lines final_responses (summary_header request)) as [prompt|e];
    [|right; by eexists].
  rewrite sbind_lift_Ok.
  destruct (call_model _ m _ _ _) as [summary|e]; [|right; by eexists].
  rewrite sbind_lift_Ok. left. by exists summary, consensus.
Qed.

(** X4: whatever the request and the network, the stream is a run of
    round events followed either by the consensus event and the terminal
    marker, once each and in this order, with a normal end, or by nothing
    more, with an exception: the marker is the last event of exactly the
    streams that end normally, and the consensus event never comes
    without it. *)
Theorem stream_ends_with_the_marker_or_raises :
  forall request client,
    exists round_events,
      Forall is_round round_events
      /\ ((exists summary consensus,
             events_of (debate request client)
             = round_events ++ [ConsensusEvent summary consensus; DoneEvent]
             /\ raised_of (debate request client) = None)
          \/ (exists e,
                events_of (debate request client) = round_events
                /\ raised_of (debate request client) = Some e)).
Proof.
  intros request client. unfold events_of, raised_of. rewrite debate_unfold.
  destruct (rounds_loop_keys request client (range 1 (rounds request + 1))
              (init_state (models request) [])) as (Hround & _ & _).
  cbv zeta in Hround.
  destruct (for_each _ _ _) as [[log s] [[]|e]]; cbn [fst snd] in *.
  - exists (map fst log). split; [done|].
    destruct (conclude_cases request client s) as [(summary & a & ->)|(e & ->)];
      cbn [fst snd].
    + left. exists summary, a. by rewrite map_app.
    + right. exists e. by rewrite app_nil_r.
  - exists (map fst log). split; [done|]. right. by exists e.
Qed.

Lemma assoc_get_models m cfg :
  assoc m MODELS = Some cfg -> assoc m get_models = Some (name cfg, color cfg).
Proof.
  unfold get_models. induction MODELS as [|[k c] l IH]; cbn [map assoc]; [done|].
  destruct (String.eqb m k); [by intros [= ->]|done].
Qed.

Lemma emit_log round_num trs s :
  Forall (fun es : event * DebateState =>
            exists t v cfg hist,
              (t, v) ∈ trs
              /\ es.1 = RoundEvent round_num (task_model t) (name cfg) (color cfg) v
                          (1 <? round_num)
              /\ assoc (task_model t) MODELS = Some cfg
              /\ assoc (task_model t) es.2 = Some (hist ++ [v]))
         (emit round_num trs s).1.1.
Proof.
  revert s. induction trs as [|[t v] trs IH]; intros s; cbn [emit]; [constructor|].
  unfold append_response, dict_getitem.
  destruct (assoc (task_model t) s) as [hist|] eqn:Hh; cbn [rbind]; [|constructor].
  unfold MODELS_getitem.
  destruct (assoc (task_model t) MODELS) as [cfg|] eqn:Hc; [|constructor].
  specialize (IH (dict_set (task_model t) (hist ++ [v]) s)).
  destruct (emit round_num trs _) as [[log s''] r]. cbn [fst snd] in *.
  constructor.
  - exists t, v, cfg, hist. cbn [fst snd]. repeat split; try done.
    + apply list_elem_of_here.
    + apply assoc_dict_set_eq.
  - eapply Forall_impl; [exact IH|]. intros es (t' & v' & cfg' & hist' & Hin & ?).
    exists t', v', cfg', hist'. split; [by apply list_elem_of_further|done].
Qed.

Lemma round_run_log request client round_num s :
  Forall (fun es : event * DebateState =>
            exists m v cfg hist,
              m ∈ models request
              /\ es.1 = RoundEvent round_num m (name cfg) (color cfg) v (1 <? round_num)
              /\ assoc m MODELS = Some cfg
              /\ assoc m es.2 = Some (hist ++ [v]))
         (round_run request client round_num s).1.1.
Proof.
  unfold round_run.
  destruct (build_tasks request round_num s) as [tasks|e] eqn:Ht; [|constructor].
  eapply Forall_impl; [apply emit_log|].
  intros es (t & v & cfg & hist & Hin & He & Hc & Hs).
  exists (task_model t), v, cfg, hist. split; [|done].
  rewrite <- (task_models_built _ _ _ _ Ht).
  apply elem_of_zip_l in Hin.
  change (task_model t ∈ task_model <$> tasks). by apply list_elem_of_fmap_2.
Qed.

Lemma rounds_loop_log (P : event * DebateState -> Prop) request client ks s :
  (forall k s', k ∈ ks -> Forall P (round_run request client k s').1.1) ->
  Forall P (for_each ks (debate_round request client) s).1.1.
Proof.
  unfold for_each. revert s. induction ks as [|k ks IH]; intros s HP; cbn [for_fold];
    [constructor|].
  unfold sbind. rewrite debate_round_run.
  pose proof (HP k s (list_elem_of_here _ _)) as Hk.
  destruct (round_run request client k s) as [[log s'] [[]|e]]; cbn [fst snd] in *;
    [|done].
  assert (Forall P (for_fold ks () (fun _ x => debate_round request client x) s').1.1)
    as Hrest.
  { apply IH. intros k' s'' Hin. apply HP. by apply list_elem_of_further. }
  destruct (for_fold ks () _ s') as [[log' s''] r']. cbn [fst snd] in *.
  by apply Forall_app.
Qed.

Lemma debate_round_log (P : event * DebateState -> Prop) request client :
  (forall k s, 1 <= k <= rounds request ->
               Forall P (round_run request client k s).1.1) ->
  forall es, es ∈ yields (debate request client) -> is_round es.1 -> P es.
Proof.
  intros HP es. unfold yields. rewrite debate_unfold.
  pose proof (rounds_loop_log P request client (range 1 (rounds request + 1))
                (init_state (models request) [])) as Hlog.
  destruct (for_each _ _ _) as [[log s] [[]|e]]; cbn [fst snd] in *.
  - destruct (conclude_cases request client s) as [(summary & a & ->)|(e & ->)];
      cbn [fst snd].
    + rewrite elem_of_app. intros [Hin|Hin] Hr.
      * eapply (proj1 (Forall_forall _ _)); [apply Hlog|done].
        intros k s' Hk. apply HP. unfold range in Hk.
        apply elem_of_seqZ in Hk. lia.
      * apply elem_of_cons in Hin as [->|Hin]; [by destruct Hr|].
        apply list_elem_of_singleton in Hin as ->. by destruct Hr.
    + rewrite app_nil_r. intros Hin _.
      eapply (proj1 (Forall_forall _ _)); [apply Hlog|done].
      intros k s' Hk. apply HP. unfold range in Hk. apply elem_of_seqZ in Hk. lia.
  - intros Hin _. eapply (proj1 (Forall_forall _ _)); [apply Hlog|done].
    intros k s' Hk. apply HP. unfold range in Hk. apply elem_of_seqZ in Hk. lia.
Qed.

(** X5: every round event of every stream is of a participant listed in
    the request, carries the display name and color that [get_models]
    gives for that participant, has a round number between 1 and the
    round count, and is flagged as a revision exactly when its round is
    after the first. *)
Theorem round_events_are_of_the_request :
  forall request client e,
    e ∈ events_of (debate request client) -> is_round e ->
    round_event_of request e.
Proof.
  intros request client e Hin Hr. unfold events_of in Hin.
  change (e ∈ fst <$> yields (debate request client)) in Hin.
  apply list_elem_of_fmap_1 in Hin as (es & -> & Hin).
  revert es Hin Hr.
  apply (debate_round_log (fun es => round_event_of request es.1)).
  intros k s Hk. eapply Forall_impl; [apply round_run_log|].
  intros es (m & v & cfg & hist & Hm & He & Hc & _).
  exists k, m, (name cfg), (color cfg), v.
  split; [done|]. split; [by apply assoc_get_models|]. done.
Qed.

(** X6: when the stream yields a round event, the response the event
    carries is already the last entry of that participant's history. *)
Theorem round_event_is_recorded_first :
  forall request client e s,
    (e, s) ∈ yields (debate request client) ->
    forall round model_id model_name model_color response is_revision,
      e = RoundEvent round model_id model_name model_color response is_revision ->
      exists hist, assoc model_id s = Some hist /\ last hist = Some response.
Proof.
  intros request client e s Hin r m n c v b ->.
  pose proof (debate_round_log
                (fun es => forall r m n c v b,
                     es.1 = RoundEvent r m n c v b ->
                     exists hist, assoc m es.2 = Some hist /\ last hist = Some v)
                request client) as H.
  eapply (H _ (RoundEvent r m n c v b, s) Hin); [by eexists|done].
  Unshelve.
  intros k s' _. eapply Forall_impl; [apply round_run_log|].
  intros es (m' & v' & cfg & hist & _ & He & _ & Hs) r' m'' n' c' v'' b' He'.
  rewrite He in He'. injection He' as <- <- <- <- <- <-.
  exists (hist ++ [v']). split; [done|]. apply last_snoc.
Qed.

(** ** The events of a round, one by one *)

Lemma emit_event_at round_num trs s j t v :
  ready s (map (fun tr => task_model tr.1) trs) ->
  trs !! j = Some (t, v) ->
  exists cfg,
    assoc (task_model t) MODELS = Some cfg
    /\ map fst (emit round_num trs s).1.1 !! j
       = Some (RoundEvent round_num (task_model t) (name cfg) (color cfg) v
                 (1 <? round_num)).
Proof.
  revert s j. induction trs as [|[t0 v0] trs IH]; intros s j Hr Hj; [done|].
  cbn [map fst] in Hr. apply Forall_cons in Hr as [[Hk Hin] Hr]. cbn [emit].
  destruct (append_response_present (task_model t0) v0 s Hin) as (hist & Hh & ->).
  unfold MODELS_getitem. unfold known in Hk.
  destruct (assoc (task_model t0) MODELS) as [cfg0|] eqn:Hc0; [|done].
  set (s' := dict_set (task_model t0) (hist ++ [v0]) s).
  assert (ready s' (map (fun tr : task * json => task_model tr.1) trs)) as Hr'.
  { eapply Forall_impl; [exact Hr|]. intros m [? ?]. subst s'.
    by rewrite keys_dict_set_present. }
  specialize (IH s'). destruct (emit round_num trs s') as [[log s''] r].
  cbn [fst snd map] in *. destruct j as [|j].
  - injection Hj as -> ->. exists cfg0. done.
  - by apply IH.
Qed.

(** X7: in a round that starts with every listed participant in the
    catalog and with a history, the event at position [j] of the round
    is the round event of the participant at position [j] of
    [request.models] and carries what that participant's own call
    returned; it is the same on any network that answers as this one at
    that one call, whatever the other calls of the round come to. *)
Theorem round_event_carries_its_own_call :
  forall request client round_num s,
    ready s (models request) ->
    forall j m,
      models request !! j = Some m ->
      (exists v cfg,
         adapter_return request client round_num s j m = Ok v
         /\ assoc m MODELS = Some cfg
         /\ events_of (debate_round request client round_num s) !! j
            = Some (RoundEvent round_num m (name cfg) (color cfg) v (1 <? round_num)))
      /\ forall client',
           post_at client' (RoundCall round_num j) = post_at client (RoundCall round_num j) ->
           events_of (debate_round request client' round_num s) !! j
           = events_of (debate_round request client round_num s) !! j.
Proof.
  intros request client round_num s Hr j m Hj.
  assert (forall c, exists v cfg,
             adapter_return request c round_num s j m = Ok v
             /\ assoc m MODELS = Some cfg
             /\ events_of (debate_round request c round_num s) !! j
                = Some (RoundEvent round_num m (name cfg) (color cfg) v (1 <? round_num)))
    as Hform.
  { intros c. unfold events_of. rewrite debate_round_run. unfold round_run.
    destruct (build_tasks_returns request round_num s Hr) as [tasks Ht]. rewrite Ht.
    pose proof (task_models_built _ _ _ _ Ht) as Hm.
    unfold build_tasks in Ht. apply rmapM_Ok_Forall2 in Ht.
    destruct (Forall2_lookup_l _ _ _ _ _ Ht Hj) as (t & Hti & Hmt).
    assert (task_model t = m) as Htm.
    { unfold make_task in Hmt. destruct (build_prompt request round_num s m);
        cbn [rbind] in Hmt; [|done]. by injection Hmt as <-. }
    destruct (call_model_total (post_at c (RoundCall round_num j)) (task_model t)
                (api_keys request) (task_messages t) (Some (task_system t))) as [v Hv].
    destruct (emit_event_at round_num (zip tasks (round_results request c round_num tasks))
                s j t v) as (cfg & Hc & He).
    - by rewrite (task_models_zip round_num), Hm by apply length_round_results.
    - apply lookup_zip_with_Some. exists t, v. split; [done|]. split; [done|].
      unfold round_results. rewrite list_lookup_imap, Hti. cbn.
      unfold run_task. by rewrite Hv.
    - exists v, cfg. subst m. split; [|done].
      unfold adapter_return. rewrite Hmt. cbn [rbind].
      unfold run_task. exact Hv. }
  split; [apply Hform|].
  intros client' Hsame.
  destruct (Hform client) as (v & cfg & Hv & Hc & ->).
  destruct (Hform client') as (v' & cfg' & Hv' & Hc' & ->).
  unfold adapter_return, run_task in Hv, Hv'. rewrite Hsame in Hv'.
  congruence.
Qed.

(** ** The consensus event *)

Lemma conclude_emits request client s summary a :
  conclude request client s
  = ([(ConsensusEvent summary a, s); (DoneEvent, s)], s, Ok tt) ->
  exists fr m0 rest prompt,
    rmapM (fun '(model_id, responses) =>
             v <- getitem_last responses ;; Ok (model_id, v))%result s = Ok fr
    /\ analyze_consensus fr = Ok a
    /\ models request = m0 :: rest
    /\ summary_lines fr (summary_header request) = Ok prompt
    /\ call_model (post_at client SummaryCall) m0 (api_keys request)
         [{| role := "user"; content := prompt +:+ summary_footer |}]
         (Some summary_system) = Ok summary.
Proof.
  unfold conclude. rewrite sbind_get.
  destruct (rmapM _ s) as [fr|e] eqn:Hfr; [|done]. rewrite sbind_lift_Ok.
  destruct (analyze_consensus fr) as [a'|e] eqn:Ha; [|done]. rewrite sbind_lift_Ok.
  destruct (models request) as [|m0 rest] eqn:Hm; [done|]. rewrite sbind_lift_Ok.
  destruct (summary_lines fr (summary_header request)) as [prompt|e] eqn:Hp; [|done].
  rewrite sbind_lift_Ok.
  destruct (call_model _ m0 _ _ _) as [summary'|e] eqn:Hcall; [|done].
  rewrite sbind_lift_Ok. unfold sbind, yield. cbn [app].
  intros Heq. assert (summary' = summary /\ a' = a) as [-> ->].
  { by injection Heq as -> ->. }
  by exists fr, m0, rest, prompt.
Qed.

Lemma consensus_event_emitted request client summary a :
  ConsensusEvent summary a ∈ events_of (debate request client) ->
  raised_of (debate request client) = None
  /\ conclude request client (final_state (debate request client))
     = ([(ConsensusEvent summary a, final_state (debate request client));
         (DoneEvent, final_state (debate request client))],
        final_state (debate request client), Ok tt).
Proof.
  unfold events_of, raised_of, final_state. rewrite debate_unfold.
  destruct (rounds_loop_keys request client (range 1 (rounds request + 1))
              (init_state (models request) [])) as (Hround & _ & _).
  cbv zeta in Hround.
  destruct (for_each _ _ _) as [[log s] [[]|e]]; cbn [fst snd] in *.
  - destruct (conclude_cases request client s) as [(summary' & a' & Hc)|(e & Hc)];
      rewrite Hc; cbn [fst snd].
    + rewrite map_app, elem_of_app. intros [Hin|Hin].
      * apply (proj1 (Forall_forall _ _) Hround) in Hin. by destruct Hin.
      * cbn [map fst] in Hin. apply elem_of_cons in Hin as [Heq|Hin].
        -- by injection Heq as <- <-.
        -- by apply list_elem_of_singleton in Hin.
    + rewrite app_nil_r. intros Hin.
      apply (proj1 (Forall_forall _ _) Hround) in Hin. by destruct Hin.
  - intros Hin. apply (proj1 (Forall_forall _ _) Hround) in Hin. by destruct Hin.
Qed.

Lemma final_responses_values (s : DebateState) fr :
  rmapM (fun '(model_id, responses) =>
           v <- getitem_last responses ;; Ok (model_id, v))%result s = Ok fr ->
  Forall2 (fun (mh : string * list json) (mv : string * json) =>
             mv.1 = mh.1 /\ last mh.2 = Some mv.2) s fr.
Proof.
  rewrite rmapM_Ok_Forall2. intros H. eapply Forall2_impl; [exact H|].
  intros [m h] [m' v]. cbn [fst snd].
  unfold getitem_last. destruct (last h) as [v0|]; cbn [rbind]; [|done].
  by intros [= -> ->].
Qed.

Lemma analyze_consensus_fields fr a :
  analyze_consensus fr = Ok a ->
  models_compared a = keys fr
  /\ Forall2 (fun (mv : string * json) (mn : string * Z) =>
                exists t, mv.2 = JStr t /\ mn = (mv.1, len t)) fr (response_lengths a)
  /\ (length (common_themes a) <= 10)%nat.
Proof.
  unfold analyze_consensus.
  destruct (rmapM (fun '(model, resp) =>
                     low <- str_lower resp ;; Ok (model, remove_dups (split low)))%result
                  fr) as [ws|e] eqn:Hw; cbn [rbind]; [|done].
  match goal with
  | |- context [rbind ?c _] => destruct c as [mc|e]; cbn [rbind]; [|done]
  end.
  destruct (rmapM (fun '(model, resp) => n <- py_len resp ;; Ok (model, n))%result fr)
    as [ls|e] eqn:Hl; cbn [rbind]; [|done].
  intros [= <-]. cbn [models_compared response_lengths common_themes].
  split; [done|]. split; [|rewrite length_take; lia].
  apply rmapM_Ok_Forall2 in Hl. apply rmapM_Ok_Forall2 in Hw.
  clear -Hl Hw. revert ws Hw. induction Hl as [|[m v] [m' n] fr ls Hv _ IH]; intros ws Hw;
    [constructor|].
  inversion Hw as [|? w ? ws' Hlow Hws]; subst. constructor; [|by eapply IH].
  cbn [fst snd]. destruct v; cbn [str_lower rbind] in Hlow; try done.
  cbn [py_len rbind] in Hv. injection Hv as <- <-. by eexists.
Qed.

(** X8: a consensus event compares the participants that have a history
    at the end of the debate: each listed participant once, in the order
    of [request.models] when no id is listed twice; it gives for each the
    character length of its last response, which is text; and it holds at
    most ten common themes. *)
Theorem consensus_event_analysis :
  forall request client summary a,
    ConsensusEvent summary a ∈ events_of (debate request client) ->
    models_compared a = keys (final_state (debate request client))
    /\ NoDup (models_compared a)
    /\ (forall m, m ∈ models_compared a <-> m ∈ models request)
    /\ (NoDup (models request) -> models_compared a = models request)
    /\ response_lengths a
       = map (fun mh : string * list json => (mh.1, len (last_text mh.2)))
           (final_state (debate request client))
    /\ final_text (final_state (debate request client)) = true
    /\ (length (common_themes a) <= 10)%nat.
Proof.
  intros request client summary a Hin.
  destruct (consensus_event_emitted request client summary a Hin) as [Hdone Hc].
  destruct (conclude_emits _ _ _ _ _ Hc) as (fr & m0 & rest & prompt & Hfr & Ha & Hm & _).
  destruct (analyze_consensus_fields fr a Ha) as (Hmc & Hlens & Hcap).
  pose proof (final_responses_values _ _ Hfr) as Hvals.
  assert (models request <> []) as Hne by (by rewrite Hm).
  destruct (completed_debate request client Hdone Hne) as [Hr Hk].
  assert (keys (final_state (debate request client))
          = keys (init_state (models request) [])) as Hkeys.
  { rewrite final_state_after_rounds by done.
    apply rounds_loop_returns. by apply init_state_ready. }
  assert (keys fr = keys (final_state (debate request client))) as Hfk.
  { clear -Hvals. induction Hvals as [|[m h] [m' v] s fr [Hmm _] _ IH]; [done|].
    cbn [keys map fst] in *. cbn [fst] in Hmm. by f_equal. }
  rewrite Hmc, Hfk. split; [done|]. split.
  { rewrite Hkeys. apply NoDup_keys_init_state, NoDup_nil_2. }
  split.
  { intros m. rewrite Hkeys, init_state_keys. split; [|by right].
    intros [H|H]; [by apply elem_of_nil in H|done]. }
  split.
  { intros Hnd. rewrite Hkeys, keys_init_state; [done|done|].
    intros ? ?. apply not_elem_of_nil. }
  split; [|split; [|done]].
  - clear -Hvals Hlens. revert Hlens. generalize (response_lengths a) as ls.
    induction Hvals as [|[m h] [m' v] s fr [Hmm Hl] _ IH]; intros ls Hlens.
    + by inversion Hlens.
    + inversion Hlens as [|? [m'' n] ? ls' (t & Ht & Hn) Hrest]; subst.
      cbn [map fst snd] in *. f_equal; [|by apply IH].
      rewrite Hn, Hmm. unfold last_text. by rewrite Hl, Ht.
  - clear -Hvals Hlens. revert Hlens. generalize (response_lengths a) as ls.
    unfold final_text.
    induction Hvals as [|[m h] [m' v] s fr [Hmm Hl] _ IH]; intros ls Hlens; [done|].
    inversion Hlens as [|? [m'' n] ? ls' (t & Ht & Hn) Hrest]; subst.
    cbn [forallb fst snd] in *. rewrite Hl, Ht. cbn [andb]. by eapply IH.
Qed.

Lemma summary_lines_holds fr acc prompt :
  summary_lines fr acc = Ok prompt ->
  (exists rest, prompt = acc +:+ rest)
  /\ forall m v,
       (m, v) ∈ fr ->
       exists cfg, assoc m MODELS = Some cfg
                   /\ contains prompt ("**" +:+ name cfg +:+ "**: " +:+ py_str v).
Proof.
  revert acc. induction fr as [|[m v] fr IH]; intros acc; cbn [summary_lines].
  - intros [= <-]. split; [exists ""; by rewrite append_empty_r|].
    intros ? ? Hin. by apply elem_of_nil in Hin.
  - unfold MODELS_getitem. destruct (assoc m MODELS) as [cfg|] eqn:Hc; cbn [rbind]; [|done].
    intros Hs. destruct (IH _ Hs) as [[rest Hrest] Hall].
    set (line := "**" +:+ name cfg +:+ "**: " +:+ py_str v).
    assert (prompt = acc +:+ line +:+ (nl +:+ nl +:+ rest)) as Hp.
    { rewrite Hrest. subst line. by rewrite !append_assoc. }
    split; [by eexists|].
    intros m' v' Hin. apply elem_of_cons in Hin as [Heq|Hin]; [|by apply Hall].
    injection Heq as -> ->. exists cfg. split; [done|].
    rewrite Hp. apply contains_later, contains_here.
Qed.

(** X9: the summary a consensus event carries is what the call to the
    first listed participant returned, made under the neutral-analyst
    instruction with one user turn; that turn holds the question and,
    for every participant with a history, its last response after its
    display name. *)
Theorem consensus_event_summary :
  forall request client summary a,
    ConsensusEvent summary a ∈ events_of (debate request client) ->
    exists m0 rest text,
      models request = m0 :: rest
      /\ call_model (post_at client SummaryCall) m0 (api_keys request)
           [{| role := "user"; content := text |}] (Some summary_system)
         = Ok summary
      /\ contains text (question request)
      /\ forall m h v,
           (m, h) ∈ final_state (debate request client) -> last h = Some v ->
           exists cfg, assoc m MODELS = Some cfg
                       /\ contains text ("**" +:+ name cfg +:+ "**: " +:+ py_str v).
Proof.
  intros request client summary a Hin.
  destruct (consensus_event_emitted request client summary a Hin) as [_ Hc].
  destruct (conclude_emits _ _ _ _ _ Hc)
    as (fr & m0 & rest & prompt & Hfr & _ & Hm & Hp & Hcall).
  pose proof (final_responses_values _ _ Hfr) as Hvals.
  destruct (summary_lines_holds _ _ _ Hp) as [[tail Htail] Hall].
  exists m0, rest, (prompt +:+ summary_footer). split; [done|]. split; [done|]. split.
  - apply contains_earlier. rewrite Htail. apply contains_earlier.
    unfold summary_header. do 2 apply contains_later. apply contains_here.
  - intros m h v Hmh Hl.
    assert ((m, v) ∈ fr) as Hmv.
    { clear -Hvals Hmh Hl. induction Hvals as [|[m1 h1] [m2 v2] s fr [Hmm Hlast] _ IH];
        [by apply elem_of_nil in Hmh|].
      cbn [fst snd] in *. apply elem_of_cons in Hmh as [Heq|Hmh].
      - injection Heq as -> ->. subst. rewrite Hl in Hlast. injection Hlast as ->.
        apply list_elem_of_here.
      - by apply list_elem_of_further, IH. }
    destruct (Hall m v Hmv) as (cfg & Hcfg & Hcont).
    exists cfg. split; [done|]. by apply contains_earlier.
Qed.

(** ** analyze_consensus on any responses *)

(** X10: [analyze_consensus] returns exactly on the dicts whose
    responses are all text, with the participants in dict order and one
    length per participant; on any other dict it raises the
    AttributeError of [resp.lower()]. *)
Theorem analyze_consensus_needs_text :
  forall fr : list (string * json),
    if forallb is_text (map snd fr) then
      exists a,
        analyze_consensus fr = Ok a
        /\ models_compared a = keys fr
        /\ map fst (response_lengths a) = keys fr
    else analyze_consensus fr = Raise AttributeError.
Proof.
  intros fr. destruct (forallb is_text (map snd fr)) eqn:Ht.
  - destruct (analyze_consensus_returns fr Ht) as [a Ha]. exists a.
    destruct (analyze_consensus_fields fr a Ha) as (Hm & Hl & _).
    split; [done|]. split; [done|].
    clear -Hl. induction Hl as [|[m v] [m' n] fr ls (t & _ & Hn) _ IH]; [done|].
    cbn [map fst keys] in *. injection Hn as -> _. by f_equal.
  - by apply analyze_consensus_raises.
Qed.

(** ** The tokens *)

Lemma chars_app (a b : string) : chars (a +:+ b) = chars a ++ chars b.
Proof.
  unfold chars. induction a as [|c a IH]; [done|].
  change (String c a +:+ b) with (String c (a +:+ b)). cbn. by rewrite IH.
Qed.

Lemma chars_contains s t (P : ascii -> Prop) :
  contains s t -> Forall P (chars s) -> Forall P (chars t).
Proof.
  intros (before & after & ->). rewrite !chars_app, !Forall_app. tauto.
Qed.

Lemma lower_char_idemp c : lower_char (lower_char c) = lower_char c.
Proof. destruct c as [[] [] [] [] [] [] [] []]; reflexivity. Qed.

Lemma chars_lower s : Forall (fun c => lower_char c = c) (chars (lower s)).
Proof.
  unfold chars. induction s as [|c s IH]; cbn; constructor; [|done].
  apply lower_char_idemp.
Qed.

Lemma lower_fixed t : Forall (fun c => lower_char c = c) (chars t) -> lower t = t.
Proof.
  unfold chars. induction t as [|c t IH]; cbn; [done|].
  intros [Hc Ht]%Forall_cons. by rewrite Hc, IH.
Qed.

Lemma split_go_tokens s :
  (exists after, s = (split_go s).1 +:+ after)
  /\ Forall (fun c => isspace c = false) (chars (split_go s).1)
  /\ Forall (fun t => t <> "" /\ Forall (fun c => isspace c = false) (chars t)
                      /\ contains s t) (split_go s).2.
Proof.
  induction s as [|c s (Hprefix & Hw & Hws)]; cbn [split_go].
  - split; [by exists ""|]. split; constructor.
  - destruct (split_go s) as [w ws]. cbn [fst snd] in *.
    assert (Forall (fun t => t <> "" /\ Forall (fun c => isspace c = false) (chars t)
                             /\ contains (String c s) t) ws) as Hws'.
    { eapply Forall_impl; [exact Hws|]. intros t (? & ? & Hc).
      split; [done|]. split; [done|].
      change (String c s) with (String c "" +:+ s). by apply contains_later. }
    destruct (isspace c) eqn:Hsp; cbn [fst snd].
    + split; [by exists (String c s)|]. split; [constructor|].
      destruct w as [|c' w]; [done|]. cbn [cons_token]. constructor; [|done].
      split; [done|]. split; [done|].
      destruct Hprefix as [after ->].
      change (String c (String c' w +:+ after))
        with (String c "" +:+ (String c' w +:+ after)).
      apply contains_later, contains_here.
    + split; [|split; [|done]].
      * destruct Hprefix as [after ->]. by exists after.
      * unfold chars. cbn. constructor; done.
Qed.

Lemma split_tokens s t :
  t ∈ split s ->
  t <> "" /\ Forall (fun c => isspace c = false) (chars t) /\ contains s t.
Proof.
  unfold split. destruct (split_go_tokens s) as (Hprefix & Hw & Hws).
  destruct (split_go s) as [w ws]. cbn [fst snd] in *.
  destruct w as [|c w]; cbn [cons_token].
  - intros Hin. by apply (proj1 (Forall_forall _ _) Hws).
  - intros Hin. apply elem_of_cons in Hin as [->|Hin];
      [|by apply (proj1 (Forall_forall _ _) Hws)].
    split; [done|]. split; [done|]. destruct Hprefix as [after ->].
    apply contains_here.
Qed.

(** X11: every common theme that [analyze_consensus] reports for text
    responses is a word of each response as lower-cased: it is in lower
    case, holds no white space, and occurs as it is in the lower-cased
    text of every participant. *)
Theorem common_themes_are_words_of_every_response :
  iteration_lists_the_set ->
  forall rs : list (string * string),
    exists a,
      analyze_consensus (text_dict rs) = Ok a
      /\ forall t,
           t ∈ common_themes a ->
           lower t = t
           /\ Forall (fun c => isspace c = false) (chars t)
           /\ forall m r, (m, r) ∈ rs -> contains (lower r) t.
Proof.
  intros Hperm rs. eexists. split; [apply analyze_consensus_text|].
  cbn [common_themes]. intros t Ht.
  apply elem_of_take in Ht as (i & Hi & _).
  assert (t ∈ shared_terms rs) as Hin.
  { rewrite <- (Hperm (shared_terms rs)). apply list_elem_of_lookup. eauto. }
  destruct (decide (2 <= length rs)%nat) as [Hlen|Hlen].
  - apply elem_of_shared_terms in Hin as (Hall & _ & _); [|done].
    assert (forall m r, (m, r) ∈ rs ->
               Forall (fun c => isspace c = false) (chars t) /\ contains (lower r) t)
      as Hword.
    { intros m r Hmr. by destruct (split_tokens _ _ (Hall m r Hmr)) as (_ & ? & ?). }
    destruct rs as [|[m0 r0] rs]; [simpl in Hlen; lia|].
    destruct (Hword m0 r0 (list_elem_of_here _ _)) as [Hsp Hc].
    split; [|split; [done|]].
    + apply lower_fixed. eapply chars_contains; [exact Hc|apply chars_lower].
    + intros m r Hmr. by apply (Hword m r).
  - unfold shared_terms in Hin.
    destruct rs as [|[m1 r1] [|[m2 r2] rs]]; cbn [map] in Hin;
      try (by apply elem_of_nil in Hin). simpl in Hlen. lia.
Qed.

Lemma meaningful_common_perm rs rs' t :
  rs ≡ₚ rs' -> meaningful_common rs t -> meaningful_common rs' t.
Proof.
  intros Hp (Hall & ? & ?). split; [|done].
  intros m r Hin. apply (Hall m). by rewrite Hp.
Qed.

Lemma shared_terms_perm rs rs' : rs ≡ₚ rs' -> shared_terms rs ≡ₚ shared_terms rs'.
Proof.
  intros Hp. pose proof (Permutation_length Hp) as Hlen.
  destruct (decide (2 <= length rs)%nat) as [H2|H2].
  - apply NoDup_Permutation; [apply NoDup_shared_terms..|].
    intros t. rewrite !elem_of_shared_terms by lia.
    split; apply meaningful_common_perm; [done|by symmetry].
  - assert (shared_terms rs = [] /\ shared_terms rs' = []) as [-> ->]; [|done].
    unfold shared_terms.
    destruct rs as [|? [|? ?]], rs' as [|? [|? ?]]; simpl in *; try lia; done.
Qed.

(** X12: the common themes do not depend on the order of the
    participants: for two dicts of text responses that hold the same
    entries in another order, and that share at most ten terms, the
    themes reported are the same up to their order, and so are the
    participants compared and the lengths. *)
Theorem common_themes_ignore_participant_order :
  iteration_lists_the_set ->
  forall rs rs' : list (string * string),
    rs ≡ₚ rs' ->
    (length (shared_terms rs) <= 10)%nat ->
    exists a a',
      analyze_consensus (text_dict rs) = Ok a
      /\ analyze_consensus (text_dict rs') = Ok a'
      /\ common_themes a ≡ₚ common_themes a'
      /\ models_compared a ≡ₚ models_compared a'
      /\ response_lengths a ≡ₚ response_lengths a'.
Proof.
  intros Hperm rs rs' Hp Hlen. do 2 eexists.
  split; [apply analyze_consensus_text|]. split; [apply analyze_consensus_text|].
  cbn [common_themes models_compared response_lengths].
  pose proof (shared_terms_perm rs rs' Hp) as Hst.
  split; [|split].
  - rewrite !take_ge.
    + by rewrite (Hperm (shared_terms rs)), (Hperm (shared_terms rs')).
    + rewrite (Permutation_length (Hperm (shared_terms rs'))).
      by rewrite <- (Permutation_length Hst).
    + by rewrite (Permutation_length (Hperm (shared_terms rs))).
  - unfold keys. by apply Permutation_map.
  - by apply Permutation_map.
Qed.

(** ** The error text of a provider *)

(** X13: on a response whose status is not 200 every adapter returns
    the text [<Provider> API Error (<status>): <detail>], where the
    detail is the [message] of the [error] object of the body when the
    body is a JSON object with such an object, and the raw body text in
    every other case (no JSON, no object, no [error] object, no
    [message]). *)
Theorem error_text_of_a_provider :
  forall (p : provider) post api_key messages system status_code text parsed,
    post (request_of p api_key messages system) = Responds status_code text parsed ->
    status_code <> 200 ->
    adapter p post api_key messages system
    = Ok (JStr (provider_name p +:+ " API Error (" +:+ pretty status_code +:+ "): "
                +:+ match structured_message parsed with
                    | Some message => py_str message
                    | None => text
                    end)).
Proof.
  intros p post api_key messages system st text parsed Hpost Hst.
  assert (negb (st =? 200) = true) as Hne.
  { apply negb_true_iff, Z.eqb_neq. done. }
  pose proof (error_detail_structured text parsed) as Hd.
  destruct p; cbn [adapter request_of provider_name] in *;
    unfold call_claude, call_gpt, call_gemini, claude_try, gpt_try, gemini_try;
    rewrite Hpost, Hne, Hd; by destruct (structured_message parsed).
Qed.

(** ** The requests the adapters send *)

Lemma mapM_message_json messages :
  mapM message_of_json (map message_json messages) = Some messages.
Proof.
  apply mapM_Some. induction messages as [|[r c] messages IH]; cbn [map];
    constructor; done.
Qed.

(** X14: the conversation handed to [call_claude] or [call_gpt] can be
    read back from the request body in full and in order.  A system
    prompt that is given and not empty goes to Claude as the [system]
    member of the body and to GPT as a first message of role [system];
    [None] and the empty prompt leave no trace in either.  The
    credential is in the [x-api-key] header, or in [Authorization] after
    [Bearer ], and neither the URL nor the body depends on it. *)
Theorem conversation_reaches_claude_and_gpt :
  forall api_key messages system,
    sent_messages (claude_request api_key messages system) = Some messages
    /\ member "system" (payload (claude_request api_key messages system))
       = JStr <$> system_given system
    /\ sent_messages (gpt_request api_key messages system)
       = Some (match system_given system with
               | Some text => [{| role := "system"; content := text |}]
               | None => []
               end ++ messages)
    /\ assoc "x-api-key" (headers (claude_request api_key messages system))
       = Some api_key
    /\ assoc "Authorization" (headers (gpt_request api_key messages system))
       = Some ("Bearer " +:+ api_key)
    /\ forall other_key,
         url (claude_request other_key messages system)
         = url (claude_request api_key messages system)
         /\ payload (claude_request other_key messages system)
            = payload (claude_request api_key messages system)
         /\ url (gpt_request other_key messages system)
            = url (gpt_request api_key messages system)
         /\ payload (gpt_request other_key messages system)
            = payload (gpt_request api_key messages system).
Proof.
  intros api_key messages system.
  pose proof (mapM_message_json messages) as Hm.
  pose proof (fun m => mapM_message_json (m :: messages)) as Hm'.
  unfold sent_messages, claude_request, gpt_request.
  destruct system as [[|c text]|];
    cbn [truthy system_given payload headers url member assoc app map fmap option_fmap
         option_map String.eqb Ascii.eqb Bool.eqb default from_option id fst snd];
    repeat split; try done; apply Hm'.
Qed.

Lemma mapM_gemini_content messages :
  mapM turn_of_json (map gemini_content messages)
  = Some (map (fun m => (if decide (role m = "user") then "user" else "model",
                         content m)) messages).
Proof.
  apply mapM_Some. induction messages as [|[r c] messages IH]; cbn [map];
    constructor; [|done].
  unfold gemini_content. cbn [role content].
  destruct (String.eqb_spec r "user") as [->|Hne].
  - by rewrite decide_True.
  - by rewrite decide_False.
Qed.

(** X15: [call_gemini] sends the conversation as one turn per message,
    in order, each with the text of the message as its only part; the
    role of a turn is [user] for a message of role [user] and [model] for
    every other role.  A system prompt that is given and not empty is
    the [systemInstruction] of the body.  The request has no header, and
    its body does not depend on the credential. *)
Theorem conversation_reaches_gemini :
  forall api_key messages system,
    sent_contents (gemini_request api_key messages system)
    = Some (map (fun m => (if decide (role m = "user") then "user" else "model",
                           content m)) messages)
    /\ member "systemInstruction" (payload (gemini_request api_key messages system))
       = (fun text => JObj [("parts", JArr [JObj [("text", JStr text)]])])
           <$> system_given system
    /\ headers (gemini_request api_key messages system) = []
    /\ forall other_key,
         payload (gemini_request other_key messages system)
         = payload (gemini_request api_key messages system).
Proof.
  intros api_key messages system.
  pose proof (mapM_gemini_content messages) as Hm.
  unfold sent_contents, gemini_request.
  destruct system as [[|c text]|];
    cbn [truthy system_given payload headers url member assoc app fmap option_fmap
         option_map String.eqb Ascii.eqb Bool.eqb default from_option id fst snd];
    repeat split; done.
Qed.

(** ** The credentials a debate reads *)

Lemma call_model_credentials post model_id api_keys api_keys' messages system :
  (forall family, assoc model_id required_keys = Some family ->
                  assoc family api_keys' = assoc family api_keys) ->
  call_model post model_id api_keys' messages system
  = call_model post model_id api_keys messages system.
Proof.
  intros H. unfold call_model, api_key_of.
  destruct (String.eqb_spec model_id "claude") as [->|_];
    [by rewrite (H "anthropic" eq_refl)|].
  destruct (String.eqb_spec model_id "gpt") as [->|_];
    [by rewrite (H "openai" eq_refl)|].
  destruct (String.eqb_spec model_id "gemini") as [->|_];
    [by rewrite (H "google" eq_refl)|].
  done.
Qed.

Lemma build_tasks_models request round_num s tasks :
  build_tasks request round_num s = Ok tasks ->
  map task_model tasks = models request.
Proof.
  unfold build_tasks. intros H%rmapM_Ok_Forall2.
  induction H as [|m t ms ts Ht _ IH]; [done|]. cbn [map]. f_equal; [|done].
  unfold make_task in Ht. destruct (build_prompt _ _ _ _); [|done].
  cbn [rbind] in Ht. by injection Ht as <-.
Qed.

Section Credentials.

Variable request : DebateRequest.
Variable api_keys' : list (string * string).
Hypothesis same_keys :
  forall model_id family,
    model_id ∈ models request -> assoc model_id required_keys = Some family ->
    assoc family api_keys' = assoc family (api_keys request).

Lemma round_run_credentials client round_num s :
  round_run (with_api_keys request api_keys') client round_num s
  = round_run request client round_num s.
Proof.
  unfold round_run.
  change (build_tasks (with_api_keys request api_keys') round_num s)
    with (build_tasks request round_num s).
  destruct (build_tasks request round_num s) as [tasks|e] eqn:Ht; [|done].
  apply build_tasks_models in Ht.
  assert (round_results (with_api_keys request api_keys') client round_num tasks
          = round_results request client round_num tasks) as ->; [|done].
  unfold round_results. apply imap_ext. intros i t Hi. f_equal.
  unfold run_task. cbn [api_keys with_api_keys].
  apply call_model_credentials. intros family. apply same_keys.
  rewrite <- Ht. change (task_model t ∈ task_model <$> tasks).
  apply list_elem_of_fmap_2. apply list_elem_of_lookup. eauto.
Qed.

Lemma conclude_credentials client s :
  conclude (with_api_keys request api_keys') client s = conclude request client s.
Proof.
  unfold conclude. cbn [models api_keys with_api_keys].
  change (summary_header (with_api_keys request api_keys'))
    with (summary_header request).
  apply sbind_ext. intros all_responses s1.
  apply sbind_ext. intros final_responses s2.
  apply sbind_ext. intros consensus s3.
  pose proof same_keys as Hk.
  destruct (models request) as [|m l]; [by rewrite !sbind_lift_Raise|].
  rewrite !sbind_lift_Ok.
  apply sbind_ext. intros summary_prompt s4.
  rewrite (call_model_credentials _ m (api_keys request) api_keys'); [done|].
  intros family. apply Hk. apply list_elem_of_here.
Qed.

End Credentials.

(** X16: a debate reads from [api_keys] the credentials of its
    participants and nothing else: with any other [api_keys] that has
    the same entry, or the same lack of one, under the key family of
    every listed participant, the same request on the same network gives
    the same events, the same histories and the same end. *)
Theorem debate_reads_the_keys_of_its_participants :
  forall request client api_keys',
    (forall model_id family,
        model_id ∈ models request -> assoc model_id required_keys = Some family ->
        assoc family api_keys' = assoc family (api_keys request)) ->
    debate (with_api_keys request api_keys') client = debate request client.
Proof.
  intros request client api_keys' Hsame.
  unfold debate, run_debate_stream. cbn [rounds with_api_keys].
  change (init_histories (with_api_keys request api_keys'))
    with (init_histories request).
  apply sbind_ext. intros [] s.
  apply sbind_ext_both.
  - unfold for_each. apply for_fold_ext.
    intros [] k s'. rewrite !debate_round_run. by apply round_run_credentials.
  - intros [] s'. by apply conclude_credentials.
Qed.

(** ** Fewer rounds *)

Lemma for_each_app_log {A} (l1 l2 : list A) (body : A -> stream unit) s :
  (for_each l1 body s).1.1 `prefix_of` (for_each (l1 ++ l2) body s).1.1.
Proof.
  unfold for_each. revert s. induction l1 as [|x l1 IH]; intros s;
    cbn [app for_fold].
  - apply prefix_nil.
  - unfold sbind. destruct (body x s) as [[log s'] [[]|e]]; [|done].
    specialize (IH s').
    destruct (for_fold l1 () _ s') as [[log1 s1] r1].
    destruct (for_fold (l1 ++ l2) () _ s') as [[log2 s2] r2].
    cbn [fst snd] in *. by apply prefix_app.
Qed.

Lemma round_part_all evs : Forall is_round evs -> round_part evs = evs.
Proof.
  unfold round_part. induction 1 as [|e evs [k Hk] _ IH]; [done|].
  cbn [List.filter]. by rewrite Hk, IH.
Qed.

Lemma round_part_app evs evs' : round_part (evs ++ evs') = round_part evs ++ round_part evs'.
Proof. apply List.filter_app. Qed.

Lemma round_part_debate request client :
  round_part (events_of (debate request client))
  = map fst (for_each (range 1 (rounds request + 1)) (debate_round request client)
               (init_state (models request) [])).1.1.
Proof.
  unfold events_of. rewrite debate_unfold.
  destruct (rounds_loop_keys request client (range 1 (rounds request + 1))
              (init_state (models request) [])) as (Hround & _).
  cbv zeta in Hround.
  destruct (for_each _ _ _) as [[log s] [[]|e]]; cbn [fst snd] in *;
    [|by apply round_part_all].
  destruct (conclude_cases request client s) as [(summary & a & ->)|(e & ->)];
    cbn [fst snd].
  - rewrite map_app, round_part_app, round_part_all by done. cbn. apply app_nil_r.
  - rewrite app_nil_r. by apply round_part_all.
Qed.

(** X17: the round events of a debate do not depend on the rounds that
    follow them: the same request with fewer rounds, on the same
    network, yields as its round events a prefix of the round events of
    the longer debate. *)
Theorem fewer_rounds_yield_a_prefix :
  forall request client n n',
    n <= n' ->
    round_part (events_of (debate (with_rounds request n) client))
      `prefix_of` round_part (events_of (debate (with_rounds request n') client)).
Proof.
  intros request client n n' Hle. rewrite !round_part_debate.
  cbn [rounds models with_rounds].
  change (debate_round (with_rounds request n) client)
    with (debate_round request client).
  change (debate_round (with_rounds request n') client)
    with (debate_round request client).
  unfold range.
  destruct (decide (n <= 0)) as [Hn|Hn].
  - assert (seqZ 1 (n + 1 - 1) = []) as ->; [|apply prefix_nil].
    unfold seqZ. replace (Z.to_nat (n + 1 - 1)) with 0%nat by lia. done.
  - replace (n' + 1 - 1) with ((n + 1 - 1) + (n' - n)) by lia.
    rewrite seqZ_app by lia.
    destruct (for_each_app_log (seqZ 1 (n + 1 - 1)) (seqZ (1 + (n + 1 - 1)) (n' - n))
                (debate_round request client) (init_state (models request) []))
      as [k ->].
    rewrite map_app. by eexists.
Qed.

(** ** The themes of a consensus event *)

Lemma consensus_event_themes request client summary a :
  ConsensusEvent summary a ∈ events_of (debate request client) ->
  common_themes a
  = take 10 (set_iteration
               (shared_terms (final_texts (final_state (debate request client))))).
Proof.
  intros Hin.
  destruct (consensus_event_emitted request client summary a Hin) as [_ Hc].
  destruct (conclude_emits _ _ _ _ _ Hc) as (fr & m0 & rest & prompt & Hfr & Ha & _).
  destruct (analyze_consensus_fields fr a Ha) as (_ & Hlens & _).
  pose proof (final_responses_values _ _ Hfr) as Hvals.
  set (s := final_state (debate request client)) in *. clearbody s.
  assert (fr = text_dict (final_texts s)) as ->.
  { clear -Hvals Hlens. revert Hlens. generalize (response_lengths a) as ls.
    induction Hvals as [|[m h] [m' v] s fr [Hmm Hl] _ IH]; intros ls Hlens; [done|].
    inversion Hlens as [|? [m'' n] ? ls' (t & Ht & Hn) Hrest]; subst.
    cbn [final_texts text_dict map fst snd] in *. f_equal; [|by eapply IH].
    unfold last_text. by rewrite Hl, Ht, Hmm. }
  rewrite analyze_consensus_text in Ha. by injection Ha as <-.
Qed.

End Interpreter.

(** * Two interpreters *)

Section TwoInterpreters.

(** Two runs under interpreters that differ in the order in which they
    iterate a set (in CPython, in the hash seed of the process). *)
Variable exn_text : exn -> string.
Variable repr_other : json -> string.
Variables order1 order2 : list string -> list string.

Lemma analyze_consensus_orders fr :
  (exists e,
     analyze_consensus order1 fr = Raise e /\ analyze_consensus order2 fr = Raise e)
  \/ (exists names terms lengths,
        analyze_consensus order1 fr
        = Ok {| models_compared := names; common_themes := take 10 (order1 terms);
                response_lengths := lengths |}
        /\ analyze_consensus order2 fr
           = Ok {| models_compared := names; common_themes := take 10 (order2 terms);
                   response_lengths := lengths |}).
Proof.
  unfold analyze_consensus.
  destruct (rmapM (fun '(model, resp) =>
                     low <- str_lower resp ;; Ok (model, remove_dups (split low)))%result
                  fr) as [ws|e]; cbn [rbind]; [|left; by exists e].
  match goal with
  | |- context [rbind ?c _] => destruct c as [mc|e]; cbn [rbind]; [|left; by exists e]
  end.
  destruct (rmapM (fun '(model, resp) => n <- py_len resp ;; Ok (model, n))%result fr)
    as [ls|e]; cbn [rbind]; [|left; by exists e].
  right. by exists (map fst fr), mc, ls.
Qed.

Lemma conclude_orders request client s :
  (exists e,
     conclude exn_text repr_other order1 request client s = ([], s, Raise e)
     /\ conclude exn_text repr_other order2 request client s = ([], s, Raise e))
  \/ (exists summary names terms lengths,
        conclude exn_text repr_other order1 request client s
        = ([(ConsensusEvent summary
               {| models_compared := names; common_themes := take 10 (order1 terms);
                  response_lengths := lengths |}, s); (DoneEvent, s)], s, Ok tt)
        /\ conclude exn_text repr_other order2 request client s
           = ([(ConsensusEvent summary
                  {| models_compared := names; common_themes := take 10 (order2 terms);
                     response_lengths := lengths |}, s); (DoneEvent, s)], s, Ok tt)).
Proof.
  unfold conclude. rewrite !sbind_get.
  destruct (rmapM _ s) as [fr|e]; [|left; by exists e].
  rewrite !sbind_lift_Ok.
  destruct (analyze_consensus_orders fr)
    as [(e & -> & ->)|(names & terms & lengths & -> & ->)]; [left; by exists e|].
  rewrite !sbind_lift_Ok.
  destruct (models request) as [|m l]; [left; by exists IndexError|].
  rewrite !sbind_lift_Ok.
  destruct (summary_lines repr_other fr (summary_header request)) as [prompt|e];
    [|left; by exists e].
  rewrite !sbind_lift_Ok.
  destruct (call_model exn_text repr_other _ m _ _ _) as [summary|e];
    [|left; by exists e].
  rewrite !sbind_lift_Ok. right. by exists summary, names, terms, lengths.
Qed.

Lemma debate_orders request client :
  exists log s,
    (exists e,
       debate exn_text repr_other order1 request client = (log, s, Raise e)
       /\ debate exn_text repr_other order2 request client = (log, s, Raise e))
    \/ (exists summary names terms lengths,
          debate exn_text repr_other order1 request client
          = (log ++ [(ConsensusEvent summary
                        {| models_compared := names;
                           common_themes := take 10 (order1 terms);
                           response_lengths := lengths |}, s); (DoneEvent, s)],
             s, Ok tt)
          /\ debate exn_text repr_other order2 request client
             = (log ++ [(ConsensusEvent summary
                           {| models_compared := names;
                              common_themes := take 10 (order2 terms);
                              response_lengths := lengths |}, s); (DoneEvent, s)],
                s, Ok tt)).
Proof.
  rewrite !debate_unfold.
  destruct (for_each _ _ _) as [[log s] [[]|e]].
  - destruct (conclude_orders request client s)
      as [(e & -> & ->)|(summary & names & terms & lengths & -> & ->)].
    + exists log, s. left. exists e. by rewrite app_nil_r.
    + exists log, s. right. by exists summary, names, terms, lengths.
  - exists log, s. left. by exists e.
Qed.

(** C9, as amended: two runs of the same request in which every adapter
    call returns the same value, under interpreters that may iterate sets
    in different orders and on networks of any latencies, yield the same
    events but for the common themes of the consensus event, end the same
    way and leave the same histories.  The common themes of each run are
    the first ten, in the order of its interpreter, of the shared terms
    of the final responses: the two lists are the same up to order when
    both orders list the set and at most ten terms are shared, and the
    two event sequences are identical when both interpreters iterate
    sets in the same order. *)
Theorem same_returns_same_stream_but_theme_order :
  forall request c1 c2,
    same_returns exn_text repr_other request c1 c2 ->
    let run1 := debate exn_text repr_other order1 request c1 in
    let run2 := debate exn_text repr_other order2 request c2 in
    map without_themes (events_of run1) = map without_themes (events_of run2)
    /\ raised_of run1 = raised_of run2
    /\ final_state run1 = final_state run2
    /\ (forall summary a,
          ConsensusEvent summary a ∈ events_of run1 ->
          common_themes a
          = take 10 (order1 (shared_terms (final_texts (final_state run1)))))
    /\ (forall summary a,
          ConsensusEvent summary a ∈ events_of run2 ->
          common_themes a
          = take 10 (order2 (shared_terms (final_texts (final_state run2)))))
    /\ (iteration_lists_the_set order1 -> iteration_lists_the_set order2 ->
        (length (shared_terms (final_texts (final_state run1))) <= 10)%nat ->
        forall summary1 a1 summary2 a2,
          ConsensusEvent summary1 a1 ∈ events_of run1 ->
          ConsensusEvent summary2 a2 ∈ events_of run2 ->
          common_themes a1 ≡ₚ common_themes a2)
    /\ ((forall l, order1 l = order2 l) -> events_of run1 = events_of run2).
Proof.
  intros request c1 c2 Hsame. cbv zeta.
  rewrite <- (debate_same exn_text repr_other order2 request c1 c2 Hsame).
  assert (final_state (debate exn_text repr_other order1 request c1)
          = final_state (debate exn_text repr_other order2 request c1)) as Hfinal.
  { destruct (debate_orders request c1)
      as (log & s & [(e & -> & ->)|(summary & names & terms & lengths & -> & ->)]);
      done. }
  split; [|split; [|split; [exact Hfinal|split; [|split; [|split]]]]].
  - destruct (debate_orders request c1)
      as (log & s & [(e & -> & ->)|(summary & names & terms & lengths & -> & ->)]);
      [done|].
    unfold events_of. cbn [fst snd]. by rewrite !map_app.
  - destruct (debate_orders request c1)
      as (log & s & [(e & -> & ->)|(summary & names & terms & lengths & -> & ->)]);
      done.
  - intros summary a. apply consensus_event_themes.
  - intros summary a. apply consensus_event_themes.
  - intros H1 H2 Hlen summary1 a1 summary2 a2 Hin1 Hin2.
    rewrite (consensus_event_themes _ _ _ _ _ _ _ Hin1).
    rewrite (consensus_event_themes _ _ _ _ _ _ _ Hin2).
    rewrite <- Hfinal.
    set (terms := shared_terms _) in *.
    rewrite !take_ge.
    + by rewrite (H1 terms), (H2 terms).
    + by rewrite (Permutation_length (H2 terms)).
    + by rewrite (Permutation_length (H1 terms)).
  - intros Hext.
    destruct (debate_orders request c1)
      as (log & s & [(e & -> & ->)|(summary & names & terms & lengths & -> & ->)]);
      [done|].
    by rewrite (Hext terms).
Qed.

End TwoInterpreters.

(** * The properties at sample inputs *)

Lemma adapter_returns_text_or_the_span_witness :
  call_gpt sample_exn_text sample_repr (fun _ => Raises TimeoutException)
    "k2" [] None = Ok (JStr "Error: GPT API request timed out")
  /\ call_gpt sample_exn_text sample_repr (post_at null_content SummaryCall)
       "k2" [] None = Ok JNull
  /\ call_gemini_turns sample_exn_text sample_repr (post_at null_content SummaryCall)
       "k2" [JObj [("content", JStr "What is a mind?")]] None
     = Raise (KeyError (JStr "role")).
Proof.
  split.
  - destruct (adapter_returns_text_or_the_span sample_exn_text sample_repr GPT
                (fun _ => Raises TimeoutException) "k2" [] None)
      as (_ & _ & Htimeout & _).
    apply Htimeout. reflexivity.
  - destruct (adapter_returns_text_or_the_span sample_exn_text sample_repr GPT
                (post_at null_content SummaryCall) "k2" [] None)
      as (_ & Htable & _ & _ & _ & _ & Hturns).
    split; [exact Htable|].
    apply (Hturns [JObj [("content", JStr "What is a mind?")]] (KeyError (JStr "role"))).
    reflexivity.
Defined.

Lemma no_rounds_raises_IndexError_witness :
  events_of (debate sample_exn_text sample_repr insertion_order
               (sample_request ["claude"; "gpt"] 0) timeouts) = []
  /\ raised_of (debate sample_exn_text sample_repr insertion_order
                  (sample_request ["claude"; "gpt"] 0) timeouts) = Some IndexError.
Proof.
  apply (no_rounds_raises_IndexError sample_exn_text sample_repr insertion_order
           (sample_request ["claude"; "gpt"] 0) timeouts); [reflexivity|discriminate].
Defined.

Lemma insertion_order_lists_the_set : iteration_lists_the_set insertion_order.
Proof. intros l. reflexivity. Defined.

Lemma analyze_consensus_spec_witness :
  exists a,
    analyze_consensus insertion_order
      (text_dict [("a", "The cat sat"); ("b", "A cat sat there")]) = Ok a
    /\ models_compared a = ["a"; "b"]
    /\ response_lengths a = [("a", 11); ("b", 15)]
    /\ common_themes a = [].
Proof.
  destruct (analyze_consensus_spec insertion_order insertion_order_lists_the_set
              [("a", "The cat sat"); ("b", "A cat sat there")])
    as (a & Ha & Hm & Hl & _ & _).
  { unfold keys. cbn [map fst]. apply NoDup_cons. split.
    - intros H. apply list_elem_of_singleton in H. discriminate.
    - apply NoDup_singleton. }
  exists a. repeat split; try assumption.
  vm_compute in Ha. injection Ha as <-. reflexivity.
Defined.

Lemma consciousness_is_common_theme_witness :
  exists a,
    analyze_consensus insertion_order
      [("a", JStr "Consciousness is hard"); ("b", JStr "there consciousness matters")]
    = Ok a
    /\ "consciousness" ∈ common_themes a.
Proof.
  destruct (consciousness_is_common_theme insertion_order insertion_order_lists_the_set
              "a" "b" "Consciousness is hard" "there consciousness matters")
    as (a & Ha & _ & Hin).
  - discriminate.
  - vm_compute. apply list_elem_of_here.
  - vm_compute. apply list_elem_of_further, list_elem_of_here.
  - exists a. split; [exact Ha|]. apply Hin. vm_compute. lia.
Defined.

(** C8 as stated fails: two responses that share eleven terms, the
    token [consciousness] among them, iterated in an order that lists it
    last; the ten places go to the other terms. *)
Lemma consciousness_cut_by_the_cap :
  "consciousness" ∈ split (lower eleven_terms)
  /\ exists a,
       analyze_consensus insertion_order
         [("a", JStr eleven_terms); ("b", JStr eleven_terms)] = Ok a
       /\ length (common_themes a) = 10%nat
       /\ "consciousness" ∉ common_themes a.
Proof.
  split.
  - vm_compute. do 10 apply list_elem_of_further. apply list_elem_of_here.
  - eexists. split; [vm_compute; reflexivity|]. split; [reflexivity|].
    apply (bool_decide_eq_false_1 _). vm_compute. reflexivity.
Qed.

Lemma unknown_participant_aborts_the_stream_witness :
  events_of (debate sample_exn_text sample_repr insertion_order
               (sample_request ["claude"; "llama"] 2) timeouts)
  = [RoundEvent 1 "claude" "Claude" "#D97706"
       (JStr "Error: Claude API request timed out") false]
  /\ raised_of (debate sample_exn_text sample_repr insertion_order
                  (sample_request ["claude"; "llama"] 2) timeouts)
     = Some (KeyError (JStr "llama"))
  /\ exists m,
       known m = false /\ m ∈ ["claude"; "llama"]
       /\ raised_of (debate sample_exn_text sample_repr insertion_order
                       (sample_request ["claude"; "llama"] 2) timeouts)
          = Some (KeyError (JStr m)).
Proof.
  split; [reflexivity|]. split; [reflexivity|].
  destruct (unknown_participant_aborts_the_stream sample_exn_text sample_repr
              insertion_order (sample_request ["claude"; "llama"] 2) timeouts)
    as (_ & m & Hk & Hin & Hraise & _).
  - cbn. lia.
  - apply Exists_cons_tl, Exists_cons_hd. reflexivity.
  - exists m. auto.
Defined.

Lemma stream_shape_and_its_abort_witness :
  exists round_events,
    Forall is_round round_events
    /\ Z.of_nat (length round_events) = 1
    /\ events_of (debate sample_exn_text sample_repr insertion_order
                    (sample_request ["gpt"] 1) null_content) = round_events
    /\ raised_of (debate sample_exn_text sample_repr insertion_order
                    (sample_request ["gpt"] 1) null_content) = Some AttributeError.
Proof.
  destruct (stream_shape_and_its_abort sample_exn_text sample_repr insertion_order
              (sample_request ["gpt"] 1) null_content)
    as (round_events & Hround & _ & Hlen & Hend);
    [reflexivity|discriminate|cbn; lia|].
  exists round_events.
  assert (final_text (final_state (debate sample_exn_text sample_repr insertion_order
                                     (sample_request ["gpt"] 1) null_content)) = false)
    as Hnull by reflexivity.
  rewrite Hnull in Hend. destruct Hend as [Hev Hraise].
  split; [exact Hround|]. split; [exact Hlen|]. split; [exact Hev|exact Hraise].
Defined.

Lemma round_events_follow_the_schedule_witness :
  round_keys (events_of (debate sample_exn_text sample_repr insertion_order
                           (sample_request ["claude"; "gpt"] 2) timeouts))
  = [(1, "claude"); (1, "gpt"); (2, "claude"); (2, "gpt")].
Proof.
  destruct (round_events_follow_the_schedule sample_exn_text sample_repr
              insertion_order (sample_request ["claude"; "gpt"] 2) timeouts)
    as (_ & Hall & _).
  rewrite Hall; reflexivity.
Defined.

Lemma histories_record_the_rounds_witness :
  (exists h,
     assoc "gpt" (final_state (debate sample_exn_text sample_repr insertion_order
                                 (sample_request ["claude"; "gpt"] 2) timeouts)) = Some h
     /\ Z.of_nat (length h) = 2)
  /\ exists s0 s1,
       snapshots (debate sample_exn_text sample_repr insertion_order
                    (sample_request ["claude"; "llama"] 2) timeouts) !! 0%nat = Some s0
       /\ snapshots (debate sample_exn_text sample_repr insertion_order
                       (sample_request ["claude"; "llama"] 2) timeouts) !! 1%nat = Some s1
       /\ raised_of (debate sample_exn_text sample_repr insertion_order
                       (sample_request ["claude"; "llama"] 2) timeouts)
          = Some (KeyError (JStr "llama"))
       /\ extends s0 s1.
Proof.
  split.
  - destruct (histories_record_the_rounds sample_exn_text sample_repr insertion_order
                (sample_request ["claude"; "gpt"] 2) timeouts) as (_ & _ & Hrec).
    destruct (Hrec) with (i := 1%nat) (m := "gpt") as (h & Hh & Hl & _).
    + cbn [models sample_request]. apply NoDup_cons. split.
      * intros H. apply list_elem_of_singleton in H. discriminate.
      * apply NoDup_singleton.
    + reflexivity.
    + reflexivity.
    + exists h. split; [exact Hh|exact Hl].
  - destruct (histories_record_the_rounds sample_exn_text sample_repr insertion_order
                (sample_request ["claude"; "llama"] 2) timeouts) as (_ & Hgrow & _).
    do 2 eexists. split; [reflexivity|]. split; [reflexivity|].
    split; [reflexivity|].
    apply (Hgrow 0%nat 1%nat); [lia|reflexivity|reflexivity].
Defined.

(** C5 as stated fails: with one participant listed twice and one round,
    the debate completes and the participant's history holds two
    responses. *)
Lemma repeated_participant_has_longer_history :
  raised_of (debate sample_exn_text sample_repr insertion_order
               (sample_request ["claude"; "claude"] 1) timeouts) = None
  /\ exists h,
       assoc "claude"
         (final_state (debate sample_exn_text sample_repr insertion_order
                         (sample_request ["claude"; "claude"] 1) timeouts)) = Some h
       /\ h = [JStr "Error: Claude API request timed out";
               JStr "Error: Claude API request timed out"]
       /\ Z.of_nat (length h) <> rounds (sample_request ["claude"; "claude"] 1).
Proof.
  split; [reflexivity|]. eexists. split; [reflexivity|]. split; [reflexivity|].
  discriminate.
Qed.

Lemma prompts_quote_the_previous_round_witness :
  exists text,
    build_prompt sample_repr (sample_request ["claude"; "gpt"] 2) 2 after_round1 "claude"
    = Ok (system_revision, [{| role := "user"; content := text |}])
    /\ contains text "Minds are brains."
    /\ contains text "**GPT-4o**: Minds are programs.".
Proof.
  destruct (prompts_quote_the_previous_round sample_repr
              (sample_request ["claude"; "gpt"] 2)) as [_ Hlater].
  destruct (Hlater 2 after_round1 "claude") as (text & Htext & Hown & Hothers).
  - lia.
  - repeat (apply Forall_cons; split;
            [split; [reflexivity|]|]); try apply Forall_nil_2.
    + apply list_elem_of_here.
    + apply list_elem_of_further, list_elem_of_here.
  - apply list_elem_of_here.
  - exists text. split; [exact Htext|]. split.
    + apply (Hown [JStr "Minds are brains."]). reflexivity.
    + destruct (Hothers "gpt" [JStr "Minds are programs."] (JStr "Minds are programs."))
        as (cfg & Hcfg & Hc); try reflexivity.
      * apply list_elem_of_further, list_elem_of_here.
      * discriminate.
      * injection Hcfg as <-. exact Hc.
Defined.

Lemma reverse_order_lists_the_set : iteration_lists_the_set reverse_order.
Proof. intros l. unfold reverse_order. symmetry. apply Permutation_rev. Defined.

Lemma same_returns_same_stream_but_theme_order_witness :
  map without_themes
    (events_of (debate sample_exn_text sample_repr insertion_order
                  (sample_request ["claude"; "gpt"] 2) timeouts))
  = map without_themes
      (events_of (debate sample_exn_text sample_repr reverse_order
                    (sample_request ["claude"; "gpt"] 2) timeouts_in_order))
  /\ exists summary1 a1 summary2 a2,
       events_of (debate sample_exn_text sample_repr insertion_order
                    (sample_request ["claude"; "gpt"] 2) timeouts) !! 4%nat
       = Some (ConsensusEvent summary1 a1)
       /\ events_of (debate sample_exn_text sample_repr reverse_order
                       (sample_request ["claude"; "gpt"] 2) timeouts_in_order) !! 4%nat
          = Some (ConsensusEvent summary2 a2)
       /\ common_themes a1 ≡ₚ common_themes a2.
Proof.
  destruct (same_returns_same_stream_but_theme_order sample_exn_text sample_repr
              insertion_order reverse_order
              (sample_request ["claude"; "gpt"] 2) timeouts timeouts_in_order)
    as (Hevents & _ & _ & _ & _ & Hperm & _).
  { intros site model_id messages system. reflexivity. }
  split; [exact Hevents|].
  do 4 eexists. split; [reflexivity|]. split; [reflexivity|].
  eapply Hperm.
  - exact insertion_order_lists_the_set.
  - exact reverse_order_lists_the_set.
  - vm_compute. lia.
  - apply list_elem_of_lookup. exists 4%nat. reflexivity.
  - apply list_elem_of_lookup. exists 4%nat. reflexivity.
Defined.

(** C9 as stated fails: the same request on the same network, every call
    timing out, under two interpreters that iterate sets in opposite
    orders; the common themes of the two consensus events are listed in
    opposite orders, so the event sequences differ. *)
Lemma theme_order_differs_between_interpreters :
  iteration_lists_the_set insertion_order
  /\ iteration_lists_the_set reverse_order
  /\ same_returns sample_exn_text sample_repr
       (sample_request ["claude"; "gpt"] 1) timeouts timeouts
  /\ events_of (debate sample_exn_text sample_repr insertion_order
                  (sample_request ["claude"; "gpt"] 1) timeouts)
     <> events_of (debate sample_exn_text sample_repr reverse_order
                     (sample_request ["claude"; "gpt"] 1) timeouts).
Proof.
  split; [exact insertion_order_lists_the_set|].
  split; [exact reverse_order_lists_the_set|].
  split; [by intros site model_id messages system|].
  intros H.
  apply (f_equal (fun evs => match evs !! 2%nat with
                             | Some (ConsensusEvent _ a) => common_themes a
                             | _ => []
                             end)) in H.
  vm_compute in H. discriminate.
Qed.

Lemma accepted_request_has_credentials_witness :
  exists p family key,
    provider_id p = "gpt"
    /\ assoc "gpt" required_keys = Some family
    /\ assoc family (api_keys (sample_request ["claude"; "gpt"] 2)) = Some key
    /\ key <> ""
    /\ forall post messages system,
         call_model sample_exn_text sample_repr post "gpt"
           (api_keys (sample_request ["claude"; "gpt"] 2)) messages system
         = adapter sample_exn_text sample_repr p post key messages system.
Proof.
  eapply (accepted_request_has_credentials sample_exn_text sample_repr insertion_order
            (sample_request ["claude"; "gpt"] 2) timeouts).
  - reflexivity.
  - apply list_elem_of_further, list_elem_of_here.
  - reflexivity.
Defined.

Lemma no_participant_raises_IndexError_witness :
  events_of (debate sample_exn_text sample_repr insertion_order
               (sample_request [] 2) timeouts) = []
  /\ raised_of (debate sample_exn_text sample_repr insertion_order
                  (sample_request [] 2) timeouts) = Some IndexError.
Proof.
  apply (no_participant_raises_IndexError sample_exn_text sample_repr insertion_order
           (sample_request [] 2) timeouts).
  reflexivity.
Defined.

Lemma round_events_are_of_the_request_witness :
  round_event_of (sample_request ["claude"; "gpt"] 2)
    (RoundEvent 2 "gpt" "GPT-4o" "#10B981"
       (JStr "Error: GPT API request timed out") true).
Proof.
  apply (round_events_are_of_the_request sample_exn_text sample_repr insertion_order
           (sample_request ["claude"; "gpt"] 2) timeouts).
  - vm_compute. do 3 apply list_elem_of_further. apply list_elem_of_here.
  - eexists. reflexivity.
Defined.

Lemma round_event_is_recorded_first_witness :
  exists s hist,
    yields (debate sample_exn_text sample_repr insertion_order
              (sample_request ["claude"; "gpt"] 2) timeouts) !! 0%nat
    = Some (RoundEvent 1 "claude" "Claude" "#D97706"
              (JStr "Error: Claude API request timed out") false, s)
    /\ assoc "claude" s = Some hist
    /\ last hist = Some (JStr "Error: Claude API request timed out").
Proof.
  assert (exists s,
            yields (debate sample_exn_text sample_repr insertion_order
                      (sample_request ["claude"; "gpt"] 2) timeouts) !! 0%nat
            = Some (RoundEvent 1 "claude" "Claude" "#D97706"
                      (JStr "Error: Claude API request timed out") false, s))
    as [s Hs].
  { eexists. reflexivity. }
  destruct (round_event_is_recorded_first sample_exn_text sample_repr insertion_order
              (sample_request ["claude"; "gpt"] 2) timeouts _ s
              (proj2 (list_elem_of_lookup _ _) (ex_intro _ 0%nat Hs))
              1 "claude" "Claude" "#D97706"
              (JStr "Error: Claude API request timed out") false eq_refl)
    as (hist & Hh & Hl).
  exists s, hist. split; [exact Hs|]. split; [exact Hh|exact Hl].
Defined.

Lemma round_event_carries_its_own_call_witness :
  events_of (debate_round sample_exn_text sample_repr
               (sample_request ["claude"; "gpt"] 2) timeouts_in_order 2 after_round1)
    !! 1%nat
  = events_of (debate_round sample_exn_text sample_repr
                 (sample_request ["claude"; "gpt"] 2) timeouts 2 after_round1)
      !! 1%nat.
Proof.
  destruct (round_event_carries_its_own_call sample_exn_text sample_repr
              (sample_request ["claude"; "gpt"] 2) timeouts 2 after_round1)
    with (j := 1%nat) (m := "gpt") as [_ Hsame].
  - repeat (apply Forall_cons; split; [split; [reflexivity|]|]);
      try apply Forall_nil_2.
    + apply list_elem_of_here.
    + apply list_elem_of_further, list_elem_of_here.
  - reflexivity.
  - apply Hsame. reflexivity.
Defined.

Lemma consensus_event_analysis_witness :
  exists summary a,
    events_of (debate sample_exn_text sample_repr insertion_order
                 (sample_request ["claude"; "gpt"] 1) timeouts) !! 2%nat
    = Some (ConsensusEvent summary a)
    /\ models_compared a = ["claude"; "gpt"]
    /\ response_lengths a = [("claude", 35); ("gpt", 32)]
    /\ (length (common_themes a) <= 10)%nat.
Proof.
  assert (exists summary a,
            events_of (debate sample_exn_text sample_repr insertion_order
                         (sample_request ["claude"; "gpt"] 1) timeouts) !! 2%nat
            = Some (ConsensusEvent summary a)) as (summary & a & He).
  { do 2 eexists. reflexivity. }
  destruct (consensus_event_analysis sample_exn_text sample_repr insertion_order
              (sample_request ["claude"; "gpt"] 1) timeouts summary a
              (proj2 (list_elem_of_lookup _ _) (ex_intro _ 2%nat He)))
    as (_ & _ & _ & Hm & Hl & _ & Hcap).
  exists summary, a. split; [exact He|]. split; [|split; [|exact Hcap]].
  - apply Hm. cbn [models sample_request]. apply NoDup_cons. split.
    + intros H. apply list_elem_of_singleton in H. discriminate.
    + apply NoDup_singleton.
  - rewrite Hl. reflexivity.
Defined.

Lemma consensus_event_summary_witness :
  exists summary text,
    call_model sample_exn_text sample_repr (post_at timeouts SummaryCall) "claude"
      (api_keys (sample_request ["claude"; "gpt"] 1))
      [{| role := "user"; content := text |}] (Some summary_system)
    = Ok summary
    /\ contains text "What is consciousness?"
    /\ contains text "**GPT-4o**: Error: GPT API request timed out".
Proof.
  assert (exists summary a,
            events_of (debate sample_exn_text sample_repr insertion_order
                         (sample_request ["claude"; "gpt"] 1) timeouts) !! 2%nat
            = Some (ConsensusEvent summary a)) as (summary & a & He).
  { do 2 eexists. reflexivity. }
  destruct (consensus_event_summary sample_exn_text sample_repr insertion_order
              (sample_request ["claude"; "gpt"] 1) timeouts summary a
              (proj2 (list_elem_of_lookup _ _) (ex_intro _ 2%nat He)))
    as (m0 & rest & text & Hm & Hcall & Hq & Hall).
  injection Hm as <- <-.
  exists summary, text. split; [exact Hcall|]. split; [exact Hq|].
  destruct (Hall "gpt" [JStr "Error: GPT API request timed out"]
              (JStr "Error: GPT API request timed out")) as (cfg & Hcfg & Hc).
  - vm_compute. apply list_elem_of_further, list_elem_of_here.
  - reflexivity.
  - injection Hcfg as <-. exact Hc.
Defined.

Lemma common_themes_are_words_of_every_response_witness :
  exists a,
    analyze_consensus insertion_order
      (text_dict [("a", "The Mind matters"); ("b", "MIND over matter")]) = Ok a
    /\ forall t,
         t ∈ common_themes a ->
         lower t = t
         /\ Forall (fun c => isspace c = false) (chars t)
         /\ forall m r,
              (m, r) ∈ [("a", "The Mind matters"); ("b", "MIND over matter")] ->
              contains (lower r) t.
Proof.
  apply (common_themes_are_words_of_every_response insertion_order
           insertion_order_lists_the_set
           [("a", "The Mind matters"); ("b", "MIND over matter")]).
Defined.

Lemma common_themes_ignore_participant_order_witness :
  exists a a',
    analyze_consensus insertion_order
      (text_dict [("a", "The Mind matters"); ("b", "MIND over matter")]) = Ok a
    /\ analyze_consensus insertion_order
         (text_dict [("b", "MIND over matter"); ("a", "The Mind matters")]) = Ok a'
    /\ common_themes a ≡ₚ common_themes a'
    /\ models_compared a ≡ₚ models_compared a'
    /\ response_lengths a ≡ₚ response_lengths a'.
Proof.
  apply (common_themes_ignore_participant_order insertion_order
           insertion_order_lists_the_set
           [("a", "The Mind matters"); ("b", "MIND over matter")]
           [("b", "MIND over matter"); ("a", "The Mind matters")]).
  - apply perm_swap.
  - vm_compute. lia.
Defined.

Lemma error_text_of_a_provider_witness :
  call_claude sample_exn_text sample_repr
    (fun _ => Responds 401 "{...}"
                (Some (JObj [("error", JObj [("message", JStr "invalid x-api-key")])])))
    "k1" [] None
  = Ok (JStr "Claude API Error (401): invalid x-api-key").
Proof.
  apply (error_text_of_a_provider sample_exn_text sample_repr Claude
           (fun _ => Responds 401 "{...}"
                       (Some (JObj [("error",
                                     JObj [("message", JStr "invalid x-api-key")])])))
           "k1" [] None 401 "{...}"
           (Some (JObj [("error", JObj [("message", JStr "invalid x-api-key")])]))).
  - reflexivity.
  - lia.
Defined.

Lemma debate_reads_the_keys_of_its_participants_witness :
  debate sample_exn_text sample_repr insertion_order
    (with_api_keys (sample_request ["claude"] 1) [("mistral", "k4"); ("anthropic", "k1")])
    timeouts
  = debate sample_exn_text sample_repr insertion_order
      (sample_request ["claude"] 1) timeouts.
Proof.
  apply (debate_reads_the_keys_of_its_participants sample_exn_text sample_repr
           insertion_order (sample_request ["claude"] 1) timeouts
           [("mistral", "k4"); ("anthropic", "k1")]).
  intros model_id family Hin Hf. apply list_elem_of_singleton in Hin. subst model_id.
  vm_compute in Hf. injection Hf as <-. reflexivity.
Defined.

Lemma fewer_rounds_yield_a_prefix_witness :
  round_part (events_of (debate sample_exn_text sample_repr insertion_order
                           (with_rounds (sample_request ["claude"; "gpt"] 0) 1)
                           timeouts))
    `prefix_of`
  round_part (events_of (debate sample_exn_text sample_repr insertion_order
                           (with_rounds (sample_request ["claude"; "gpt"] 0) 2)
                           timeouts)).
Proof.
  apply (fewer_rounds_yield_a_prefix sample_exn_text sample_repr insertion_order
           (sample_request ["claude"; "gpt"] 0) timeouts 1 2).
  lia.
Defined.
